(** * LungScapeAI: display logic and gesture control, embedded and verified

    A shallow embedding of the parts of the LungScapeAI front end that carry
    checkable behaviour:

    - [Layers]   the visibility flags of [App] and [toggleLayer];
    - [Js]       the JavaScript string built-ins the components call
                 ([split], [trim], [includes], [toLowerCase]);
    - [Chat]     the knowledge-base lookup of [AIChatHub.handleSend];
    - [Gemini]   the two requests of the generative-text service module;
    - [JsMath]   [Math.max], [Math.min] and friends on binary64 numbers;
    - [Gesture]  [toggleCamera] and [predictWebcam] of
                 [HandGestureController];
    - [Regex]    a backtracking matcher for the pattern of
                 [highlightNumbers];
    - [Findings] [parseFindings] and [highlightNumbers] of
                 [GeminiAnalysisDisplay];
    - [Leftmost] what a scan with the pattern of [highlightNumbers] finds,
                 said without the matcher;
    - [App], [Guide], [Scan], [ChatLog], [Display], [Panel]
                 the layer rows, the learning guide, the scan animation,
                 the chat over time, the findings view and the analysis
                 panel's fetch;
    - [GestureLoop] the controller's loop, its frames over time and the two
                 visualizers it steers.

    JavaScript strings are sequences of UTF-16 code units and JavaScript
    numbers are IEEE 754 binary64 values; they are modelled as lists of [N]
    and as the kernel's primitive floats.  The definitions come first, the
    properties proved of them after. *)

From Stdlib Require Import Ascii String DecimalString.
From Stdlib Require Import List Bool Arith NArith ZArith Lia.
From Stdlib Require Import Floats.
Import ListNotations.

Set Warnings "-inexact-float".

(* ================================================================== *)
(** * Visibility layers ([App], [types.ts]) *)

Module Layers.

(** [interface VisualizationLayers]: eleven boolean fields. *)
Record VisualizationLayers : Type := mkLayers {
  leftLung : bool;
  rightLung : bool;
  lobes : bool;
  bronchi : bool;
  bronchioles : bool;
  alveoli : bool;
  vasculature : bool;
  pleura : bool;
  airflow : bool;
  fibrosisMap : bool;
  motion : bool
}.

(** [keyof VisualizationLayers]. *)
Inductive LayerKey : Type :=
| KLeftLung | KRightLung | KLobes | KBronchi | KBronchioles | KAlveoli
| KVasculature | KPleura | KAirflow | KFibrosisMap | KMotion.

Definition LayerKey_eq_dec (a b : LayerKey) : {a = b} + {a <> b}.
Proof. decide equality. Defined.

(** Property read [prev[key]]. *)
Definition get (key : LayerKey) (l : VisualizationLayers) : bool :=
  match key with
  | KLeftLung => leftLung l
  | KRightLung => rightLung l
  | KLobes => lobes l
  | KBronchi => bronchi l
  | KBronchioles => bronchioles l
  | KAlveoli => alveoli l
  | KVasculature => vasculature l
  | KPleura => pleura l
  | KAirflow => airflow l
  | KFibrosisMap => fibrosisMap l
  | KMotion => motion l
  end.

(** Object spread with one overriding computed key,
    [{ ...prev, [key]: v }]: a fresh object holding every field of [prev],
    the field [key] replaced by [v]. *)
Definition spread_with (prev : VisualizationLayers) (key : LayerKey) (v : bool)
  : VisualizationLayers :=
  match key with
  | KLeftLung => mkLayers v (rightLung prev) (lobes prev) (bronchi prev) (bronchioles prev) (alveoli prev) (vasculature prev) (pleura prev) (airflow prev) (fibrosisMap prev) (motion prev)
  | KRightLung => mkLayers (leftLung prev) v (lobes prev) (bronchi prev) (bronchioles prev) (alveoli prev) (vasculature prev) (pleura prev) (airflow prev) (fibrosisMap prev) (motion prev)
  | KLobes => mkLayers (leftLung prev) (rightLung prev) v (bronchi prev) (bronchioles prev) (alveoli prev) (vasculature prev) (pleura prev) (airflow prev) (fibrosisMap prev) (motion prev)
  | KBronchi => mkLayers (leftLung prev) (rightLung prev) (lobes prev) v (bronchioles prev) (alveoli prev) (vasculature prev) (pleura prev) (airflow prev) (fibrosisMap prev) (motion prev)
  | KBronchioles => mkLayers (leftLung prev) (rightLung prev) (lobes prev) (bronchi prev) v (alveoli prev) (vasculature prev) (pleura prev) (airflow prev) (fibrosisMap prev) (motion prev)
  | KAlveoli => mkLayers (leftLung prev) (rightLung prev) (lobes prev) (bronchi prev) (bronchioles prev) v (vasculature prev) (pleura prev) (airflow prev) (fibrosisMap prev) (motion prev)
  | KVasculature => mkLayers (leftLung prev) (rightLung prev) (lobes prev) (bronchi prev) (bronchioles prev) (alveoli prev) v (pleura prev) (airflow prev) (fibrosisMap prev) (motion prev)
  | KPleura => mkLayers (leftLung prev) (rightLung prev) (lobes prev) (bronchi prev) (bronchioles prev) (alveoli prev) (vasculature prev) v (airflow prev) (fibrosisMap prev) (motion prev)
  | KAirflow => mkLayers (leftLung prev) (rightLung prev) (lobes prev) (bronchi prev) (bronchioles prev) (alveoli prev) (vasculature prev) (pleura prev) v (fibrosisMap prev) (motion prev)
  | KFibrosisMap => mkLayers (leftLung prev) (rightLung prev) (lobes prev) (bronchi prev) (bronchioles prev) (alveoli prev) (vasculature prev) (pleura prev) (airflow prev) v (motion prev)
  | KMotion => mkLayers (leftLung prev) (rightLung prev) (lobes prev) (bronchi prev) (bronchioles prev) (alveoli prev) (vasculature prev) (pleura prev) (airflow prev) (fibrosisMap prev) v
  end.

(** The initial state of [useState<VisualizationLayers>] in [App]. *)
Definition initial_layers : VisualizationLayers :=
  mkLayers true true false true false true true true true false true.

(** [toggleLayer]: [setLayers(prev => ({ ...prev, [key]: !prev[key] }))].
    The state setter applies the updater to the current state. *)
Definition toggleLayer (key : LayerKey) (prev : VisualizationLayers)
  : VisualizationLayers :=
  spread_with prev key (negb (get key prev)).

End Layers.

(* ================================================================== *)
(** * JavaScript strings and the built-ins the components call *)

Module Js.

(** A string is a sequence of UTF-16 code units. *)
Definition code_unit : Type := N.
Definition jsstring : Type := list code_unit.

(** Source literals: every literal of the modelled code that is written
    through [lit] is Basic Latin, one code unit per character. *)
Definition lit (s : String.string) : jsstring :=
  map N_of_ascii (String.list_ascii_of_string s).

Fixpoint eqb (a b : jsstring) : bool :=
  match a, b with
  | [], [] => true
  | x :: a', y :: b' => N.eqb x y && eqb a' b'
  | _, _ => false
  end.

(** [s.startsWith(p)]: [p] is an initial segment of [s]. *)
Fixpoint is_prefix (p s : jsstring) : bool :=
  match p, s with
  | [], _ => true
  | _ :: _, [] => false
  | x :: p', y :: s' => N.eqb x y && is_prefix p' s'
  end.

(** [s.includes(p)]: [p] occurs in [s] at some index. *)
Fixpoint includes (s p : jsstring) : bool :=
  match s with
  | [] => is_prefix p []
  | _ :: s' => is_prefix p s || includes s' p
  end.

(** The text before and after the leftmost occurrence of [sep] in [s]. *)
Fixpoint find_sep (sep s : jsstring) : option (jsstring * jsstring) :=
  match s with
  | [] => if is_prefix sep [] then Some ([], []) else None
  | c :: s' =>
      if is_prefix sep s then Some ([], skipn (length sep) s)
      else match find_sep sep s' with
           | Some (a, b) => Some (c :: a, b)
           | None => None
           end
  end.

(** [split] for a non-empty separator: cut at the leftmost occurrence and
    go on in the text after it.  The text after a cut is shorter than the
    text cut, so [S (length s)] rounds suffice; [fuel] only makes the
    recursion structural. *)
Fixpoint split_fuel (fuel : nat) (sep s : jsstring) : list jsstring :=
  match fuel with
  | O => [s]
  | S fuel' =>
      match find_sep sep s with
      | None => [s]
      | Some (a, b) => a :: split_fuel fuel' sep b
      end
  end.

(** [s.split(sep)] with a string separator.  The empty separator splits
    between code units. *)
Definition split (s sep : jsstring) : list jsstring :=
  match sep with
  | [] => map (fun c => [c]) s
  | _ :: _ => split_fuel (S (length s)) sep s
  end.

(** ECMAScript [WhiteSpace] and [LineTerminator] code units, the ones
    [trim] strips: TAB, LF, VT, FF, CR, SP, NBSP, U+1680, U+2000..U+200A,
    U+2028, U+2029, U+202F, U+205F, U+3000 and U+FEFF. *)
Definition is_ws (c : code_unit) : bool :=
  ((9 <=? c) && (c <=? 13) || (c =? 32) || (c =? 160) || (c =? 5760)
   || (8192 <=? c) && (c <=? 8202) || (c =? 8232) || (c =? 8233)
   || (c =? 8239) || (c =? 8287) || (c =? 12288) || (c =? 65279))%N.

Fixpoint dropWhile (p : code_unit -> bool) (s : jsstring) : jsstring :=
  match s with
  | [] => []
  | c :: s' => if p c then dropWhile p s' else s
  end.

Definition trimStart (s : jsstring) : jsstring := dropWhile is_ws s.
Definition trimEnd (s : jsstring) : jsstring := rev (dropWhile is_ws (rev s)).

(** [s.trim()]. *)
Definition trim (s : jsstring) : jsstring := trimEnd (trimStart s).

(** [s.toLowerCase()] on Basic Latin: the letters A..Z move to a..z and
    every other code unit below 128 stays.  Code units from 128 on are
    left as they are, which is exact only for caseless characters (JavaScript
    takes U+212A to [k] and U+0130 to [i] with U+0307, for one), so what is
    proved of a lower-cased value is proved of Basic Latin strings only: the
    keys (see [ChatFacts.keys_basic_latin]) and texts with
    [is_basic_latin]. *)
Definition lower_unit (c : code_unit) : code_unit :=
  if ((65 <=? c) && (c <=? 90))%N then (c + 32)%N else c.

Definition toLowerCase (s : jsstring) : jsstring := map lower_unit s.

Definition is_basic_latin (s : jsstring) : bool :=
  forallb (fun c => (c <? 128)%N) s.

(** Truthiness of a string: the empty string is the only falsy one. *)
Definition truthy (s : jsstring) : bool :=
  match s with [] => false | _ :: _ => true end.

(** [n.toString()] for a non-negative integer. *)
Definition nat_toString (n : N) : jsstring :=
  lit (DecimalString.NilZero.string_of_uint (N.to_uint n)).

End Js.

(* ================================================================== *)
(** * The chat widget ([components/AIChatHub.tsx]) *)

Module Chat.
Import Js.

Inductive Sender : Type := User | Ai.

(** [interface Message].  [timestamp] is the clock reading, in
    milliseconds, at which [new Date()] was evaluated. *)
Record Message : Type := mkMessage {
  id : jsstring;
  text : jsstring;
  sender : Sender;
  timestamp : N
}.

(** The suggestion chips. *)
Definition PRESET_QUESTIONS : list jsstring :=
  [ lit "What condition is being shown in this scan?";
    lit "Is the disease spreading to both lungs?";
    lit "How will this affect my physical activity?";
    lit "What is emphysematous bulla?";
    lit "Why is my airflow restricted?";
    lit "What is my stiffness index and what does it mean?";
    lit "How does smoking affect this condition?";
    lit "What medications are typical for COPD?";
    lit "Can these damaged areas heal?";
    lit "What should I monitor daily?" ].

(** [KNOWLEDGE_BASE: Record<string, string>].  [Object.keys] lists the
    keys of an object literal in the order they were written (none of them
    is an array index), and [find] takes the first that fits, so the
    object is kept as an association list in source order. *)
Definition KNOWLEDGE_BASE : list (jsstring * jsstring) :=
  [ (lit "What condition is being shown in this scan?",
     lit "Based on the 3D reconstruction and the CT slices, your scan shows clear signs of Chronic Obstructive Pulmonary Disease (COPD) with underlying Emphysema. The 'black holes' in the upper lobes indicate tissue loss.");
    (lit "Is the disease spreading to both lungs?",
     lit "Currently, the analysis detects pathology primarily in the upper lobes of both lungs, but the 'Emphysematous Bulla' (large air pocket) is most prominent in your upper left lung.");
    (lit "How will this affect my physical activity?",
     lit "Because your total lung volume is decreased by 13.1% and air trapping is at 18%, you may experience shortness of breath during exertion. The lungs cannot exchange oxygen as efficiently as healthy tissue.");
    (lit "What is emphysematous bulla?",
     lit "A bulla is a permanent air-filled space within the lung that develops when the walls of the tiny air sacs (alveoli) are destroyed. It doesn't contribute to breathing and can compress healthy lung tissue around it.");
    (lit "Why is my airflow restricted?",
     lit "Your distal airways are showing structural distortion and narrowing. This prevents air from leaving the lungs smoothly, leading to the 'Air Trapping' shown in your metrics.");
    (lit "What is my stiffness index and what does it mean?",
     lit "Your stiffness index increased from 2.1 to 6.8. This indicates 'mechanical impedance'" ++ [8212%N] ++ lit "your lung tissue is becoming less elastic and harder to expand, making it more work to take a deep breath.");
    (lit "How does smoking affect this condition?",
     lit "Smoking is the primary cause of the tissue destruction seen here. It accelerates the breakdown of alveoli walls and increases inflammation in the airways, worsening air trapping.");
    (lit "What medications are typical for COPD?",
     lit "Typical treatments include bronchodilators to open airways, corticosteroids to reduce inflammation, and sometimes supplemental oxygen. *Note: Always consult your physician for prescriptions.*");
    (lit "Can these damaged areas heal?",
     lit "Lungs generally don't 'regrow' destroyed alveoli. However, the goal of treatment is to protect the remaining 82% of healthy air capacity and improve your quality of life through therapy.");
    (lit "What should I monitor daily?",
     lit "You should monitor your oxygen saturation (SpO2), your level of breathlessness during resting vs. activity, and any changes in cough or sputum production.") ].

(** The reply given when no key fits. *)
Definition FALLBACK : jsstring :=
  lit "I'm sorry, I don't have specific data on that yet. Try asking one of the recommended questions or consult your specialist.".

(** [Object.keys(KNOWLEDGE_BASE)]. *)
Definition keys (kb : list (jsstring * jsstring)) : list jsstring :=
  map fst kb.

(** [KNOWLEDGE_BASE[key]]; [None] is [undefined]. *)
Fixpoint kb_get (kb : list (jsstring * jsstring)) (key : jsstring)
  : option jsstring :=
  match kb with
  | [] => None
  | (k, v) :: kb' => if eqb k key then Some v else kb_get kb' key
  end.

(** The predicate of [find] in the timer callback: the lower-cased text
    includes the lower-cased key, or the other way round. *)
Definition fits (text q : jsstring) : bool :=
  includes (toLowerCase text) (toLowerCase q)
  || includes (toLowerCase q) (toLowerCase text).

(** The [aiText] computed by the timer callback of [handleSend].  A key
    always has a value, so the [undefined] arm (rendered as no text) is
    never taken. *)
Definition aiText (text : jsstring) : jsstring :=
  match find (fits text) (keys KNOWLEDGE_BASE) with
  | Some foundMatch =>
      if truthy foundMatch then
        match kb_get KNOWLEDGE_BASE foundMatch with
        | Some a => a
        | None => []
        end
      else FALLBACK
  | None => FALLBACK
  end.

(** The component state: [messages], [inputValue], [isTyping]. *)
Record State : Type := mkState {
  messages : list Message;
  inputValue : jsstring;
  isTyping : bool
}.

Definition initial_state (now : N) : State :=
  mkState
    [ mkMessage (lit "1")
        (lit "Hello! I'm LungScape AI. I've analyzed your 3D lung model and CT data. How can I help you understand your results today?")
        Ai now ]
    [] false.

(** The synchronous part of [handleSend(text)] at clock reading [now]:
    the new state, and the text captured by the timer it schedules
    ([None] when it returns before scheduling one). *)
Definition handleSend (now : N) (text : jsstring) (st : State)
  : State * option jsstring :=
  if negb (truthy (trim text)) then (st, None)
  else
    let userMsg := mkMessage (nat_toString now) text User now in
    (mkState (messages st ++ [userMsg]) [] true, Some text).

(** The timer callback of [handleSend], run 1500 ms later at clock
    reading [now] with the captured [text]. *)
Definition onTimeout (now : N) (text : jsstring) (st : State) : State :=
  let aiMsg := mkMessage (nat_toString (now + 1)) (aiText text) Ai now in
  mkState (messages st ++ [aiMsg]) (inputValue st) false.

(** A whole exchange: [handleSend] at [t0], its timer firing at [t1]. *)
Definition exchange (t0 t1 : N) (text : jsstring) (st : State) : State :=
  match handleSend t0 text st with
  | (st1, Some captured) => onTimeout t1 captured st1
  | (st1, None) => st1
  end.

(** [a] is the value of no key but [q]. *)
Definition answer_only_of (q a : jsstring) : bool :=
  forallb (fun kv => implb (eqb (snd kv) a) (eqb (fst kv) q)) KNOWLEDGE_BASE.

(** A question is answered with its own value: it has a value, the reply
    to it is that value, which is neither [FALLBACK] nor the value of another
    key. *)
Definition replies_own_answer (q : jsstring) : bool :=
  match kb_get KNOWLEDGE_BASE q with
  | Some a => eqb (aiText q) a && negb (eqb a FALLBACK) && answer_only_of q a
              && truthy (trim q)
  | None => false
  end.

End Chat.

(* ================================================================== *)
(** * The generative-text service ([services/geminiService.ts]) *)

Module Gemini.
Import Js.

Inductive ViewMode : Type := DOCTOR | PATIENT.

Definition ViewMode_eqb (a b : ViewMode) : bool :=
  match a, b with
  | DOCTOR, DOCTOR | PATIENT, PATIENT => true
  | _, _ => false
  end.

Record LobeVolumes : Type := mkLobeVolumes {
  rul : float; rml : float; rll : float; lul : float; lll : float
}.

(** [interface LungMetrics]. *)
Record LungMetrics : Type := mkLungMetrics {
  totalVolume : float;
  expansionRatio : float;
  stiffnessIndex : float;
  airTrapping : float;
  lobeVolumes : LobeVolumes
}.

(** The argument of [ai.models.generateContent]. *)
Record Request : Type := mkRequest {
  model : jsstring;
  contents : jsstring;
  systemInstruction : option jsstring;
  temperature : option float
}.

(** What awaiting [generateContent] gives: a response, whose [text] may be
    [undefined], or a rejection with an error. *)
Inductive Outcome : Type :=
| Responds (text : option jsstring)
| Rejects (error : jsstring).

(** How a call ends. *)
Inductive Completion (A : Type) : Type :=
| Returns (a : A)
| Throws (error : jsstring).
Arguments Returns {A} a.
Arguments Throws {A} error.

(** What a call does on the way. *)
Inductive Event : Type :=
| Requested (r : Request)
| ConsoleError (label error : jsstring).

(** A computation: its completion and the events it caused, in order. *)
Definition Run (A : Type) : Type := (Completion A * list Event)%type.

Definition ret {A : Type} (a : A) : Run A := (Returns a, []).

Definition bind {A B : Type} (c : Run A) (k : A -> Run B) : Run B :=
  match c with
  | (Returns a, t) => let (r, t') := k a in (r, t ++ t')
  | (Throws e, t) => (Throws e, t)
  end.

(** [try { c } catch (error) { h error }]. *)
Definition try_catch {A : Type} (c : Run A) (h : jsstring -> Run A) : Run A :=
  match c with
  | (Returns a, t) => (Returns a, t)
  | (Throws e, t) => let (r, t') := h e in (r, t ++ t')
  end.

Notation "x <- c ;; k" := (bind c (fun x => k))
  (at level 61, c at next level, right associativity).

Definition console_error (label error : jsstring) : Run unit :=
  (Returns tt, [ConsoleError label error]).

Definition nl : jsstring := [10%N].

(** [a || b] on a possibly undefined string. *)
Definition or_else (a : option jsstring) (b : jsstring) : jsstring :=
  match a with
  | Some s => if truthy s then s else b
  | None => b
  end.

Section Service.

(** [process.env.API_KEY]: [None] when the variable is not set. *)
Variable API_KEY : option jsstring.

(** The remote service: how it answers each request. *)
Variable service : Request -> Outcome.

(** Number-to-string conversion of template literals. *)
Variable number_toString : float -> jsstring.

(** [!process.env.API_KEY]: the key is unset or empty. *)
Definition key_missing : bool :=
  match API_KEY with
  | Some k => negb (truthy k)
  | None => true
  end.

(** [await ai.models.generateContent(r)]. *)
Definition generateContent (r : Request) : Run (option jsstring) :=
  match service r with
  | Responds text => (Returns text, [Requested r])
  | Rejects e => (Throws e, [Requested r])
  end.

Definition modelId : jsstring := lit "gemini-3-flash-preview".

Definition instruction (mode : ViewMode) : jsstring :=
  if ViewMode_eqb mode DOCTOR
  then lit "You are a specialized medical AI assistant for pulmonologists. Analyze the provided longitudinal lung function metrics. Focus on structural changes, stiffness progression, and lobar volume loss. Use medical terminology (e.g., 'parenchymal compliance', 'fibrotic progression'). Be concise, data-driven, and objective. DO NOT provide a diagnosis. Limit to 3 bullet points."
  else lit "You are a helpful medical assistant explaining lung health changes to a patient. Use simple, reassuring, and clear language. Avoid complex jargon. Explain what the changes in volume and stiffness mean for their breathing. Focus on how the lungs are moving. DO NOT provide a medical diagnosis. Limit to 3 short paragraphs.".

Definition prompt (currentMetrics baselineMetrics : LungMetrics) : jsstring :=
  nl
  ++ lit "    Compare the following lung metrics:" ++ nl
  ++ lit "    " ++ nl
  ++ lit "    Baseline:" ++ nl
  ++ lit "    - Total Volume: " ++ number_toString (totalVolume baselineMetrics) ++ lit " mL" ++ nl
  ++ lit "    - Stiffness Index: " ++ number_toString (stiffnessIndex baselineMetrics) ++ nl
  ++ lit "    - Expansion Ratio: " ++ number_toString (expansionRatio baselineMetrics) ++ nl
  ++ lit "    - Air Trapping: " ++ number_toString (airTrapping baselineMetrics) ++ lit "%" ++ nl
  ++ nl
  ++ lit "    Current (Year 2):" ++ nl
  ++ lit "    - Total Volume: " ++ number_toString (totalVolume currentMetrics) ++ lit " mL" ++ nl
  ++ lit "    - Stiffness Index: " ++ number_toString (stiffnessIndex currentMetrics) ++ nl
  ++ lit "    - Expansion Ratio: " ++ number_toString (expansionRatio currentMetrics) ++ nl
  ++ lit "    - Air Trapping: " ++ number_toString (airTrapping currentMetrics) ++ lit "%" ++ nl
  ++ nl
  ++ lit "    Provide an assessment of the progression." ++ nl
  ++ lit "  ".

Definition progression_request
    (currentMetrics baselineMetrics : LungMetrics) (mode : ViewMode) : Request :=
  mkRequest modelId (prompt currentMetrics baselineMetrics)
            (Some (instruction mode)) (Some 0.3%float).

Definition analyzeLungProgression
    (currentMetrics baselineMetrics : LungMetrics) (mode : ViewMode)
  : Run jsstring :=
  if key_missing then
    ret (lit "API Key not configured. Unable to generate AI insights.")
  else
    try_catch
      (text <- generateContent
                 (progression_request currentMetrics baselineMetrics mode) ;;
       ret (or_else text (lit "Analysis unavailable.")))
      (fun error =>
         _ <- console_error (lit "Gemini API Error:") error ;;
         ret (lit "Unable to generate analysis at this time.")).

Definition similar_cases_request (condition : jsstring) : Request :=
  mkRequest (lit "gemini-3-flash-preview")
            (lit "Briefly describe the typical progression pattern for "
             ++ condition ++ lit " over 2 years in 2 sentences.")
            None None.

Definition getSimilarCasesAnalysis (condition : jsstring) : Run jsstring :=
  if key_missing then ret (lit "API Key missing.")
  else
    try_catch
      (text <- generateContent (similar_cases_request condition) ;;
       ret (or_else text []))
      (fun _ => ret []).

End Service.

End Gemini.

(* ================================================================== *)
(** * JavaScript numbers: the [Math] functions the controller calls *)

Module JsMath.
Local Open Scope float_scope.

Definition PI : float := 3.141592653589793.

Definition is_neg_zero (a : float) : bool :=
  match classify a with
  | NZero => true
  | _ => false
  end.

(** [Math.max(a, b)]: NaN if either argument is, else the larger one, with
    [+0] larger than [-0]. *)
Definition max (a b : float) : float :=
  if is_nan a || is_nan b then nan
  else if a <? b then b
  else if b <? a then a
  else if is_neg_zero a then b else a.

(** [Math.min(a, b)]: NaN if either argument is, else the smaller one, with
    [-0] smaller than [+0]. *)
Definition min (a b : float) : float :=
  if is_nan a || is_nan b then nan
  else if a <? b then a
  else if b <? a then b
  else if is_neg_zero a then a else b.

(** [Math.pow(a, 2)], taken as the correctly rounded square. *)
Definition pow2 (a : float) : float := a * a.

(** [a > b]. *)
Definition gt (a b : float) : bool := b <? a.

(** [lo <= a && a <= hi]. *)
Definition within (lo hi a : float) : bool := (lo <=? a) && (a <=? hi).

End JsMath.

(* ================================================================== *)
(** * The hand-gesture controller ([components/HandGestureController.tsx]) *)

Module Gesture.
Import Js.
Local Open Scope float_scope.

(** ** The objects the controller works on *)

Record Vector3 : Type := mkVector3 { vx : float; vy : float; vz : float }.

Definition v_sub (a b : Vector3) : Vector3 :=
  mkVector3 (vx a - vx b) (vy a - vy b) (vz a - vz b).
Definition v_add (a b : Vector3) : Vector3 :=
  mkVector3 (vx a + vx b) (vy a + vy b) (vz a + vz b).

(** [THREE.Spherical]. *)
Record Spherical : Type := mkSpherical {
  radius : float;
  phi : float;
  theta : float
}.

Definition set_radius (s : Spherical) (r : float) : Spherical :=
  mkSpherical r (phi s) (theta s).
Definition set_phi (s : Spherical) (p : float) : Spherical :=
  mkSpherical (radius s) p (theta s).
Definition set_theta (s : Spherical) (t : float) : Spherical :=
  mkSpherical (radius s) (phi s) t.

(** The fields of [OrbitControls] the controller reads or writes;
    [position] is [controls.object.position]. *)
Record OrbitControls : Type := mkControls {
  enableDamping : bool;
  position : Vector3;
  target : Vector3;
  minDistance : float;
  maxDistance : float
}.

Definition set_enableDamping (c : OrbitControls) (b : bool) : OrbitControls :=
  mkControls b (position c) (target c) (minDistance c) (maxDistance c).
Definition set_position (c : OrbitControls) (p : Vector3) : OrbitControls :=
  mkControls (enableDamping c) p (target c) (minDistance c) (maxDistance c).

(** The three.js operations the controller calls; their code is the
    library's, so they are taken as given. *)
Record Three : Type := mkThree {
  setFromVector3 : Vector3 -> Spherical;
  makeSafe : Spherical -> Spherical;
  setFromSpherical : Spherical -> Vector3;
  (** [camera.lookAt(target); controls.update()] *)
  lookAt_update : OrbitControls -> OrbitControls
}.

(** [NormalizedLandmark]. *)
Record Landmark : Type := mkLandmark { x : float; y : float; z : float }.

Record HandLandmarkerResult : Type := mkResult {
  landmarks : list (list Landmark)
}.

(** What [detectForVideo] does on a frame. *)
Inductive Detection : Type :=
| Detected (result : HandLandmarkerResult)
| DetectThrows (e : jsstring).

(** What [getUserMedia] does. *)
Inductive CameraOutcome : Type :=
| Granted (stream : N)
| Denied (err : jsstring).

Inductive DrawOp : Type :=
| ClearRect (w h : float)
| Dot (cx cy : float)
| Stroke (x1 y1 x2 y2 : float).

Record Canvas : Type := mkCanvas {
  width : float;
  height : float;
  (** [getContext("2d")] is not [null] *)
  context2d : bool;
  drawn : list DrawOp
}.

Definition resize (c : Canvas) (w h : float) : Canvas :=
  mkCanvas w h (context2d c) [].
Definition draw (c : Canvas) (ops : list DrawOp) : Canvas :=
  mkCanvas (width c) (height c) (context2d c) (drawn c ++ ops).

Record Video : Type := mkVideo {
  videoWidth : float;
  videoHeight : float;
  srcObject : option N
}.

Inductive LogEntry : Type :=
| ConsoleWarn (label e : jsstring)
| ConsoleError (label e : jsstring).

(** ** The component state *)

(** React state: [enabled], [loading], [status], [error]. *)
Record Ui : Type := mkUi {
  enabled : bool;
  loading : bool;
  status : jsstring;
  error : option jsstring
}.

(** The gesture refs: [lastPinchDistRef], [lastCentroidRef],
    [wasDampingEnabledRef], [isControllingRef]. *)
Record GestureRefs : Type := mkRefs {
  lastPinchDist : option float;
  lastCentroid : option (float * float);
  wasDampingEnabled : bool;
  isControlling : bool
}.

(** [videoRef.current], [canvasRef.current], [landmarkerRef.current] (only
    whether it is set), and [activeControlsPropRef.current.current]. *)
Record Dom : Type := mkDom {
  video : option Video;
  canvas : option Canvas;
  landmarker : bool;
  controls : option OrbitControls
}.

(** What the component did to the world around it: console output, page
    reloads, camera requests, [onEnableChange] calls, stopped streams. *)
Record World : Type := mkWorld {
  console : list LogEntry;
  reloads : nat;
  camera_requests : nat;
  enable_changes : list bool;
  stopped_streams : list N
}.

Record State : Type := mkState {
  ui : Ui;
  refs : GestureRefs;
  dom : Dom;
  world : World
}.

Definition with_ui (st : State) (u : Ui) : State :=
  mkState u (refs st) (dom st) (world st).
Definition with_refs (st : State) (g : GestureRefs) : State :=
  mkState (ui st) g (dom st) (world st).
Definition with_dom (st : State) (d : Dom) : State :=
  mkState (ui st) (refs st) d (world st).
Definition with_world (st : State) (w : World) : State :=
  mkState (ui st) (refs st) (dom st) w.

Definition setEnabled (st : State) (b : bool) : State :=
  with_ui st (mkUi b (loading (ui st)) (status (ui st)) (error (ui st))).
Definition setLoading (st : State) (b : bool) : State :=
  with_ui st (mkUi (enabled (ui st)) b (status (ui st)) (error (ui st))).
Definition setStatus (st : State) (s : jsstring) : State :=
  with_ui st (mkUi (enabled (ui st)) (loading (ui st)) s (error (ui st))).
Definition setError (st : State) (e : option jsstring) : State :=
  with_ui st (mkUi (enabled (ui st)) (loading (ui st)) (status (ui st)) e).

Definition set_canvas (st : State) (c : Canvas) : State :=
  with_dom st (mkDom (video (dom st)) (Some c) (landmarker (dom st))
                     (controls (dom st))).
Definition set_video (st : State) (v : Video) : State :=
  with_dom st (mkDom (Some v) (canvas (dom st)) (landmarker (dom st))
                     (controls (dom st))).
Definition set_controls (st : State) (c : OrbitControls) : State :=
  with_dom st (mkDom (video (dom st)) (canvas (dom st)) (landmarker (dom st))
                     (Some c)).

Definition log (st : State) (e : LogEntry) : State :=
  with_world st (mkWorld (console (world st) ++ [e]) (reloads (world st))
                         (camera_requests (world st))
                         (enable_changes (world st))
                         (stopped_streams (world st))).
Definition reload (st : State) : State :=
  with_world st (mkWorld (console (world st)) (S (reloads (world st)))
                         (camera_requests (world st))
                         (enable_changes (world st))
                         (stopped_streams (world st))).
Definition request_camera (st : State) : State :=
  with_world st (mkWorld (console (world st)) (reloads (world st))
                         (S (camera_requests (world st)))
                         (enable_changes (world st))
                         (stopped_streams (world st))).
Definition onEnableChange (st : State) (b : bool) : State :=
  with_world st (mkWorld (console (world st)) (reloads (world st))
                         (camera_requests (world st))
                         (enable_changes (world st) ++ [b])
                         (stopped_streams (world st))).
Definition stop_stream (st : State) (s : N) : State :=
  with_world st (mkWorld (console (world st)) (reloads (world st))
                         (camera_requests (world st))
                         (enable_changes (world st))
                         (stopped_streams (world st) ++ [s])).

(** The state the component mounts with, before the landmarker has loaded. *)
Definition mounted_state (v : option Video) (c : option Canvas)
    (oc : option OrbitControls) : State :=
  mkState (mkUi false false (lit "Initializing AI...") None)
          (mkRefs None None true false)
          (mkDom v c false oc)
          (mkWorld [] 0 0 [] []).

(** ** Loading the landmarker *)

(** The effect that creates the hand landmarker, run to its end while the
    component is mounted; [loaded] tells whether the model could be
    fetched. *)
Definition init (st : State) (loaded : bool) : State :=
  let st := setLoading st true in
  let st := setError st None in
  if loaded then
    let st := with_dom st (mkDom (video (dom st)) (canvas (dom st)) true
                                 (controls (dom st))) in
    let st := setStatus st (lit "Ready") in
    setLoading st false
  else
    let st := log st (ConsoleError (lit "MediaPipe Init Error:") []) in
    let st := setStatus st (lit "AI Init Failed") in
    let st := setError st (Some (lit "Could not load AI model.")) in
    setLoading st false.

(** ** Camera on and off *)

(** [stopCamera]. *)
Definition stopCamera (st : State) : State :=
  let st := setEnabled st false in
  let st := onEnableChange st false in
  let st := setStatus st (lit "Ready") in
  let st :=
    match video (dom st) with
    | Some v =>
        match srcObject v with
        | Some stream =>
            set_video (stop_stream st stream)
                      (mkVideo (videoWidth v) (videoHeight v) None)
        | None => st
        end
    | None => st
    end in
  match canvas (dom st) with
  | Some c =>
      if context2d c
      then set_canvas st (draw c [ClearRect (width c) (height c)])
      else st
  | None => st
  end.

(** [if (error)]: the error state is a non-empty string. *)
Definition error_set (st : State) : bool :=
  match error (ui st) with
  | Some e => truthy e
  | None => false
  end.

(** [toggleCamera], run to the end of its [try]/[catch]; [cam] is what
    [getUserMedia] does if it is called. *)
Definition toggleCamera (st : State) (cam : CameraOutcome) : State :=
  if enabled (ui st) then stopCamera st
  else if negb (landmarker (dom st)) then
    (if error_set st then reload st else st)
  else
    let st := setLoading st true in
    let st := setStatus st (lit "Requesting Camera...") in
    let st := request_camera st in
    match cam with
    | Granted stream =>
        match video (dom st) with
        | Some v =>
            set_video st (mkVideo (videoWidth v) (videoHeight v) (Some stream))
        | None => st
        end
    | Denied err =>
        let st := log st (ConsoleError (lit "Camera Error:") err) in
        let st := setStatus st (lit "Camera Denied") in
        let st := setError st (Some (lit "Camera permission denied")) in
        setLoading st false
    end.

(** The [onloadeddata] handler installed by [toggleCamera]; [play] is
    [None] when [video.play()] resolves and the error when it rejects. *)
Definition onloadeddata (st : State) (play : option jsstring) : State :=
  match video (dom st) with
  | Some _ =>
      match play with
      | None =>
          let st := setEnabled st true in
          let st := onEnableChange st true in
          let st := setLoading st false in
          setStatus st (lit "Searching...")
      | Some e =>
          let st := log st (ConsoleError (lit "Play error") e) in
          let st := setError st (Some (lit "Video play failed")) in
          setLoading st false
      end
  | None => st
  end.

(** The button's [disabled] attribute, [loading && !error]. *)
Definition button_disabled (st : State) : bool :=
  loading (ui st) && negb (error_set st).

(** ** One frame of hand tracking *)

Definition distance2d (a b : Landmark) : float :=
  sqrt (JsMath.pow2 (x a - x b) + JsMath.pow2 (y a - y b)).

(** [pinchDist < (handSize * 0.35)]. *)
Definition isPinching (pinchDist handSize : float) : bool :=
  pinchDist <? handSize * 0.35.

(** "DISABLE DAMPING FOR DIRECT CONTROL". *)
Definition take_control (c : OrbitControls) (g : GestureRefs)
  : OrbitControls * GestureRefs :=
  if negb (isControlling g)
  then (set_enableDamping c false,
        mkRefs (lastPinchDist g) (lastCentroid g) (enableDamping c) true)
  else (c, g).

(** "Restore Damping", in the branch without a hand. *)
Definition release_control (c : OrbitControls) (g : GestureRefs)
  : OrbitControls * GestureRefs :=
  if isControlling g
  then (set_enableDamping c (wasDampingEnabled g),
        mkRefs (lastPinchDist g) (lastCentroid g) (wasDampingEnabled g) false)
  else (c, g).

(** The radius after one zoom step by [delta], before it is clamped. *)
Definition rescale (r delta : float) : float :=
  let speed := 4 in
  if JsMath.gt delta 0
  then r * (1 + delta * speed)
  else r / (1 + abs delta * speed).

(** The branch [if (isPinching)], from [normalizedPinch] on. *)
Definition zoom (c : OrbitControls) (g : GestureRefs)
    (pinchDist handSize : float) (spherical : Spherical)
  : Spherical * GestureRefs :=
  let normalizedPinch := pinchDist / handSize in
  let spherical :=
    match lastPinchDist g with
    | Some last =>
        let delta := last - normalizedPinch in
        if JsMath.gt (abs delta) 0.005
        then set_radius spherical
               (JsMath.max (minDistance c)
                  (JsMath.min (maxDistance c) (rescale (radius spherical) delta)))
        else spherical
    | None => spherical
    end in
  (spherical,
   mkRefs (Some normalizedPinch) None (wasDampingEnabled g) (isControlling g)).

(** The [else] branch, from [cx], [cy] on. *)
Definition rotate (g : GestureRefs) (wrist middleKnuckle : Landmark)
    (spherical : Spherical) : Spherical * GestureRefs :=
  let cx := (x wrist + x middleKnuckle) / 2 in
  let cy := (y wrist + y middleKnuckle) / 2 in
  let spherical :=
    match lastCentroid g, lastPinchDist g with
    | Some (lx, ly), None =>
        let dx := cx - lx in
        let dy := cy - ly in
        let rotSpeed := 5 in
        let spherical :=
          if JsMath.gt (abs dx) 0.001
          then set_theta spherical (theta spherical - dx * rotSpeed)
          else spherical in
        if JsMath.gt (abs dy) 0.001
        then set_phi spherical
               (JsMath.max 0.01
                  (JsMath.min (JsMath.PI - 0.01) (phi spherical - dy * rotSpeed)))
        else spherical
    | _, _ => spherical
    end in
  (spherical,
   mkRefs None (Some (cx, cy)) (wasDampingEnabled g) (isControlling g)).

(** The four landmarks the logic reads. *)
Record Hand : Type := mkHand {
  indexTip : Landmark;
  thumbTip : Landmark;
  wrist : Landmark;
  middleKnuckle : Landmark
}.

Definition handSize (h : Hand) : float := distance2d (wrist h) (middleKnuckle h).
Definition pinchDist (h : Hand) : float := distance2d (indexTip h) (thumbTip h).
Definition pinching (h : Hand) : bool := isPinching (pinchDist h) (handSize h).

(** The gesture branches on the spherical coordinates of the camera: the
    coordinates and the refs just before "Apply & Sync". *)
Definition steer (c : OrbitControls) (g : GestureRefs) (h : Hand)
    (spherical : Spherical) : Spherical * GestureRefs :=
  if pinching h
  then zoom c g (pinchDist h) (handSize h) spherical
  else rotate g (wrist h) (middleKnuckle h) spherical.

(** "Apply & Sync". *)
Definition apply_sync (three : Three) (c : OrbitControls) (spherical : Spherical)
  : OrbitControls :=
  let spherical := makeSafe three spherical in
  let offset := setFromSpherical three spherical in
  lookAt_update three (set_position c (v_add (target c) offset)).

(** The spherical coordinates read off the camera at the start of the
    gesture logic. *)
Definition camera_spherical (three : Three) (c : OrbitControls) : Spherical :=
  setFromVector3 three (v_sub (position c) (target c)).

(** How a call of [predictWebcam] ends: normally, or with an uncaught
    [TypeError] (a landmark the logic reads is missing). *)
Inductive Ended : Type :=
| Normal (st : State)
| Uncaught (st : State).

Definition state_of (e : Ended) : State :=
  match e with Normal st | Uncaught st => st end.

(** The block [if (controls) ... else ...] for a detected hand; [cv] is the
    canvas drawn on and [v] the video. *)
Definition act (three : Three) (st : State) (cv : Canvas) (v : Video) (h : Hand)
  : State :=
  match controls (dom st) with
  | Some c =>
      let (c, g) := take_control c (refs st) in
      let spherical := camera_spherical three c in
      let st := setStatus st (if pinching h then lit "ZOOMING" else lit "ROTATING") in
      let st :=
        if pinching h
        then set_canvas st
               (draw cv [Stroke (x (indexTip h) * videoWidth v)
                                (y (indexTip h) * videoHeight v)
                                (x (thumbTip h) * videoWidth v)
                                (y (thumbTip h) * videoHeight v)])
        else st in
      let (spherical, g) := steer c g h spherical in
      set_controls (with_refs st g) (apply_sync three c spherical)
  | None => setStatus st (lit "Searching (No 3D)...")
  end.

(** The branch "No Hand Detected". *)
Definition no_hand (st : State) : State :=
  let st := setStatus st (lit "Searching...") in
  let g := mkRefs None None (wasDampingEnabled (refs st)) (isControlling (refs st)) in
  match controls (dom st) with
  | Some c =>
      let (c, g) := release_control c g in
      set_controls (with_refs st g) c
  | None => with_refs st g
  end.

(** The guards and "A. Sync Canvas Size": [None] when [predictWebcam]
    returns before detecting, else the state, the canvas and the video it
    detects with. *)
Definition sync_canvas (st : State) : option (State * Canvas * Video) :=
  match video (dom st), canvas (dom st), landmarker (dom st) with
  | Some v, Some cv, true =>
      if (videoWidth v =? 0) || (videoHeight v =? 0) then None
      else if negb (width cv =? videoWidth v) || negb (height cv =? videoHeight v)
      then let cv := resize cv (videoWidth v) (videoHeight v) in
           Some (set_canvas st cv, cv, v)
      else Some (st, cv, v)
  | _, _, _ => None
  end.

(** "C. Visualize & Act", once the 2D context is there. *)
Definition visualize_act (three : Three) (st : State) (cv : Canvas) (v : Video)
    (result : HandLandmarkerResult) : Ended :=
  let cv := draw cv [ClearRect (videoWidth v) (videoHeight v)] in
  let st := set_canvas st cv in
  match landmarks result with
  | lms :: _ =>
      let cv :=
        draw cv (map (fun lm => Dot (x lm * videoWidth v) (y lm * videoHeight v))
                     lms) in
      let st := set_canvas st cv in
      match nth_error lms 8, nth_error lms 4, nth_error lms 0, nth_error lms 9 with
      | Some i, Some t, Some w, Some m => Normal (act three st cv v (mkHand i t w m))
      | _, _, _, _ => Uncaught st
      end
  | [] => Normal (no_hand st)
  end.

(** [predictWebcam]; [detect] is what [detectForVideo] does on this frame if
    it is called. *)
Definition predictWebcam (three : Three) (st : State) (detect : Detection)
  : Ended :=
  match sync_canvas st with
  | None => Normal st
  | Some (st, cv, v) =>
      match detect with
      | DetectThrows e => Normal (log st (ConsoleWarn (lit "Detection error") e))
      | Detected result =>
          if negb (context2d cv) then Normal st
          else visualize_act three st cv v result
      end
  end.

(** ** Sample states and hands *)

(** A default [OrbitControls] (distance limits [0] and [Infinity], as the
    visualizer leaves them) with the camera five units in front of the
    target. *)
Definition controls0 : OrbitControls :=
  mkControls true (mkVector3 0 0 5) (mkVector3 0 0 0) 0 infinity.

(** A mounted component with video, canvas and controls, the landmarker
    loaded. *)
Definition ready_state : State :=
  init (mounted_state (Some (mkVideo 640 480 None))
                      (Some (mkCanvas 300 150 true []))
                      (Some controls0))
       true.

(** An open hand whose wrist-knuckle centre is at (0.5, 0.5). *)
Definition open_hand : Hand :=
  mkHand (mkLandmark 0.3 0.3 0) (mkLandmark 0.7 0.3 0)
         (mkLandmark 0.5 0.6 0) (mkLandmark 0.5 0.4 0).

(** The same hand with the index tip next to the thumb tip. *)
Definition pinched_hand : Hand :=
  mkHand (mkLandmark 0.5 0.5 0) (mkLandmark 0.52 0.5 0)
         (mkLandmark 0.5 0.6 0) (mkLandmark 0.5 0.4 0).

(** A landmark array of the 21 entries the landmarker gives, holding the
    hand at the indices the logic reads (0 wrist, 4 thumb tip, 8 index tip,
    9 middle knuckle) and the wrist elsewhere. *)
Definition hand_landmarks (h : Hand) : list Landmark :=
  let o := wrist h in
  [ wrist h; o; o; o; thumbTip h; o; o; o; indexTip h; middleKnuckle h;
    o; o; o; o; o; o; o; o; o; o; o ].

End Gesture.

(* ================================================================== *)
(** * Regular expressions, as far as [highlightNumbers] needs them *)

Module Regex.
Import Js.

(** Patterns: literal text, [\d+], [\d*], [r?], sequence, alternation.  The
    quantifiers are greedy. *)
Inductive regex : Type :=
| Lit (s : jsstring)
| Digits1
| Digits0
| Opt (r : regex)
| Seq (a b : regex)
| Alt (a b : regex).

(** [\d]: the code units of 0..9. *)
Definition is_digit (c : code_unit) : bool := ((48 <=? c) && (c <=? 57))%N.

(** The ways [\d*] can match at the start of [t], as the texts left over,
    longest match first. *)
Fixpoint digits0 (t : jsstring) : list jsstring :=
  match t with
  | [] => [t]
  | c :: t' => if is_digit c then digits0 t' ++ [t] else [t]
  end.

(** The ways [r] can match at the start of [t], as the texts left over, in
    the order a backtracking matcher tries them. *)
Fixpoint ends (r : regex) (t : jsstring) : list jsstring :=
  match r with
  | Lit s => if is_prefix s t then [skipn (length s) t] else []
  | Digits1 =>
      match t with
      | c :: t' => if is_digit c then digits0 t' else []
      | [] => []
      end
  | Digits0 => digits0 t
  | Opt a => ends a t ++ [t]
  | Seq a b => flat_map (ends b) (ends a t)
  | Alt a b => ends a t ++ ends b t
  end.

(** The match of [r] at the start of [t]: the matched text and the rest. *)
Definition match_here (r : regex) (t : jsstring) : option (jsstring * jsstring) :=
  match ends r t with
  | rest :: _ => Some (firstn (length t - length rest) t, rest)
  | [] => None
  end.

(** The leftmost match of [r] in [t]: the text before it, the matched
    text, the rest. *)
Fixpoint find_match (r : regex) (t : jsstring)
  : option (jsstring * jsstring * jsstring) :=
  match match_here r t with
  | Some (m, rest) => Some ([], m, rest)
  | None =>
      match t with
      | [] => None
      | c :: t' =>
          match find_match r t' with
          | Some (b, m, rest) => Some (c :: b, m, rest)
          | None => None
          end
      end
  end.

(** [t.split(/(r)/)] with the whole pattern in one capturing group, for a
    pattern that matches no empty text: the pieces between the matches,
    with the captured matches in between.  Each match is non-empty, so
    [S (length t)] rounds suffice. *)
Fixpoint split_re_fuel (fuel : nat) (r : regex) (t : jsstring) : list jsstring :=
  match fuel with
  | O => [t]
  | S fuel' =>
      match find_match r t with
      | Some (b, m, rest) => b :: m :: split_re_fuel fuel' r rest
      | None => [t]
      end
  end.

Definition split_re (t : jsstring) (r : regex) : list jsstring :=
  split_re_fuel (S (length t)) r t.

(** [t.match(/r/g)] for such a pattern: all matches from left to right, or
    [None] ([null]) when there is none. *)
Fixpoint matches_fuel (fuel : nat) (r : regex) (t : jsstring) : list jsstring :=
  match fuel with
  | O => []
  | S fuel' =>
      match find_match r t with
      | Some (_, m, rest) => m :: matches_fuel fuel' r rest
      | None => []
      end
  end.

Definition match_g (t : jsstring) (r : regex) : option (list jsstring) :=
  match matches_fuel (S (length t)) r t with
  | [] => None
  | ms => Some ms
  end.

(** [t.match(/\d/)] is not [null]. *)
Definition has_digit (t : jsstring) : bool := existsb is_digit t.

(** The texts a pattern stands for. *)
Inductive lang : regex -> jsstring -> Prop :=
| lang_lit s : lang (Lit s) s
| lang_digits1 m : m <> [] -> forallb is_digit m = true -> lang Digits1 m
| lang_digits0 m : forallb is_digit m = true -> lang Digits0 m
| lang_opt_some r m : lang r m -> lang (Opt r) m
| lang_opt_none r : lang (Opt r) []
| lang_seq a b m1 m2 : lang a m1 -> lang b m2 -> lang (Seq a b) (m1 ++ m2)
| lang_alt_l a b m : lang a m -> lang (Alt a b) m
| lang_alt_r a b m : lang b m -> lang (Alt a b) m.

(** A pattern every text of which holds a digit, by its shape. *)
Fixpoint needs_digit (r : regex) : bool :=
  match r with
  | Lit s => has_digit s
  | Digits1 => true
  | Digits0 => false
  | Opt _ => false
  | Seq a b => needs_digit a || needs_digit b
  | Alt a b => needs_digit a && needs_digit b
  end.

(** A pattern that matches wherever a digit stands. *)
Definition matches_at_digits (r : regex) : Prop :=
  forall c t, is_digit c = true -> ends r (c :: t) <> [].

End Regex.

(* ================================================================== *)
(** * The findings display ([components/GeminiAnalysisDisplay.tsx]) *)

Module Findings.
Import Js Regex.

Inductive Icon : Type := Activity | TrendingDown | Zap | Wind.

(** One display entry. *)
Record Finding : Type := mkFinding {
  title : jsstring;
  body : jsstring;
  icon : Icon;
  color : jsstring;
  bg : jsstring;
  border : jsstring
}.

(** The entry for a title and a body: the icon and colours follow the
    keywords in the title. *)
Definition finding (title body : jsstring) : Finding :=
  if includes title (lit "Volume") || includes title (lit "Restrictive") then
    mkFinding title body TrendingDown
      (lit "text-rose-400") (lit "bg-rose-500/10") (lit "border-rose-500/20")
  else if includes title (lit "Stiffness") then
    mkFinding title body Zap
      (lit "text-amber-400") (lit "bg-amber-500/10") (lit "border-amber-500/20")
  else if includes title (lit "Airway") || includes title (lit "Architectural") then
    mkFinding title body Wind
      (lit "text-emerald-400") (lit "bg-emerald-500/10") (lit "border-emerald-500/20")
  else
    mkFinding title body Activity
      (lit "text-cyan-400") (lit "bg-cyan-500/10") (lit "border-cyan-500/20").

(** The callback of [rawItems.map]; [None] is [null]. *)
Definition parseItem (item : jsstring) : option Finding :=
  match split item (lit ":**") with
  | p0 :: p1 :: _ => Some (finding (trim p0) (trim p1))
  | _ => None
  end.

(** [.filter(Boolean)] on entries that are objects or [null]. *)
Fixpoint filter_Boolean {A : Type} (l : list (option A)) : list A :=
  match l with
  | [] => []
  | Some a :: l' => a :: filter_Boolean l'
  | None :: l' => filter_Boolean l'
  end.

Definition parseFindings (text : jsstring) : list Finding :=
  let rawItems :=
    filter (fun item => 0 <? length (trim item)) (split text (lit "* **")) in
  filter_Boolean (map parseItem rawItems).

(** A segment, as title and body, and the text of a list of segments. *)
Definition segment_text (s : jsstring * jsstring) : jsstring :=
  lit "* **" ++ fst s ++ lit ":**" ++ snd s.

Definition segments_text (segs : list (jsstring * jsstring)) : jsstring :=
  concat (map segment_text segs).

(** The text of a segment between its bullet marker and the next one. *)
Definition item_text (s : jsstring * jsstring) : jsstring :=
  fst s ++ lit ":**" ++ snd s.

(** A segment is well formed when its markers can be told from its text:
    the closing marker [:**] occurs neither in the title nor in the body,
    and the bullet marker [* **] begins nowhere in title, closing marker and
    body, also not across the end of the body into a marker that follows
    (of which [* *] is all that can take part). *)
Definition well_formed (s : jsstring * jsstring) : bool :=
  negb (includes (fst s) (lit ":**"))
  && negb (includes (snd s) (lit ":**"))
  && negb (includes (fst s ++ lit ":**" ++ snd s ++ lit "* *") (lit "* **")).

(** The pattern of [highlightNumbers]: one capturing group around the
    alternatives [\d+\.?\d*%], [\d+\.?\d* mL], [from \d+\.?\d* to \d+\.?\d*]
    and [\d+\.?\d*], tried in this order, with the flag [g]. *)
Definition number : regex := Seq Digits1 (Seq (Opt (Lit (lit "."))) Digits0).

Definition metric : regex :=
  Alt (Seq number (Lit (lit "%")))
      (Alt (Seq number (Lit (lit " mL")))
           (Alt (Seq (Lit (lit "from ")) (Seq number (Seq (Lit (lit " to ")) number)))
                number)).

(** What React is given to render: a string, or a highlighted span with
    its key. *)
Inductive Node : Type :=
| Text (s : jsstring)
| Span (key : nat) (s : jsstring).

Definition node_text (n : Node) : jsstring :=
  match n with Text s | Span _ s => s end.

(** The texts of the highlighted spans, in order. *)
Definition spans (ns : list Node) : list jsstring :=
  flat_map (fun n => match n with Span _ s => [s] | Text _ => [] end) ns.

(** The result of [highlightNumbers]: the text itself, an array of nodes,
    or a [TypeError] (reading [.match] of a missing array element). *)
Inductive Rendering : Type :=
| Unchanged (text : jsstring)
| Nodes (ns : list Node)
| TypeError.

(** The callback of [parts.map], run over the parts from index [i] on with
    the counter [matchIndex]; [None] when it throws. *)
Fixpoint render_parts (ms : list jsstring) (i matchIndex : nat)
    (parts : list jsstring) : option (list Node) :=
  match parts with
  | [] => Some []
  | part :: parts' =>
      if Nat.eqb (i mod 2) 1 then
        match nth_error ms matchIndex with
        | Some m =>
            match render_parts ms (S i) (S matchIndex) parts' with
            | Some ns => Some ((if has_digit m then Span i m else Text m) :: ns)
            | None => None
            end
        | None => None
        end
      else
        match render_parts ms (S i) matchIndex parts' with
        | Some ns => Some (Text part :: ns)
        | None => None
        end
  end.

(** The nodes read off the leftmost matches directly: plain text up to a
    match, the match as a span (plain if it held no digit), and so on in the
    rest; [i] is the index of the first node. *)
Fixpoint nodes_fuel (fuel : nat) (r : regex) (t : jsstring) (i : nat)
  : list Node :=
  match fuel with
  | O => [Text t]
  | S fuel' =>
      match find_match r t with
      | Some (b, m, rest) =>
          Text b :: (if has_digit m then Span (S i) m else Text m)
                 :: nodes_fuel fuel' r rest (S (S i))
      | None => [Text t]
      end
  end.

(** A node is as it should be: a span holds a text of the pattern, and
    plain text holds no digit (so no text of the pattern either). *)
Definition node_ok (r : regex) (n : Node) : Prop :=
  match n with
  | Span _ m => lang r m
  | Text p => has_digit p = false
  end.

Definition highlightNumbers (text : jsstring) : Rendering :=
  let parts := split_re text metric in
  match match_g text metric with
  | None => Unchanged text
  | Some ms =>
      match render_parts ms 0 0 parts with
      | Some ns => Nodes ns
      | None => TypeError
      end
  end.

End Findings.

(* ================================================================== *)
(** * What a scan with the pattern of [highlightNumbers] finds

    The matches of the pattern said without the matcher: where a match
    begins, of which kind it is and how far it goes. *)

Module Leftmost.
Import Js Regex Findings.

(** The four alternatives of the pattern, in the order it tries them. *)
Definition percentage : regex := Seq number (Lit (lit "%")).
Definition millilitres : regex := Seq number (Lit (lit " mL")).
Definition range : regex :=
  Seq (Lit (lit "from ")) (Seq number (Seq (Lit (lit " to ")) number)).

Definition kinds : list regex := [percentage; millilitres; range; number].

(** [m] is a text of [r] and [t] begins with it. *)
Definition begins (r : regex) (t m : jsstring) : Prop :=
  lang r m /\ exists rest, t = m ++ rest.

Definition none_begins (r : regex) (t : jsstring) : Prop :=
  forall m, ~ begins r t m.

(** [m] is the match at the start of [t]: of the first kind of which some
    text begins [t], the longest text that does. *)
Definition first_longest (t m : jsstring) : Prop :=
  exists before k after,
    kinds = before ++ k :: after
    /\ Forall (fun r => none_begins r t) before
    /\ begins k t m
    /\ forall m', begins k t m' -> length m' <= length m.

(** No text of the pattern begins at a position of [b], when [rest]
    follows [b]. *)
Definition unmatched (b rest : jsstring) : Prop :=
  forall b1 b2, b = b1 ++ b2 -> b2 <> [] -> none_begins metric (b2 ++ rest).

(** The fragments of a scan of [t] from left to right, the first with
    index [i]: plain text in which no match begins, then the match at the
    first position where one begins, as a span keyed by its index, and so on
    in what follows the match. *)
Inductive scanned : nat -> jsstring -> list Node -> Prop :=
| scanned_end i t :
    unmatched t [] -> scanned i t [Text t]
| scanned_match i t b m rest ns :
    t = b ++ m ++ rest ->
    unmatched b (m ++ rest) ->
    first_longest (m ++ rest) m ->
    scanned (S (S i)) rest ns ->
    scanned i t (Text b :: Span (S i) m :: ns).

(** A code unit a decimal number is written with. *)
Definition number_unit (c : code_unit) : bool := is_digit c || (c =? 46)%N.

End Leftmost.

(* ================================================================== *)
(** * The layer toggles of [App] *)

Module App.
Import Layers.

(** The keys of the rows of [LayerToggles], in the order shown. *)
Definition LAYER_TOGGLES : list LayerKey :=
  [ KLeftLung; KRightLung; KBronchi; KAlveoli; KVasculature; KPleura;
    KFibrosisMap; KAirflow ].

(** The rows clicked one after another: each click calls [toggleLayer]
    with the key of its row. *)
Definition clicks (l : VisualizationLayers) (ks : list LayerKey)
  : VisualizationLayers :=
  fold_left (fun l k => toggleLayer k l) ks l.

End App.

(* ================================================================== *)
(** * The learning guide ([components/LearningGuide.tsx]) *)

Module Guide.
Import Js Layers.

(** The keys a step may set: the layer flags, and [pathology], which the
    steps name although [VisualizationLayers] has no such field. *)
Inductive GuideKey : Type :=
| Layer (k : LayerKey)
| Pathology.

(** [interface LearningStep]; [requiredLayers] lists the properties of the
    object literal in the order written. *)
Record LearningStep : Type := mkStep {
  id : jsstring;
  title : jsstring;
  description : jsstring;
  prompt : jsstring;
  actionLabel : jsstring;
  requiredLayers : list (GuideKey * bool)
}.

Definition STEPS : list LearningStep :=
  [ mkStep (lit "intro")
      (lit "Anatomy Overview")
      (lit "Welcome to the Learning Mode. We are looking at a 3D reconstruction of the patient's lungs. Currently, you can see the outer pleural surface and the division of lobes.")
      (lit "The patient has significant volume loss. Would you like to inspect the internal airway structure?")
      (lit "Reveal Airways")
      [ (Layer KLeftLung, true);
        (Layer KRightLung, true);
        (Layer KLobes, true);
        (Layer KPleura, true);
        (Layer KBronchi, false);
        (Layer KAirflow, false);
        (Layer KFibrosisMap, false);
        (Pathology, false) ];
    mkStep (lit "airways")
      (lit "Bronchial Tree")
      (lit "You are now viewing the bronchial tree. These tubes carry air from the trachea deep into the lungs. Notice the narrowing in the distal branches.")
      (lit "Airflow seems restricted. Shall we visualize how air actually moves through these tubes?")
      (lit "Visualize Airflow")
      [ (Layer KLeftLung, false);
        (Layer KRightLung, false);
        (Layer KLobes, false);
        (Layer KBronchi, true);
        (Layer KBronchioles, true);
        (Layer KAirflow, false) ];
    mkStep (lit "airflow")
      (lit "Airflow & Trapping")
      (lit "The cyan particles represent oxygen flow. In this patient, we detect " ++ [34%N] ++ lit "Air Trapping" ++ [34%N] ++ lit " of 18%. This means air gets in but struggles to leave due to collapsed small airways.")
      (lit "This obstruction often leads to tissue damage. Would you like to see the detected emphysematous bullae?")
      (lit "Show Pathology")
      [ (Layer KAirflow, true);
        (Layer KBronchi, true);
        (Layer KBronchioles, false) ];
    mkStep (lit "pathology")
      (lit "Detected Pathology")
      (lit "Highlighted in orange is a large Emphysematous Bulla in the upper left lobe. This is a pocket of damaged tissue that no longer exchanges gases effectively.")
      (lit "This correlates with the " ++ [34%N] ++ lit "Stiffness Index" ++ [34%N] ++ lit " increase. Learn how this affects overall lung function?")
      (lit "Finish Summary")
      [ (Layer KAirflow, false);
        (Layer KBronchi, false);
        (Layer KLeftLung, true);
        (Layer KRightLung, true);
        (Layer KFibrosisMap, true);
        (Pathology, true) ] ].

(** The layers object as it is at run time: the declared flags, and the
    property [pathology] once a step has put it there. *)
Record GuideLayers : Type := mkGuideLayers {
  flags : VisualizationLayers;
  pathology : option bool
}.

(** One property of the spread assigned. *)
Definition assign (l : GuideLayers) (kv : GuideKey * bool) : GuideLayers :=
  match fst kv with
  | Layer k => mkGuideLayers (spread_with (flags l) k (snd kv)) (pathology l)
  | Pathology => mkGuideLayers (flags l) (Some (snd kv))
  end.

(** [{ ...prev, ...step.requiredLayers }]. *)
Definition merge (prev : GuideLayers) (required : list (GuideKey * bool))
  : GuideLayers :=
  fold_left assign required prev.

(** The component: the index of the current step, and how often [onExit]
    has been called. *)
Record State : Type := mkState {
  currentStepIndex : nat;
  exits : nat
}.

Definition initial_state : State := mkState 0 0.

(** [handleNext]. *)
Definition handleNext (g : State) : State :=
  if currentStepIndex g <? length STEPS - 1
  then mkState (currentStepIndex g + 1) (exits g)
  else mkState (currentStepIndex g) (S (exits g)).

(** The effect on [currentStepIndex]: the layers updater handed to
    [onLayerUpdate], applied to the layers; [None] when
    [STEPS[currentStepIndex]] is [undefined] and reading [requiredLayers]
    throws. *)
Definition layer_effect (g : State) (prev : GuideLayers) : option GuideLayers :=
  match nth_error STEPS (currentStepIndex g) with
  | Some step => Some (merge prev (requiredLayers step))
  | None => None
  end.

(** [n] clicks on the next-step card. *)
Definition nexts (n : nat) (g : State) : State := Nat.iter n handleNext g.

(** The guide together with the layers it updates.  The effect runs when
    the component mounts and after every change of [currentStepIndex]. *)
Definition mount (prev : GuideLayers) : option (State * GuideLayers) :=
  option_map (pair initial_state) (layer_effect initial_state prev).

Definition next_with_effect (gl : State * GuideLayers)
  : option (State * GuideLayers) :=
  let g' := handleNext (fst gl) in
  if Nat.eqb (currentStepIndex g') (currentStepIndex (fst gl))
  then Some (g', snd gl)
  else option_map (pair g') (layer_effect g' (snd gl)).

(** Mounting and then [n] clicks on the next-step card. *)
Fixpoint walk (n : nat) (prev : GuideLayers) : option (State * GuideLayers) :=
  match n with
  | O => mount prev
  | S n' =>
      match walk n' prev with
      | Some gl => next_with_effect gl
      | None => None
      end
  end.

End Guide.

(* ================================================================== *)
(** * The scan animation ([components/AnalysisScreen.tsx]) *)

Module Scan.
Import Js.

(** The updater of [setScanPosition]; the position starts at 0 and stays a
    small whole number, on which the arithmetic of numbers is exact. *)
Definition scan_tick (prev : N) : N := ((prev + 1) mod 100)%N.

Record Spot : Type := mkSpot {
  id : N;
  x : float;
  y : float;
  label : jsstring
}.

(** [l.slice(-3)]: the last three elements, or all of a shorter array. *)
Definition slice_last3 {A : Type} (l : list A) : list A :=
  skipn (length l - 3) l.

(** The updater of [setDetections] in the spawn interval:
    [[...prev.slice(-3), newDetection]]. *)
Definition add_detection (prev : list Spot) (newDetection : Spot) : list Spot :=
  slice_last3 prev ++ [newDetection].

(** The spawn interval's callback; [r] is what [Math.random()] gives for
    the test and [d] the detection it would make. *)
Definition spawn (prev : list Spot) (r : float) (d : Spot) : list Spot :=
  if JsMath.gt r 0.7 then add_detection prev d else prev.

(** The detection set by the identification phase. *)
Definition IDENTIFIED : Spot := mkSpot 999 35 55 (lit "Bullous Emphysema").

End Scan.

(* ================================================================== *)
(** * The chat widget over several messages *)

Module ChatLog.
Import Js Chat.

(** What happens to the widget: [handleSend] is called, or a timer it
    scheduled fires with the text it captured. *)
Inductive Event : Type :=
| Send (now : N) (text : jsstring)
| Timeout (now : N) (text : jsstring).

Definition step (st : State) (e : Event) : State :=
  match e with
  | Send now text => fst (handleSend now text st)
  | Timeout now text => onTimeout now text st
  end.

Definition run (st : State) (es : list Event) : State := fold_left step es st.

End ChatLog.

(* ================================================================== *)
(** * What [GeminiAnalysisDisplay] shows *)

Module Display.
Import Js Findings.

(** The scrollable area: one card per finding, its body highlighted, and
    the raw text instead when there is no finding ([findings.length === 0]). *)
Record View : Type := mkView {
  cards : list (Finding * Rendering);
  raw : option jsstring
}.

Definition render (analysis : jsstring) : View :=
  let findings := parseFindings analysis in
  mkView (map (fun item => (item, highlightNumbers (body item))) findings)
         (if Nat.eqb (length findings) 0 then Some analysis else None).

End Display.

(* ================================================================== *)
(** * The analysis panel ([components/AnalysisPanel.tsx]) *)

Module Panel.
Import Js Gemini.

Inductive AnalysisStatus : Type := pending | processing | completed.

(** [interface TimePoint]. *)
Record TimePoint : Type := mkTimePoint {
  id : jsstring;
  date : jsstring;
  label : jsstring;
  metrics : LungMetrics;
  scanImage : jsstring;
  analysisStatus : AnalysisStatus
}.

(** The state [analysis], [loading] and the refs [prevPointIdRef],
    [prevModeRef]. *)
Record State : Type := mkState {
  analysis : jsstring;
  loading : bool;
  prevPointId : option jsstring;
  prevMode : option ViewMode
}.

Definition initial_state : State := mkState [] false None None.

(** [prevPointIdRef.current === currentPoint.id && prevModeRef.current === viewMode]. *)
Definition unchanged (p : State) (currentPoint : TimePoint) (viewMode : ViewMode)
  : bool :=
  match prevPointId p, prevMode p with
  | Some i, Some m => eqb i (id currentPoint) && ViewMode_eqb m viewMode
  | _, _ => false
  end.

Section Effect.

Variable API_KEY : option jsstring.
Variable service : Request -> Outcome.
Variable number_toString : float -> jsstring.

(** The effect on [currentPoint.id] and [viewMode], with [fetchAnalysis]
    run to its end: the state it leaves and the events it caused. *)
Definition fetch_effect (p : State) (currentPoint baselinePoint : TimePoint)
    (viewMode : ViewMode) : State * list Event :=
  if unchanged p currentPoint viewMode then (p, [])
  else
    match analyzeLungProgression API_KEY service number_toString
            (metrics currentPoint) (metrics baselinePoint) viewMode with
    | (Returns result, events) =>
        (mkState result false (Some (id currentPoint)) (Some viewMode), events)
    | (Throws err, events) =>
        (mkState (lit "Unable to load analysis.") false
                 (Some (id currentPoint)) (Some viewMode),
         events ++ [ConsoleError err []])
    end.

End Effect.

(** Metrics with other lobe volumes. *)
Definition with_lobes (m : LungMetrics) (lv : LobeVolumes) : LungMetrics :=
  mkLungMetrics (totalVolume m) (expansionRatio m) (stiffnessIndex m)
                (airTrapping m) lv.

(** The requests among some events. *)
Definition requests (events : list Event) : list Request :=
  flat_map (fun e => match e with Requested r => [r] | ConsoleError _ _ => [] end)
           events.

End Panel.

(* ================================================================== *)
(** * The control loop of the hand-gesture controller *)

Module GestureLoop.
Import Js Gesture.

(** The [else] branch of the effect on [enabled], run when hand control
    goes off: "Restore damping if we disabled it". *)
Definition on_disabled (st : State) : State :=
  match controls (dom st) with
  | Some c =>
      let (c, g) := release_control c (refs st) in
      set_controls (with_refs st g) c
  | None => st
  end.

(** Frames processed one after another while the controller is given the
    same controls object, which nothing else writes in between; a frame that
    ends in an uncaught error leaves the state it reached.  [play], below,
    lets the controls change between frames. *)
Definition frames (three : Three) (st : State) (ds : list Detection) : State :=
  fold_left (fun st d => state_of (predictWebcam three st d)) ds st.

(** At most one of the two gesture references is set. *)
Definition exclusive (g : GestureRefs) : bool :=
  match lastPinchDist g, lastCentroid g with
  | Some _, Some _ => false
  | _, _ => true
  end.

(** What a turn of [loop] finds: the clock, the video element's
    [readyState] and [paused], and what detection would do. *)
Record Tick : Type := mkTick {
  now : Z;
  readyState : N;
  paused : bool;
  detect : Detection
}.

(** The loop: the component, [lastPredictionTimeRef], whether the next
    animation frame is requested, and the times at which [predictWebcam] was
    called. *)
Record Loop : Type := mkLoop {
  comp : State;
  lastPredictionTime : Z;
  running : bool;
  predicted_at : list Z
}.

(** The loop as the effect starts it. *)
Definition start (st : State) : Loop := mkLoop st 0 true [].

(** One turn of [loop].  [requestAnimationFrame(loop)] comes after
    [predictWebcam()], so an uncaught error there ends the loop. *)
Definition turn (three : Three) (lp : Loop) (t : Tick) : Loop :=
  if negb (running lp) then lp
  else if (30 <=? now t - lastPredictionTime lp)%Z then
    match video (dom (comp lp)) with
    | Some _ =>
        if (2 <=? readyState t)%N && landmarker (dom (comp lp)) && negb (paused t)
        then
          match predictWebcam three (comp lp) (detect t) with
          | Normal st => mkLoop st (now t) true (predicted_at lp ++ [now t])
          | Uncaught st => mkLoop st (now t) false (predicted_at lp ++ [now t])
          end
        else lp
    | None => lp
    end
  else lp.

Definition turns (three : Three) (lp : Loop) (ts : list Tick) : Loop :=
  fold_left (turn three) ts lp.

(** Each time is at least 30 ms after the one before, the first after
    [last]. *)
Fixpoint spaced (last : Z) (times : list Z) : Prop :=
  match times with
  | [] => True
  | t :: times' => (last + 30 <= t)%Z /\ spaced t times'
  end.

(** What can happen to the mounted component: the button is clicked (with
    what [getUserMedia] would do), the video's [onloadeddata] fires (with what
    [play()] does), the loop processes a frame, or the effect on [enabled]
    runs its [else] branch. *)
Inductive Action : Type :=
| Click (cam : CameraOutcome)
| Loaded (play : option jsstring)
| Frame (d : Detection)
| EnabledOff.

Definition perform (three : Three) (st : State) (a : Action) : State :=
  match a with
  | Click cam => toggleCamera st cam
  | Loaded play => onloadeddata st play
  | Frame d => state_of (predictWebcam three st d)
  | EnabledOff => on_disabled st
  end.

Definition session (three : Three) (st : State) (acts : list Action) : State :=
  fold_left (perform three) acts st.

(** The last value the parent was given through [onEnableChange]; [false],
    the parent's initial state, when there was none. *)
Definition parent_enabled (st : State) : bool :=
  last (enable_changes (world st)) false.

(** What [predictWebcam] leaves alone: the React state other than [status],
    the video and the landmarker, the page, the camera and the parent;
    whether there are a canvas and controls, and the canvas's 2D context. *)
Definition untouched (st st' : State) : Prop :=
  enabled (ui st') = enabled (ui st)
  /\ loading (ui st') = loading (ui st)
  /\ error (ui st') = error (ui st)
  /\ video (dom st') = video (dom st)
  /\ landmarker (dom st') = landmarker (dom st)
  /\ reloads (world st') = reloads (world st)
  /\ camera_requests (world st') = camera_requests (world st)
  /\ enable_changes (world st') = enable_changes (world st)
  /\ stopped_streams (world st') = stopped_streams (world st)
  /\ match canvas (dom st), canvas (dom st') with
     | Some a, Some b => context2d b = context2d a
     | None, None => True
     | _, _ => False
     end
  /\ match controls (dom st), controls (dom st') with
     | Some _, Some _ | None, None => True
     | _, _ => False
     end.

(** The damping the user has set: the controls' flag, or the saved flag
    while a hand steers. *)
Definition damping_setting (st : State) : option bool :=
  match controls (dom st) with
  | Some c =>
      Some (if isControlling (refs st) then wasDampingEnabled (refs st)
            else enableDamping c)
  | None => None
  end.

(** [predictWebcam] gets as far as "C. Visualize & Act" on this state. *)
Definition processing (st : State) : bool :=
  match sync_canvas st with
  | Some (_, cv, _) => context2d cv
  | None => false
  end.

(** The centre between wrist and middle knuckle, [cx] and [cy]. *)
Definition centroid (h : Hand) : float * float :=
  ((x (wrist h) + x (middleKnuckle h)) / 2,
   (y (wrist h) + y (middleKnuckle h)) / 2)%float.

(** Every hand is open and its centre is within the dead zone of 0.001,
    on both axes, of the centre before it, the first of [ref]. *)
Fixpoint drifting (ref : float * float) (hs : list Hand) : bool :=
  match hs with
  | [] => true
  | h :: hs' =>
      negb (pinching h)
      && negb (JsMath.gt (abs (fst (centroid h) - fst ref)) 0.001)
      && negb (JsMath.gt (abs (snd (centroid h) - snd ref)) 0.001)
      && drifting (centroid h) hs'
  end.

(** The frame in which the landmarker finds the hand [h]. *)
Definition hand_frame (h : Hand) : Detection :=
  Detected (mkResult [hand_landmarks h]).

(** "Apply & Sync" on the coordinates just read off the camera. *)
Definition resync (three : Three) (c : OrbitControls) : OrbitControls :=
  apply_sync three c (camera_spherical three c).

(** ** The two visualizers

    [App] keeps two visualizers mounted, each with controls of its own in
    [normalControlsRef] and [fullScreenControlsRef], and gives the controller
    the ref of the one in view; the controller reads the ref it was last
    given anew on every frame.  [dom]'s [controls] stands for what that ref
    holds, [hidden] for what the other one holds. *)
Record Views : Type := mkViews {
  view : State;
  hidden : option OrbitControls
}.

(** The controls the visualizer's scene effect makes: [new OrbitControls]
    with the camera at (0, 0, 18), then [enableDamping = true]. *)
Definition fresh_controls : OrbitControls :=
  mkControls true (mkVector3 0 0 18) (mkVector3 0 0 0) 0 infinity.

(** What happens between and on frames: the loop processes a frame; the
    effect on [enabled] runs its [else] branch; the visualizer in view moves
    its camera or its target (the mouse, or [controls.update()] in its render
    loop); [isFullscreen] changes, so that the controller is given the other
    ref; the visualizer in view runs its scene effect again (its active
    label changed) and stores fresh controls in its ref. *)
Inductive Step : Type :=
| Shot (d : Detection)
| SwitchedOff
| Moved (position target : Vector3)
| ViewSwitched
| SceneRebuilt.

Definition move (p t : Vector3) (c : OrbitControls) : OrbitControls :=
  mkControls (enableDamping c) p t (minDistance c) (maxDistance c).

Definition switch_view (vs : Views) : Views :=
  mkViews (with_dom (view vs)
             (mkDom (video (dom (view vs))) (canvas (dom (view vs)))
                    (landmarker (dom (view vs))) (hidden vs)))
          (controls (dom (view vs))).

Definition views_step (three : Three) (vs : Views) (s : Step) : Views :=
  match s with
  | Shot d => mkViews (state_of (predictWebcam three (view vs) d)) (hidden vs)
  | SwitchedOff => mkViews (on_disabled (view vs)) (hidden vs)
  | Moved p t =>
      mkViews (with_dom (view vs)
                 (mkDom (video (dom (view vs))) (canvas (dom (view vs)))
                        (landmarker (dom (view vs)))
                        (option_map (move p t) (controls (dom (view vs))))))
              (hidden vs)
  | ViewSwitched => switch_view vs
  | SceneRebuilt => mkViews (set_controls (view vs) fresh_controls) (hidden vs)
  end.

Definition play (three : Three) (vs : Views) (ss : list Step) : Views :=
  fold_left (views_step three) ss vs.

(** The steps that leave the controller with the controls object it
    had. *)
Definition same_controls (s : Step) : bool :=
  match s with
  | Shot _ | SwitchedOff | Moved _ _ => true
  | ViewSwitched | SceneRebuilt => false
  end.

End GestureLoop.

(* ================================================================== *)
(** * Properties *)

(** ** Visibility layers *)

Module LayersFacts.
Import Layers.

Lemma get_spread_same (l : VisualizationLayers) (k : LayerKey) (v : bool) :
  get k (spread_with l k v) = v.
Proof. destruct k; reflexivity. Qed.

Lemma get_spread_other (l : VisualizationLayers) (k k' : LayerKey) (v : bool) :
  k' <> k -> get k' (spread_with l k v) = get k' l.
Proof. intros Hne; destruct k, k'; try reflexivity; now contradiction Hne. Qed.

(** C9. For every layer state and every key, [toggleLayer key] negates the
    flag at [key] and leaves the flag at every other key as it was. *)
Theorem toggleLayer_flips_only_key (l : VisualizationLayers) (key : LayerKey) :
  get key (toggleLayer key l) = negb (get key l)
  /\ forall k', k' <> key -> get k' (toggleLayer key l) = get k' l.
Proof.
  unfold toggleLayer; split.
  - apply get_spread_same.
  - intros k' Hne. now apply get_spread_other.
Qed.

(** Toggling twice gives the state back. *)
Lemma toggleLayer_involutive (l : VisualizationLayers) (key : LayerKey) :
  toggleLayer key (toggleLayer key l) = l.
Proof. destruct l, key; unfold toggleLayer; simpl; now rewrite negb_involutive. Qed.

End LayersFacts.

(** ** The chat widget *)

Module ChatFacts.
Import Js Chat.

Lemma eqb_eq (a b : jsstring) : eqb a b = true <-> a = b.
Proof.
  revert b; induction a as [|x a IH]; intros [|y b]; simpl; split; intros H;
    try reflexivity; try discriminate.
  - apply andb_true_iff in H as [Hx Hab]. apply N.eqb_eq in Hx.
    apply IH in Hab. now subst.
  - injection H as -> ->. rewrite N.eqb_refl. now apply IH.
Qed.

Lemma presets_reply_own_answer :
  forallb replies_own_answer PRESET_QUESTIONS = true.
Proof. vm_compute. reflexivity. Qed.

(** Every key is Basic Latin, the range on which [toLowerCase] is exact. *)
Lemma keys_basic_latin :
  forallb is_basic_latin (keys KNOWLEDGE_BASE) = true.
Proof. vm_compute. reflexivity. Qed.

Lemma presets_are_the_keys : PRESET_QUESTIONS = keys KNOWLEDGE_BASE.
Proof. reflexivity. Qed.

(** C3. Submitting the exact text of a predefined question appends, after
    the user's message, an AI message whose text is the value stored under
    that question in [KNOWLEDGE_BASE]; that value is not the generic
    fallback and is stored under no other question. *)
Theorem handleSend_preset_answer (q : jsstring) :
  In q PRESET_QUESTIONS ->
  exists a,
    kb_get KNOWLEDGE_BASE q = Some a
    /\ a <> FALLBACK
    /\ (forall q' a', In (q', a') KNOWLEDGE_BASE -> a' = a -> q' = q)
    /\ forall (st : State) (t0 t1 : N),
         handleSend t0 q st
         = (mkState (messages st ++ [mkMessage (nat_toString t0) q User t0])
                    [] true,
            Some q)
         /\ messages (exchange t0 t1 q st)
            = messages st
              ++ [ mkMessage (nat_toString t0) q User t0;
                   mkMessage (nat_toString (t1 + 1)) a Ai t1 ].
Proof.
  intros Hq.
  pose proof presets_reply_own_answer as H.
  rewrite forallb_forall in H. specialize (H q Hq).
  unfold replies_own_answer in H.
  destruct (kb_get KNOWLEDGE_BASE q) as [a|]; [|discriminate].
  apply andb_true_iff in H as [H Htrim].
  apply andb_true_iff in H as [H Honly].
  apply andb_true_iff in H as [Hreply Hfb].
  apply eqb_eq in Hreply.
  exists a. repeat split.
  - intros ->. apply negb_true_iff in Hfb.
    assert (eqb FALLBACK FALLBACK = true) by now apply eqb_eq.
    congruence.
  - intros q' a' Hin ->.
    unfold answer_only_of in Honly. rewrite forallb_forall in Honly.
    specialize (Honly _ Hin). simpl in Honly.
    assert (Haa : eqb a a = true) by now apply eqb_eq.
    rewrite Haa in Honly. now apply eqb_eq.
  - unfold handleSend. now rewrite Htrim.
  - unfold exchange, handleSend. rewrite Htrim. simpl.
    rewrite Hreply, <- app_assoc. reflexivity.
Qed.

Lemma handleSend_preset_answer_witness :
  In (lit "Why is my airflow restricted?") PRESET_QUESTIONS
  /\ exists a,
       kb_get KNOWLEDGE_BASE (lit "Why is my airflow restricted?") = Some a
       /\ a <> FALLBACK
       /\ (forall q' a', In (q', a') KNOWLEDGE_BASE -> a' = a ->
                         q' = lit "Why is my airflow restricted?")
       /\ forall (st : State) (t0 t1 : N),
            handleSend t0 (lit "Why is my airflow restricted?") st
            = (mkState
                 (messages st
                  ++ [mkMessage (nat_toString t0)
                        (lit "Why is my airflow restricted?") User t0])
                 [] true,
               Some (lit "Why is my airflow restricted?"))
            /\ messages (exchange t0 t1 (lit "Why is my airflow restricted?") st)
               = messages st
                 ++ [ mkMessage (nat_toString t0)
                        (lit "Why is my airflow restricted?") User t0;
                      mkMessage (nat_toString (t1 + 1)) a Ai t1 ].
Proof.
  assert (Hin : In (lit "Why is my airflow restricted?") PRESET_QUESTIONS)
    by (do 4 right; left; reflexivity).
  split; [exact Hin | exact (handleSend_preset_answer _ Hin)].
Defined.

End ChatFacts.

(** ** JavaScript string built-ins *)

Module JsFacts.
Import Js.

Lemma is_prefix_app (p s : jsstring) : is_prefix p (p ++ s) = true.
Proof. induction p as [|c p IH]; simpl; [reflexivity|]. now rewrite N.eqb_refl. Qed.

(** Whether [p] starts [s] is decided by the first [length p] units of [s]. *)
Lemma is_prefix_firstn (p s : jsstring) :
  is_prefix p s = is_prefix p (firstn (length p) s).
Proof.
  revert s; induction p as [|c p IH]; intros [|d s]; simpl; try reflexivity.
  now rewrite IH.
Qed.

Lemma skipn_length_app (p s : jsstring) : skipn (length p) (p ++ s) = s.
Proof. induction p; simpl; auto. Qed.

Lemma is_prefix_app_l (p a b : jsstring) :
  is_prefix p a = true -> is_prefix p (a ++ b) = true.
Proof.
  revert a; induction p as [|x p IH]; intros [|y a]; simpl; try congruence.
  intros H. apply andb_true_iff in H as [Hx Ha]. now rewrite Hx, (IH _ Ha).
Qed.

Lemma includes_empty (s : jsstring) : includes s [] = true.
Proof. destruct s; reflexivity. Qed.

Lemma includes_app_false (a b p : jsstring) :
  includes (a ++ b) p = false -> includes a p = false.
Proof.
  destruct p as [|x p]; [now rewrite includes_empty|].
  induction a as [|c a IH]; [reflexivity|].
  change ((c :: a) ++ b) with (c :: (a ++ b)).
  unfold includes; fold includes. intros H.
  apply orb_false_iff in H as [H1 H2]. rewrite (IH H2), orb_false_r.
  destruct (is_prefix (x :: p) (c :: a)) eqn:Hp; [|reflexivity].
  apply is_prefix_app_l with (b := b) in Hp.
  change ((c :: a) ++ b) with (c :: (a ++ b)) in Hp. congruence.
Qed.

Lemma find_sep_none (sep s : jsstring) :
  sep <> [] -> includes s sep = false -> find_sep sep s = None.
Proof.
  intros Hne. induction s as [|c s IH]; simpl.
  - destruct sep; [congruence | reflexivity].
  - intros H. apply orb_false_iff in H as [H1 H2].
    change (match sep with
            | [] => true
            | x :: p' => (x =? c)%N && is_prefix p' s
            end) with (is_prefix sep (c :: s)).
    now rewrite H1, (IH H2).
Qed.

(** The leftmost occurrence of [sep] in [x ++ sep ++ rest] is the one
    written, when [sep] begins nowhere in [x], not even across the end of
    [x] into the [sep] that follows. *)
Lemma find_sep_app (sep x rest : jsstring) :
  sep <> [] ->
  includes (x ++ removelast sep) sep = false ->
  find_sep sep (x ++ sep ++ rest) = Some (x, rest).
Proof.
  intros Hne. induction x as [|c x IH]; intros H.
  - destruct sep as [|d sep]; [congruence|].
    change ([] ++ (d :: sep) ++ rest) with (d :: (sep ++ rest)).
    unfold find_sep; fold find_sep.
    change (d :: sep ++ rest) with ((d :: sep) ++ rest).
    now rewrite is_prefix_app, skipn_length_app.
  - change ((c :: x) ++ sep ++ rest) with (c :: (x ++ sep ++ rest)).
    change ((c :: x) ++ removelast sep) with (c :: (x ++ removelast sep)) in H.
    simpl in H. apply orb_false_iff in H as [H1 H2].
    unfold find_sep; fold find_sep.
    assert (Hp : is_prefix sep (c :: x ++ sep ++ rest) = false).
    { rewrite is_prefix_firstn.
      change (match sep with
              | [] => true
              | x0 :: p' => (x0 =? c)%N && is_prefix p' (x ++ removelast sep)
              end) with (is_prefix sep (c :: x ++ removelast sep)) in H1.
      rewrite is_prefix_firstn in H1. rewrite <- H1. f_equal.
      change (c :: x ++ sep ++ rest) with ((c :: x) ++ sep ++ rest).
      change (c :: x ++ removelast sep) with ((c :: x) ++ removelast sep).
      rewrite !firstn_app, removelast_firstn_len, firstn_firstn.
      f_equal.
      replace (length sep - length (c :: x) - length sep)%nat with 0%nat by lia.
      rewrite Nat.min_l by (simpl; lia).
      now rewrite firstn_O, app_nil_r. }
    now rewrite Hp, (IH H2).
Qed.

Lemma find_sep_shorter (sep s a b : jsstring) :
  sep <> [] -> find_sep sep s = Some (a, b) -> (length b < length s)%nat.
Proof.
  intros Hne. revert a b. induction s as [|c s IH]; intros a b; simpl.
  - destruct sep; [congruence | discriminate].
  - change (match sep with
            | [] => true
            | x :: p' => (x =? c)%N && is_prefix p' s
            end) with (is_prefix sep (c :: s)).
    destruct (is_prefix sep (c :: s)).
    + intros [= <- <-]. rewrite length_skipn.
      destruct sep; [congruence|]. simpl. lia.
    + destruct (find_sep sep s) as [[a' b']|]; [|discriminate].
      intros [= <- <-]. specialize (IH _ _ eq_refl). simpl. lia.
Qed.

Lemma split_fuel_enough (sep : jsstring) (f1 f2 : nat) (s : jsstring) :
  sep <> [] -> (length s < f1)%nat -> (length s < f2)%nat ->
  split_fuel f1 sep s = split_fuel f2 sep s.
Proof.
  intros Hne. revert f2 s. induction f1 as [|f1 IH]; intros f2 s H1 H2; [lia|].
  destruct f2 as [|f2]; [lia|]. simpl.
  destruct (find_sep sep s) as [[a b]|] eqn:Hf; [|reflexivity].
  pose proof (find_sep_shorter _ _ _ _ Hne Hf). f_equal. apply IH; lia.
Qed.

(** The defining equations of [split]. *)
Lemma split_cut (sep s a b : jsstring) :
  sep <> [] -> find_sep sep s = Some (a, b) -> split s sep = a :: split b sep.
Proof.
  intros Hne Hf. unfold split. destruct sep as [|d sep]; [congruence|].
  simpl. rewrite Hf. f_equal.
  pose proof (find_sep_shorter _ _ _ _ Hne Hf).
  change (match find_sep (d :: sep) b with
          | Some (a0, b0) => a0 :: split_fuel (length b) (d :: sep) b0
          | None => [b]
          end) with (split_fuel (S (length b)) (d :: sep) b).
  apply split_fuel_enough; auto; lia.
Qed.

Lemma split_whole (sep s : jsstring) :
  sep <> [] -> find_sep sep s = None -> split s sep = [s].
Proof.
  intros Hne Hf. unfold split. destruct sep; [congruence|]. simpl. now rewrite Hf.
Qed.

(** *** [trim] *)

Lemma dropWhile_nil (p : code_unit -> bool) (s : jsstring) :
  dropWhile p s = [] -> forallb p s = true.
Proof.
  induction s as [|c s IH]; simpl; [reflexivity|].
  destruct (p c); [auto | discriminate].
Qed.

Lemma dropWhile_all (p : code_unit -> bool) (s : jsstring) :
  forallb p (dropWhile p s) = true -> forallb p s = true.
Proof.
  induction s as [|c s IH]; simpl; [reflexivity|].
  destruct (p c) eqn:Hc; simpl; [auto|]. rewrite Hc. discriminate.
Qed.

Lemma forallb_rev (p : code_unit -> bool) (s : jsstring) :
  forallb p (rev s) = forallb p s.
Proof.
  induction s as [|c s IH]; simpl; [reflexivity|].
  rewrite forallb_app, IH. simpl. rewrite andb_true_r. apply andb_comm.
Qed.

(** Only a text of white space trims to the empty text. *)
Lemma trim_nil (s : jsstring) : trim s = [] -> forallb is_ws s = true.
Proof.
  unfold trim, trimEnd, trimStart. intros H.
  apply (f_equal (@rev code_unit)) in H. rewrite rev_involutive in H. simpl in H.
  apply dropWhile_nil in H. rewrite forallb_rev in H.
  now apply dropWhile_all.
Qed.

(** A text that neither starts nor ends with white space is its own trim. *)
Lemma dropWhile_id (p : code_unit -> bool) (c : code_unit) (s : jsstring) :
  p c = false -> dropWhile p (c :: s) = c :: s.
Proof. intros H. simpl. now rewrite H. Qed.

End JsFacts.

(** ** The generative-text service *)

Module GeminiFacts.
Import Js Gemini.

Section Service.
Variable API_KEY : option jsstring.
Variable service : Request -> Outcome.
Variable number_toString : float -> jsstring.

Local Abbreviation analyze := (analyzeLungProgression API_KEY service number_toString).
Local Abbreviation similar := (getSimilarCasesAnalysis API_KEY service).

(** A request that is answered returns the answer's text, or the stand-in
    when the text is missing or empty. *)
Lemma analyze_answered cur base mode text :
  key_missing API_KEY = false ->
  service (progression_request number_toString cur base mode) = Responds text ->
  analyze cur base mode
  = (Returns (or_else text (lit "Analysis unavailable.")),
     [Requested (progression_request number_toString cur base mode)]).
Proof.
  intros Hkey Hsvc. unfold analyzeLungProgression, generateContent.
  rewrite Hkey, Hsvc. reflexivity.
Qed.

Lemma analyze_rejected cur base mode e :
  key_missing API_KEY = false ->
  service (progression_request number_toString cur base mode) = Rejects e ->
  analyze cur base mode
  = (Returns (lit "Unable to generate analysis at this time."),
     [Requested (progression_request number_toString cur base mode);
      ConsoleError (lit "Gemini API Error:") e]).
Proof.
  intros Hkey Hsvc. unfold analyzeLungProgression, generateContent.
  rewrite Hkey, Hsvc. reflexivity.
Qed.

Lemma similar_rejected condition e :
  key_missing API_KEY = false ->
  service (similar_cases_request condition) = Rejects e ->
  similar condition = (Returns [], [Requested (similar_cases_request condition)]).
Proof.
  intros Hkey Hsvc. unfold getSimilarCasesAnalysis, generateContent.
  rewrite Hkey, Hsvc. reflexivity.
Qed.

(** C6. Neither request function throws.  With the API key missing,
    [analyzeLungProgression] returns its fixed message and issues no request
    (it causes no event at all); when the request is rejected it returns
    "Unable to generate analysis at this time.".  [getSimilarCasesAnalysis]
    returns "API Key missing." without a request when the key is missing and
    the empty string when the request is rejected. *)
Theorem gemini_calls_fall_back :
  (forall cur base mode, exists s, fst (analyze cur base mode) = Returns s)
  /\ (key_missing API_KEY = true ->
      forall cur base mode,
        analyze cur base mode
        = (Returns (lit "API Key not configured. Unable to generate AI insights."),
           []))
  /\ (key_missing API_KEY = false ->
      forall cur base mode e,
        service (progression_request number_toString cur base mode) = Rejects e ->
        fst (analyze cur base mode)
        = Returns (lit "Unable to generate analysis at this time."))
  /\ (forall condition, exists s, fst (similar condition) = Returns s)
  /\ (key_missing API_KEY = true ->
      forall condition,
        similar condition = (Returns (lit "API Key missing."), []))
  /\ (key_missing API_KEY = false ->
      forall condition e,
        service (similar_cases_request condition) = Rejects e ->
        fst (similar condition) = Returns []).
Proof.
  repeat split.
  - intros cur base mode.
    destruct (key_missing API_KEY) eqn:Hkey.
    + unfold analyzeLungProgression. rewrite Hkey. eexists; reflexivity.
    + destruct (service (progression_request number_toString cur base mode))
        as [text|e] eqn:Hsvc.
      * rewrite (analyze_answered _ _ _ _ Hkey Hsvc). eexists; reflexivity.
      * rewrite (analyze_rejected _ _ _ _ Hkey Hsvc). eexists; reflexivity.
  - intros Hkey cur base mode. unfold analyzeLungProgression.
    now rewrite Hkey.
  - intros Hkey cur base mode e Hsvc.
    now rewrite (analyze_rejected _ _ _ _ Hkey Hsvc).
  - intros condition. unfold getSimilarCasesAnalysis, generateContent.
    destruct (key_missing API_KEY); [eexists; reflexivity|].
    destruct (service (similar_cases_request condition));
      eexists; reflexivity.
  - intros Hkey condition. unfold getSimilarCasesAnalysis. now rewrite Hkey.
  - intros Hkey condition e Hsvc.
    now rewrite (similar_rejected _ _ Hkey Hsvc).
Qed.

End Service.

(** The theorem at a service that rejects every request, with a key set. *)
Lemma gemini_calls_fall_back_witness :
  let key := Some (lit "k") in
  let service := fun _ : Request => Rejects (lit "503") in
  let show := fun _ : float => lit "0" in
  let m := mkLungMetrics 4200 0.85 2.1 5 (mkLobeVolumes 850 450 900 950 1050) in
  fst (analyzeLungProgression key service show m m DOCTOR)
  = Returns (lit "Unable to generate analysis at this time.")
  /\ fst (getSimilarCasesAnalysis key service (lit "IPF")) = Returns []
  /\ analyzeLungProgression None service show m m PATIENT
     = (Returns (lit "API Key not configured. Unable to generate AI insights."), [])
  /\ getSimilarCasesAnalysis (Some []) service (lit "IPF")
     = (Returns (lit "API Key missing."), []).
Proof.
  cbv zeta.
  pose proof (@gemini_calls_fall_back (Some (lit "k"))
                (fun _ => Rejects (lit "503")) (fun _ => lit "0"))
    as (_ & _ & Ha & _ & _ & Hs).
  pose proof (@gemini_calls_fall_back None
                (fun _ => Rejects (lit "503")) (fun _ => lit "0"))
    as (_ & Hn & _).
  pose proof (@gemini_calls_fall_back (Some [])
                (fun _ => Rejects (lit "503")) (fun _ => lit "0"))
    as (_ & _ & _ & _ & He & _).
  split; [|split; [|split]].
  - apply (Ha eq_refl) with (e := lit "503"). reflexivity.
  - apply (Hs eq_refl) with (e := lit "503"). reflexivity.
  - apply (Hn eq_refl).
  - apply (He eq_refl).
Defined.

End GeminiFacts.

(** ** Order facts on binary64 numbers *)

Module FloatFacts.
Local Open Scope float_scope.

Lemma SFcompare_antisym (a b : spec_float) :
  SFcompare b a = option_map CompOpp (SFcompare a b).
Proof.
  destruct a as [sa|sa| |sa ma ea], b as [sb|sb| |sb mb eb]; simpl;
    try reflexivity;
    try (destruct sa; reflexivity); try (destruct sb; reflexivity);
    try (destruct sa, sb; reflexivity).
  change (Pos.compare_cont Eq mb ma) with (Pos.compare mb ma).
  change (Pos.compare_cont Eq ma mb) with (Pos.compare ma mb).
  rewrite (Z.compare_antisym ea eb), (Pos.compare_antisym ma mb).
  destruct sa, sb; try reflexivity;
    destruct (ea ?= eb)%Z; simpl; reflexivity.
Qed.

Lemma SFcompare_refl (a : spec_float) :
  a <> S754_nan -> SFcompare a a = Some Eq.
Proof.
  destruct a as [s|s| |s m e]; simpl; intros H;
    try reflexivity; try (destruct s; reflexivity); try congruence.
  rewrite Z.compare_refl, Pos.compare_cont_refl. destruct s; reflexivity.
Qed.

Lemma SFcompare_nan (a b : spec_float) :
  SFcompare a b = None <-> a = S754_nan \/ b = S754_nan.
Proof.
  destruct a as [sa|sa| |sa ma ea], b as [sb|sb| |sb mb eb]; simpl;
    split; intros H; try discriminate; try reflexivity; auto;
    destruct H; discriminate.
Qed.

Lemma is_nan_false (a : float) : is_nan a = false <-> Prim2SF a <> S754_nan.
Proof.
  unfold is_nan. rewrite eqb_spec. unfold SFeqb. split.
  - intros H Hn. rewrite Hn in H. discriminate.
  - intros H. now rewrite (SFcompare_refl _ H).
Qed.

Lemma leb_refl (a : float) : is_nan a = false -> (a <=? a) = true.
Proof.
  intros H. apply is_nan_false in H.
  rewrite leb_spec. unfold SFleb. now rewrite (SFcompare_refl _ H).
Qed.

Lemma leb_not_nan (a b : float) :
  (a <=? b) = true -> is_nan a = false /\ is_nan b = false.
Proof.
  rewrite leb_spec. unfold SFleb. intros H.
  split; apply is_nan_false; intros Hn; rewrite Hn in H;
    destruct (Prim2SF a), (Prim2SF b); discriminate.
Qed.

Lemma ltb_leb (a b : float) : (a <? b) = true -> (a <=? b) = true.
Proof.
  rewrite ltb_spec, leb_spec. unfold SFltb, SFleb.
  destruct (SFcompare (Prim2SF a) (Prim2SF b)) as [[]|]; congruence.
Qed.

Lemma not_ltb_leb (a b : float) :
  is_nan a = false -> is_nan b = false -> (a <? b) = false -> (b <=? a) = true.
Proof.
  intros Ha Hb. apply is_nan_false in Ha. apply is_nan_false in Hb.
  rewrite ltb_spec, leb_spec. unfold SFltb, SFleb.
  rewrite (SFcompare_antisym (Prim2SF a) (Prim2SF b)).
  destruct (SFcompare (Prim2SF a) (Prim2SF b)) as [[]|] eqn:Hc; simpl;
    try congruence.
  apply SFcompare_nan in Hc. tauto.
Qed.

Lemma leb_not_ltb (a b : float) : (a <=? b) = true -> (b <? a) = false.
Proof.
  rewrite ltb_spec, leb_spec. unfold SFltb, SFleb.
  rewrite (SFcompare_antisym (Prim2SF a) (Prim2SF b)).
  destruct (SFcompare (Prim2SF a) (Prim2SF b)) as [[]|]; simpl; congruence.
Qed.

(** [Math.min] of two numbers is one of them and at most the first. *)
Lemma min_cases (a b : float) :
  is_nan a = false -> is_nan b = false ->
  (JsMath.min a b = a \/ JsMath.min a b = b) /\ (JsMath.min a b <=? a) = true.
Proof.
  intros Ha Hb. unfold JsMath.min. rewrite Ha, Hb. simpl.
  destruct (a <? b) eqn:Hab.
  - split; [now left | now apply leb_refl].
  - destruct (b <? a) eqn:Hba.
    + split; [now right | now apply ltb_leb].
    + destruct (JsMath.is_neg_zero a).
      * split; [now left | now apply leb_refl].
      * split; [now right | now apply not_ltb_leb].
Qed.

(** [Math.max] of two numbers is one of them and at least the first. *)
Lemma max_cases (a b : float) :
  is_nan a = false -> is_nan b = false ->
  (JsMath.max a b = a \/ JsMath.max a b = b) /\ (a <=? JsMath.max a b) = true.
Proof.
  intros Ha Hb. unfold JsMath.max. rewrite Ha, Hb. simpl.
  destruct (a <? b) eqn:Hab.
  - split; [now right | now apply ltb_leb].
  - destruct (b <? a) eqn:Hba.
    + split; [now left | now apply leb_refl].
    + destruct (JsMath.is_neg_zero a).
      * split; [now right | now apply not_ltb_leb].
      * split; [now left | now apply leb_refl].
Qed.

(** The clamp [Math.max(lo, Math.min(hi, v))] of a number lands in
    [[lo, hi]] when that interval is not empty. *)
Lemma clamp_within (lo hi v : float) :
  (lo <=? hi) = true -> is_nan v = false ->
  JsMath.within lo hi (JsMath.max lo (JsMath.min hi v)) = true.
Proof.
  intros Hlh Hv. destruct (leb_not_nan _ _ Hlh) as [Hlo Hhi].
  destruct (min_cases _ _ Hhi Hv) as [Hm Hmle].
  assert (Hmn : is_nan (JsMath.min hi v) = false)
    by (destruct Hm as [-> | ->]; assumption).
  destruct (max_cases _ _ Hlo Hmn) as [Hc Hge].
  unfold JsMath.within. rewrite Hge. simpl.
  destruct Hc as [-> | ->]; assumption.
Qed.

End FloatFacts.

(** ** The hand-gesture controller *)

Module GestureFacts.
Import Js Gesture.
Local Open Scope float_scope.

(** *** What a frame with a hand does to the controls *)

Lemma act_steers three st cv v h c :
  controls (dom st) = Some c ->
  let cg := take_control c (refs st) in
  let sg := steer (fst cg) (snd cg) h (camera_spherical three (fst cg)) in
  controls (dom (act three st cv v h)) = Some (apply_sync three (fst cg) (fst sg))
  /\ refs (act three st cv v h) = snd sg.
Proof.
  intros Hc. unfold act. rewrite Hc.
  destruct (take_control c (refs st)) as [c' g'] eqn:Htc. simpl.
  destruct (steer c' g' h (camera_spherical three c')) as [s' g''].
  destruct (pinching h); split; reflexivity.
Qed.

(** C4. In a frame classified as a pinch, with the distance limits in order
    and the rescaled radius a number, the zoom branch either leaves the
    radius as it was or leaves it within [[minDistance, maxDistance]]; with a
    pinch delta of magnitude at most 0.005 it leaves the spherical
    coordinates as they were; it never touches the two angles. *)
Theorem zoom_radius_in_range (c : OrbitControls) (g : GestureRefs) (h : Hand)
    (s : Spherical) :
  pinching h = true ->
  (minDistance c <=? maxDistance c) = true ->
  (forall last, lastPinchDist g = Some last ->
     is_nan (rescale (radius s) (last - pinchDist h / handSize h)) = false) ->
  let s' := fst (steer c g h s) in
  (radius s' = radius s
   \/ JsMath.within (minDistance c) (maxDistance c) (radius s') = true)
  /\ (forall last, lastPinchDist g = Some last ->
        (abs (last - pinchDist h / handSize h) <=? 0.005) = true -> s' = s)
  /\ phi s' = phi s /\ theta s' = theta s.
Proof.
  intros Hp Hlim Hnum. unfold steer. rewrite Hp. unfold zoom. simpl.
  destruct (lastPinchDist g) as [last|].
  - specialize (Hnum last eq_refl).
    destruct (JsMath.gt (abs (last - pinchDist h / handSize h)) 0.005) eqn:Hd;
      simpl.
    + split; [right; now apply FloatFacts.clamp_within|].
      split; [|split; reflexivity].
      intros last' [= <-] Hle.
      apply FloatFacts.leb_not_ltb in Hle. unfold JsMath.gt in Hd. congruence.
    + split; [now left|]. split; [reflexivity|split; reflexivity].
  - split; [now left|]. split; [discriminate|split; reflexivity].
Qed.

Lemma zoom_radius_in_range_witness :
  let g := mkRefs (Some 0.3) None true true in
  let s := mkSpherical 5 1 0 in
  pinching pinched_hand = true
  /\ (minDistance controls0 <=? maxDistance controls0) = true
  /\ (radius (fst (steer controls0 g pinched_hand s)) = radius s
      \/ JsMath.within (minDistance controls0) (maxDistance controls0)
           (radius (fst (steer controls0 g pinched_hand s))) = true)
  /\ (radius (fst (steer controls0 g pinched_hand s)) =? radius s) = false.
Proof.
  cbv zeta.
  assert (Hp : pinching pinched_hand = true) by reflexivity.
  assert (Hl : (minDistance controls0 <=? maxDistance controls0) = true)
    by reflexivity.
  split; [exact Hp | split; [exact Hl | split; [| reflexivity]]].
  refine (proj1 (zoom_radius_in_range controls0 (mkRefs (Some 0.3) None true true)
                   pinched_hand (mkSpherical 5 1 0) Hp Hl _)).
  intros last [= <-]. reflexivity.
Defined.

(** C5, as the code has it. In a frame classified as rotation that has a
    centroid to compare with, a vertical displacement above the 0.001 dead
    zone, and a moved polar angle that is a number, the polar angle after the
    rotate branch lies within [[0.01, pi - 0.01]]. *)
Theorem rotate_clamps_moved_phi (c : OrbitControls) (g : GestureRefs) (h : Hand)
    (s : Spherical) (lx ly : float) :
  pinching h = false ->
  lastCentroid g = Some (lx, ly) ->
  lastPinchDist g = None ->
  JsMath.gt (abs ((y (wrist h) + y (middleKnuckle h)) / 2 - ly)) 0.001 = true ->
  is_nan (phi s - ((y (wrist h) + y (middleKnuckle h)) / 2 - ly) * 5) = false ->
  JsMath.within 0.01 (JsMath.PI - 0.01) (phi (fst (steer c g h s))) = true.
Proof.
  intros Hp Hc Hl Hdy Hnum. unfold steer. rewrite Hp. unfold rotate.
  rewrite Hc, Hl, Hdy.
  assert (Hlim : (0.01 <=? JsMath.PI - 0.01) = true) by reflexivity.
  destruct (JsMath.gt (abs ((x (wrist h) + x (middleKnuckle h)) / 2 - lx)) 0.001);
    cbn [fst phi set_phi set_theta radius theta];
    now apply FloatFacts.clamp_within.
Qed.

Lemma rotate_clamps_moved_phi_witness :
  let g := mkRefs None (Some (0.5, 0.4)) true true in
  let s := mkSpherical 5 0.25 0 in
  pinching open_hand = false
  /\ JsMath.within 0.01 (JsMath.PI - 0.01)
       (phi (fst (steer controls0 g open_hand s))) = true
  /\ (phi (fst (steer controls0 g open_hand s)) =? 0.01) = true.
Proof.
  cbv zeta.
  assert (Hp : pinching open_hand = false) by reflexivity.
  split; [exact Hp | split; [| reflexivity]].
  apply (rotate_clamps_moved_phi controls0 (mkRefs None (Some (0.5, 0.4)) true true)
           open_hand (mkSpherical 5 0.25 0) 0.5 0.4 Hp);
    reflexivity.
Defined.

(** C5 as stated fails: with the camera next to the pole (polar angle
    0.000001, where dragging the mouse upwards leaves it) an open hand moving
    sideways turns the camera, and the polar angle stays below 0.01. *)
Lemma rotate_leaves_phi_near_pole :
  let g := mkRefs None (Some (0.4, 0.5)) true true in
  let s := mkSpherical 5 0.000001 0 in
  pinching open_hand = false
  /\ (theta (fst (steer controls0 g open_hand s)) =? theta s) = false
  /\ JsMath.within 0.01 (JsMath.PI - 0.01)
       (phi (fst (steer controls0 g open_hand s))) = false.
Proof. cbv zeta. split; [|split]; reflexivity. Qed.

(** *** Frames without a usable detection *)

(** The state after the guards differs from the one before at most in the
    canvas. *)
Lemma sync_canvas_keeps st st1 cv v :
  sync_canvas st = Some (st1, cv, v) ->
  ui st1 = ui st /\ refs st1 = refs st /\ world st1 = world st
  /\ controls (dom st1) = controls (dom st)
  /\ canvas (dom st1) = Some cv.
Proof.
  unfold sync_canvas.
  destruct (video (dom st)) as [v0|]; [|discriminate].
  destruct (canvas (dom st)) as [cv0|] eqn:Hcv; [|discriminate].
  destruct (landmarker (dom st)); [|discriminate].
  destruct ((videoWidth v0 =? 0) || (videoHeight v0 =? 0)); [discriminate|].
  destruct (negb (width cv0 =? videoWidth v0) || negb (height cv0 =? videoHeight v0));
    intros [= <- <- <-]; simpl; auto.
Qed.

(** A processed frame with a hand and controls: the gesture refs and the
    spherical coordinates handed to "Apply & Sync" are those of [steer], run
    on the coordinates read off the camera. *)
Lemma hand_frame_steers three st st1 cv v lms more i t w m c :
  sync_canvas st = Some (st1, cv, v) -> context2d cv = true ->
  nth_error lms 8 = Some i -> nth_error lms 4 = Some t ->
  nth_error lms 0 = Some w -> nth_error lms 9 = Some m ->
  controls (dom st) = Some c ->
  let h := mkHand i t w m in
  let cg := take_control c (refs st) in
  let sg := steer (fst cg) (snd cg) h (camera_spherical three (fst cg)) in
  exists st',
    predictWebcam three st (Detected (mkResult (lms :: more))) = Normal st'
    /\ controls (dom st') = Some (apply_sync three (fst cg) (fst sg))
    /\ refs st' = snd sg.
Proof.
  intros Hs Hctx H8 H4 H0 H9 Hc h cg sg.
  destruct (sync_canvas_keeps _ _ _ _ Hs) as (_ & Hrefs & _ & Hc1 & _).
  unfold predictWebcam. rewrite Hs, Hctx. cbn [negb].
  unfold visualize_act. cbn [landmarks]. rewrite H8, H4, H0, H9.
  eexists. split; [reflexivity|].
  match goal with
  | |- context [act three ?s ?cv2 v _] =>
      assert (Hr2 : refs s = refs st) by exact Hrefs;
      assert (Hc2 : controls (dom s) = Some c)
        by (cbn [controls dom set_canvas with_dom]; congruence);
      pose proof (act_steers three s cv2 v h c Hc2) as H
  end.
  cbv zeta in H. rewrite Hr2 in H. exact H.
Qed.

(** C8. When [detectForVideo] throws, [predictWebcam] ends normally in a
    state whose controls (camera position and damping flag included),
    gesture refs and React state are those it started with; the console has
    gained the warning if the frame got as far as detecting, and nothing
    otherwise. *)
Theorem detection_error_skips_frame (three : Three) (st : State) (e : jsstring) :
  exists st',
    predictWebcam three st (DetectThrows e) = Normal st'
    /\ controls (dom st') = controls (dom st)
    /\ refs st' = refs st
    /\ ui st' = ui st
    /\ console (world st')
       = console (world st)
         ++ match sync_canvas st with
            | Some _ => [ConsoleWarn (lit "Detection error") e]
            | None => []
            end.
Proof.
  unfold predictWebcam.
  destruct (sync_canvas st) as [[[st1 cv] v]|] eqn:Hs.
  - destruct (sync_canvas_keeps _ _ _ _ Hs) as (Hui & Hrefs & Hw & Hc & _).
    eexists. split; [reflexivity|]. simpl.
    rewrite Hc, Hrefs, Hui, Hw. auto.
  - exists st. rewrite app_nil_r. auto.
Qed.

(** The zoom branch without a pinch to compare with. *)
Lemma steer_first_pinch (c : OrbitControls) (g : GestureRefs) (h : Hand)
    (s : Spherical) :
  pinching h = true -> lastPinchDist g = None ->
  steer c g h s
  = (s, mkRefs (Some (pinchDist h / handSize h)) None
               (wasDampingEnabled g) (isControlling g)).
Proof. intros Hp Hl. unfold steer, zoom. now rewrite Hp, Hl. Qed.

(** The rotate branch without a centroid to compare with, or coming from a
    pinch. *)
Lemma steer_first_rotation (c : OrbitControls) (g : GestureRefs) (h : Hand)
    (s : Spherical) :
  pinching h = false ->
  lastCentroid g = None \/ lastPinchDist g <> None ->
  steer c g h s
  = (s, mkRefs None
               (Some ((x (wrist h) + x (middleKnuckle h)) / 2,
                      (y (wrist h) + y (middleKnuckle h)) / 2))
               (wasDampingEnabled g) (isControlling g)).
Proof.
  intros Hp Hn. unfold steer, rotate. rewrite Hp.
  destruct Hn as [Hn | Hn].
  - now rewrite Hn.
  - destruct (lastCentroid g) as [[lx ly]|]; [|reflexivity].
    destruct (lastPinchDist g); [reflexivity | congruence].
Qed.

Lemma take_control_references (c : OrbitControls) (g : GestureRefs) :
  lastPinchDist (snd (take_control c g)) = lastPinchDist g
  /\ lastCentroid (snd (take_control c g)) = lastCentroid g.
Proof. unfold take_control. destruct (isControlling g); split; reflexivity. Qed.

(** C10. In a processed frame with a hand and controls, when the reference
    of the current gesture is missing (no last pinch distance while pinching;
    no last centroid, or a last pinch distance, while not pinching),
    [predictWebcam] writes the camera back from its own spherical
    coordinates, with no zoom or rotation, and records the references of the
    gesture: the normalized pinch and no centroid, or the centroid and no
    pinch distance.  A processed frame without a hand leaves both references
    unset. *)
Theorem first_frame_only_records (three : Three) (st st1 : State) (cv : Canvas)
    (v : Video) :
  sync_canvas st = Some (st1, cv, v) ->
  context2d cv = true ->
  (forall lms more i t w m c,
     nth_error lms 8 = Some i -> nth_error lms 4 = Some t ->
     nth_error lms 0 = Some w -> nth_error lms 9 = Some m ->
     controls (dom st) = Some c ->
     let h := mkHand i t w m in
     let c' := fst (take_control c (refs st)) in
     (pinching h = true /\ lastPinchDist (refs st) = None)
     \/ (pinching h = false
         /\ (lastCentroid (refs st) = None \/ lastPinchDist (refs st) <> None)) ->
     exists st',
       predictWebcam three st (Detected (mkResult (lms :: more))) = Normal st'
       /\ controls (dom st')
          = Some (apply_sync three c' (camera_spherical three c'))
       /\ lastPinchDist (refs st')
          = (if pinching h then Some (pinchDist h / handSize h) else None)
       /\ lastCentroid (refs st')
          = (if pinching h then None
             else Some ((x w + x m) / 2, (y w + y m) / 2)))
  /\ (exists st',
        predictWebcam three st (Detected (mkResult [])) = Normal st'
        /\ lastPinchDist (refs st') = None
        /\ lastCentroid (refs st') = None).
Proof.
  intros Hs Hctx. split.
  - intros lms more i t w m c H8 H4 H0 H9 Hc h c' Hcase.
    destruct (hand_frame_steers three st st1 cv v lms more i t w m c
                Hs Hctx H8 H4 H0 H9 Hc) as (st' & Hrun & Hctl & Hrefs).
    fold h in Hctl, Hrefs. fold c' in Hctl, Hrefs.
    destruct (take_control_references c (refs st)) as [Hlp Hlc].
    exists st'. split; [exact Hrun|].
    destruct Hcase as [[Hp Hl] | [Hp Hn]].
    + rewrite <- Hlp in Hl.
      rewrite (steer_first_pinch _ _ _ _ Hp Hl) in Hctl, Hrefs.
      rewrite Hrefs, Hp. auto.
    + rewrite <- Hlp, <- Hlc in Hn.
      rewrite (steer_first_rotation _ _ _ _ Hp Hn) in Hctl, Hrefs.
      rewrite Hrefs, Hp. auto.
  - unfold predictWebcam. rewrite Hs, Hctx. simpl.
    unfold visualize_act, no_hand. simpl.
    destruct (controls (dom st1)) as [c0|]; [|eexists; split; [reflexivity|]; auto].
    unfold release_control. simpl.
    destruct (isControlling (refs st1)); eexists; (split; [reflexivity|]); auto.
Qed.

Lemma first_frame_only_records_witness :
  let three := mkThree (fun _ => mkSpherical 5 1 0) (fun s => s)
                       (fun _ => mkVector3 0 0 5) (fun c => c) in
  let st := with_refs ready_state (mkRefs (Some 0.3) None true true) in
  (exists st1 cv v, sync_canvas st = Some (st1, cv, v) /\ context2d cv = true)
  /\ (exists st',
        predictWebcam three st (Detected (mkResult [hand_landmarks open_hand]))
        = Normal st'
        /\ controls (dom st')
           = Some (apply_sync three controls0 (camera_spherical three controls0))
        /\ lastPinchDist (refs st') = None
        /\ lastCentroid (refs st') = Some (0.5, 0.5))
  /\ (exists st',
        predictWebcam three st (Detected (mkResult [])) = Normal st'
        /\ lastPinchDist (refs st') = None
        /\ lastCentroid (refs st') = None).
Proof.
  cbv zeta.
  set (three := mkThree (fun _ => mkSpherical 5 1 0) (fun s => s)
                        (fun _ => mkVector3 0 0 5) (fun c => c)).
  set (st := with_refs ready_state (mkRefs (Some 0.3) None true true)).
  destruct (sync_canvas st) as [[[st1 cv] v]|] eqn:Hs; [|discriminate].
  assert (Hctx : context2d cv = true).
  { vm_compute in Hs. injection Hs as <- <- <-. reflexivity. }
  pose proof (first_frame_only_records three st st1 cv v Hs Hctx) as [Hhand Hnone].
  split; [now exists st1, cv, v|]. split; [|exact Hnone].
  specialize (Hhand (hand_landmarks open_hand) []
                    (indexTip open_hand) (thumbTip open_hand)
                    (wrist open_hand) (middleKnuckle open_hand) controls0
                    eq_refl eq_refl eq_refl eq_refl eq_refl).
  cbv zeta in Hhand.
  destruct Hhand as (st' & Hrun & Hctl & Hlp & Hlc).
  - right. split; [reflexivity|]. right. discriminate.
  - exists st'. split; [exact Hrun|]. split; [exact Hctl|].
    split; [exact Hlp|]. rewrite Hlc. reflexivity.
Defined.

(** *** Camera permission *)

(** C7, as the code has it. When the camera request of [toggleCamera] is
    denied, the status becomes "Camera Denied", the error "Camera permission
    denied", hand control stays disabled and [onEnableChange] is not called;
    the button is left clickable, and clicking it again asks for the camera
    again without reloading the page. *)
Theorem camera_denied_then_retry (st : State) (err : jsstring) :
  enabled (ui st) = false ->
  landmarker (dom st) = true ->
  let st1 := toggleCamera st (Denied err) in
  status (ui st1) = lit "Camera Denied"
  /\ error (ui st1) = Some (lit "Camera permission denied")
  /\ enabled (ui st1) = false
  /\ loading (ui st1) = false
  /\ enable_changes (world st1) = enable_changes (world st)
  /\ reloads (world st1) = reloads (world st)
  /\ button_disabled st1 = false
  /\ forall cam,
       reloads (world (toggleCamera st1 cam)) = reloads (world st1)
       /\ camera_requests (world (toggleCamera st1 cam))
          = S (camera_requests (world st1)).
Proof.
  intros He Hl. unfold toggleCamera at 1. rewrite He, Hl. simpl.
  rewrite He. repeat (split; [reflexivity|]).
  intros cam. unfold toggleCamera. simpl. rewrite He, Hl. simpl.
  destruct cam as [stream|err']; simpl.
  - destruct (video (dom st)); simpl; auto.
  - auto.
Qed.

Lemma camera_denied_then_retry_witness :
  enabled (ui ready_state) = false
  /\ landmarker (dom ready_state) = true
  /\ status (ui (toggleCamera ready_state (Denied (lit "NotAllowedError"))))
     = lit "Camera Denied"
  /\ button_disabled (toggleCamera ready_state (Denied (lit "NotAllowedError")))
     = false.
Proof.
  assert (He : enabled (ui ready_state) = false) by reflexivity.
  assert (Hl : landmarker (dom ready_state) = true) by reflexivity.
  pose proof (camera_denied_then_retry ready_state (lit "NotAllowedError") He Hl)
    as (Hs & _ & _ & _ & _ & _ & Hb & _).
  split; [exact He | split; [exact Hl | split; [exact Hs | exact Hb]]].
Defined.

(** C7 as stated fails: after a denial the retry does not reload the page;
    it requests the camera a second time. *)
Lemma denied_retry_does_not_reload :
  let st1 := toggleCamera ready_state (Denied (lit "NotAllowedError")) in
  let st2 := toggleCamera st1 (Denied (lit "NotAllowedError")) in
  status (ui st1) = lit "Camera Denied"
  /\ button_disabled st1 = false
  /\ reloads (world st2) = 0%nat
  /\ camera_requests (world st2) = 2%nat.
Proof. cbv zeta. split; [|split; [|split]]; reflexivity. Qed.

(** X27. The page is reloaded by [toggleCamera] exactly when hand control
    is off, no landmarker is set and an error is: after the model failed to
    load. *)
Lemma toggleCamera_reloads_iff (st : State) (cam : CameraOutcome) :
  reloads (world (toggleCamera st cam)) = S (reloads (world st))
  <-> enabled (ui st) = false /\ landmarker (dom st) = false
      /\ error_set st = true.
Proof.
  unfold toggleCamera.
  destruct (enabled (ui st)) eqn:He.
  - unfold stopCamera. simpl.
    assert (reloads (world (stopCamera st)) = reloads (world st)) as Hsame.
    { unfold stopCamera. simpl.
      destruct (video (dom st)) as [v|]; simpl;
        [destruct (srcObject v); simpl|];
        destruct (canvas (dom st)) as [c|]; simpl;
        try destruct (context2d c); reflexivity. }
    unfold stopCamera in Hsame. simpl in Hsame. rewrite Hsame.
    split; [intros H; exfalso; eapply n_Sn; exact H | intros (H & _); discriminate].
  - destruct (landmarker (dom st)) eqn:Hl; simpl.
    + split; [|intros (_ & H & _); discriminate].
      intros H. exfalso.
      destruct cam; simpl in H; [destruct (video (dom st)); simpl in H|];
        eapply n_Sn; exact H.
    + destruct (error_set st) eqn:Hes; simpl.
      * split; auto.
      * split; [intros H; exfalso; eapply n_Sn; exact H
               | intros (_ & _ & H); discriminate].
Qed.

Lemma init_failure_retry_reloads :
  let st := init (mounted_state None None None) false in
  button_disabled st = false
  /\ reloads (world (toggleCamera st (Denied []))) = 1%nat.
Proof. cbv zeta. split; reflexivity. Qed.

End GestureFacts.

(** ** The findings display: [parseFindings] *)

Module FindingsFacts.
Import Js Regex Findings JsFacts.

Lemma lit_bold_nonempty : lit ":**" <> [].
Proof. discriminate. Qed.

Lemma lit_bullet_nonempty : lit "* **" <> [].
Proof. discriminate. Qed.

(** No proper end of [:**] is a start of it, so an occurrence cannot begin
    in a text free of it and run into a [:**] put after the text. *)
Lemma bold_no_overlap (t : jsstring) :
  includes t (lit ":**") = false ->
  includes (t ++ removelast (lit ":**")) (lit ":**") = false.
Proof.
  change (removelast (lit ":**")) with [58; 42]%N.
  change (lit ":**") with [58; 42; 42]%N.
  induction t as [|c t IH]; [reflexivity|].
  change ((c :: t) ++ [58; 42]%N) with (c :: (t ++ [58; 42]%N)).
  unfold includes; fold includes. intros H.
  apply orb_false_iff in H as [H1 H2]. rewrite (IH H2), orb_false_r.
  destruct t as [|d [|e t]].
  - cbn [app is_prefix]. destruct (58 =? c)%N; reflexivity.
  - cbn [app is_prefix]. destruct (58 =? c)%N, (42 =? d)%N; reflexivity.
  - exact H1.
Qed.

Lemma title_finding (t b : jsstring) : title (finding t b) = t.
Proof. unfold finding. repeat destruct (_ || _); try destruct (includes _ _); reflexivity. Qed.

Lemma body_finding (t b : jsstring) : body (finding t b) = b.
Proof. unfold finding. repeat destruct (_ || _); try destruct (includes _ _); reflexivity. Qed.

(** An item made of a title, the closing marker and a body splits into the
    two. *)
Lemma parseItem_item (t b : jsstring) :
  includes t (lit ":**") = false ->
  includes b (lit ":**") = false ->
  parseItem (t ++ lit ":**" ++ b) = Some (finding (trim t) (trim b)).
Proof.
  intros Ht Hb. unfold parseItem.
  rewrite (split_cut _ _ _ _ lit_bold_nonempty
             (find_sep_app _ _ b lit_bold_nonempty (bold_no_overlap _ Ht))).
  rewrite (split_whole _ _ lit_bold_nonempty
             (find_sep_none _ _ lit_bold_nonempty Hb)).
  reflexivity.
Qed.

(** Such an item is kept by the filter on blank items. *)
Lemma item_not_blank (t b : jsstring) :
  (0 <? length (trim (t ++ lit ":**" ++ b)))%nat = true.
Proof.
  destruct (trim (t ++ lit ":**" ++ b)) eqn:E; [|reflexivity].
  apply trim_nil in E. rewrite !forallb_app in E.
  apply andb_true_iff in E as [_ E]. apply andb_true_iff in E as [E _].
  discriminate E.
Qed.

(** Splitting at the bullet marker gives the text before the first marker
    and then one item per segment. *)
Lemma split_bullets (segs : list (jsstring * jsstring)) (x : jsstring) :
  includes (x ++ lit "* *") (lit "* **") = false ->
  Forall (fun s => well_formed s = true) segs ->
  split (x ++ segments_text segs) (lit "* **") = x :: map item_text segs.
Proof.
  revert x. induction segs as [|s segs IH]; intros x Hx Hwf.
  - change (segments_text []) with (@nil code_unit). rewrite app_nil_r.
    apply split_whole; [exact lit_bullet_nonempty|].
    apply find_sep_none; [exact lit_bullet_nonempty|].
    now apply includes_app_false in Hx.
  - inversion Hwf as [|? ? Hs Hrest]; subst.
    unfold well_formed in Hs.
    apply andb_true_iff in Hs as [_ Hs]. apply negb_true_iff in Hs.
    replace (x ++ segments_text (s :: segs))
      with (x ++ lit "* **" ++ (item_text s ++ segments_text segs)).
    + rewrite (split_cut _ _ _ _ lit_bullet_nonempty
                 (find_sep_app _ _ _ lit_bullet_nonempty Hx)).
      change (map item_text (s :: segs)) with (item_text s :: map item_text segs).
      f_equal. apply IH; [|exact Hrest].
      unfold item_text. now rewrite <- !app_assoc.
    + change (segments_text (s :: segs))
        with (segment_text s ++ segments_text segs).
      unfold item_text, segment_text. now rewrite <- !app_assoc.
Qed.

Lemma parse_items (segs : list (jsstring * jsstring)) :
  Forall (fun s => well_formed s = true) segs ->
  filter_Boolean
    (map parseItem
       (filter (fun item => (0 <? length (trim item))%nat) (map item_text segs)))
  = map (fun s => finding (trim (fst s)) (trim (snd s))) segs.
Proof.
  induction 1 as [|s segs Hs _ IH]; [reflexivity|].
  simpl. unfold item_text at 1. rewrite item_not_blank. simpl.
  unfold well_formed in Hs.
  apply andb_true_iff in Hs as [Hs _]. apply andb_true_iff in Hs as [Ht Hb].
  apply negb_true_iff in Ht, Hb.
  unfold item_text at 1. rewrite (parseItem_item _ _ Ht Hb). simpl.
  now rewrite IH.
Qed.

(** C1, as the code has it. For a text made of well-formed segments
    [* **<title>:**<body>], [parseFindings] gives exactly one entry per
    segment, in order; the entry's title is the segment's title and its body
    the segment's body, each with the white space at both ends trimmed
    off. *)
Theorem parseFindings_trims_segments (segs : list (jsstring * jsstring)) :
  Forall (fun s => well_formed s = true) segs ->
  parseFindings (segments_text segs)
  = map (fun s => finding (trim (fst s)) (trim (snd s))) segs
  /\ length (parseFindings (segments_text segs)) = length segs
  /\ map title (parseFindings (segments_text segs)) = map (fun s => trim (fst s)) segs
  /\ map body (parseFindings (segments_text segs)) = map (fun s => trim (snd s)) segs.
Proof.
  intros Hwf.
  assert (H : parseFindings (segments_text segs)
              = map (fun s => finding (trim (fst s)) (trim (snd s))) segs).
  { unfold parseFindings.
    change (segments_text segs) with ([] ++ segments_text segs).
    rewrite (split_bullets segs [] eq_refl Hwf).
    change (filter _ ([] :: map item_text segs))
      with (filter (fun item => (0 <? length (trim item))%nat) (map item_text segs)).
    now apply parse_items. }
  rewrite H. split; [reflexivity|]. split; [apply length_map|].
  rewrite !map_map. split; apply map_ext; intros s.
  - apply title_finding.
  - apply body_finding.
Qed.

Lemma parseFindings_trims_segments_witness :
  let segs := [ (lit "Restrictive Physiology and Volume Loss",
                 lit " Total lung volume decreased by 13.1% (550 mL). ");
                (lit "Interstitial Stiffness Progression",
                 lit " The stiffness index increased (2.1 to 6.8).") ] in
  Forall (fun s => well_formed s = true) segs
  /\ map title (parseFindings (segments_text segs))
     = map (fun s => trim (fst s)) segs
  /\ map body (parseFindings (segments_text segs))
     = map (fun s => trim (snd s)) segs.
Proof.
  cbv zeta.
  match goal with
  | |- Forall _ ?l /\ _ =>
      assert (Hwf : Forall (fun s => well_formed s = true) l)
        by (repeat constructor)
  end.
  split; [exact Hwf|].
  exact (proj2 (proj2 (parseFindings_trims_segments _ Hwf))).
Defined.

(** C1 as stated fails: the body of a well-formed segment that begins with
    a space, as the bodies the application is written for do, is shown
    without that space, not verbatim. *)
Lemma parseFindings_body_not_verbatim :
  let seg := (lit "Stiffness", lit " The index rose.") in
  well_formed seg = true
  /\ map body (parseFindings (segments_text [seg])) = [lit "The index rose."]
  /\ eqb (lit "The index rose.") (snd seg) = false.
Proof. cbv zeta. split; [|split]; vm_compute; reflexivity. Qed.

(** When neither title nor body has white space at its ends, the entry
    holds them verbatim. *)
Lemma trim_id (s : jsstring) :
  match s with [] => true | c :: _ => negb (is_ws c) end = true ->
  match rev s with [] => true | c :: _ => negb (is_ws c) end = true ->
  trim s = s.
Proof.
  unfold trim, trimEnd, trimStart. intros H1 H2.
  assert (E : dropWhile is_ws s = s).
  { destruct s as [|c s]; [reflexivity|]. apply negb_true_iff in H1.
    now apply dropWhile_id. }
  rewrite E.
  assert (E' : dropWhile is_ws (rev s) = rev s).
  { destruct (rev s) as [|c r]; [reflexivity|]. apply negb_true_iff in H2.
    now apply dropWhile_id. }
  rewrite E'. apply rev_involutive.
Qed.

End FindingsFacts.

(** ** Patterns *)

Module RegexFacts.
Import Js Regex JsFacts.

Lemma is_prefix_true (p s : jsstring) :
  is_prefix p s = true -> s = p ++ skipn (length p) s.
Proof.
  revert s; induction p as [|c p IH]; intros [|d s]; simpl; try congruence.
  intros H. apply andb_true_iff in H as [Hc Hp].
  apply N.eqb_eq in Hc. subst d. f_equal. now apply IH.
Qed.

Lemma digits0_sound (t rest : jsstring) :
  In rest (digits0 t) -> exists m, t = m ++ rest /\ forallb is_digit m = true.
Proof.
  revert rest; induction t as [|c t IH]; intros rest; simpl.
  - intros [<- | []]. now exists [].
  - destruct (is_digit c) eqn:Hc.
    + intros H. apply in_app_or in H as [H | [<- | []]].
      * destruct (IH _ H) as (m & -> & Hm). exists (c :: m). simpl.
        now rewrite Hc, Hm.
      * now exists [].
    + intros [<- | []]. now exists [].
Qed.

(** Every way the matcher finds is a text of the pattern at the start of
    the input. *)
Lemma ends_sound (r : regex) (t rest : jsstring) :
  In rest (ends r t) -> exists m, t = m ++ rest /\ lang r m.
Proof.
  revert t rest; induction r as [s | | | a IHa | a IHa b IHb | a IHa b IHb];
    intros t rest; simpl.
  - destruct (is_prefix s t) eqn:Hp; [|intros []].
    intros [<- | []]. exists s. split; [now apply is_prefix_true | constructor].
  - destruct t as [|c t]; [intros []|].
    destruct (is_digit c) eqn:Hc; [|intros []].
    intros H. destruct (digits0_sound _ _ H) as (m & -> & Hm).
    exists (c :: m). split; [reflexivity|].
    constructor; [discriminate | simpl; now rewrite Hc, Hm].
  - intros H. destruct (digits0_sound _ _ H) as (m & -> & Hm).
    exists m. split; [reflexivity | now constructor].
  - intros H. apply in_app_or in H as [H | [<- | []]].
    + destruct (IHa _ _ H) as (m & -> & Hm). exists m.
      split; [reflexivity | now apply lang_opt_some].
    + exists []. split; [reflexivity | apply lang_opt_none].
  - intros H. apply in_flat_map in H as (mid & Ha & Hb).
    destruct (IHa _ _ Ha) as (m1 & -> & H1).
    destruct (IHb _ _ Hb) as (m2 & -> & H2).
    exists (m1 ++ m2). split; [now rewrite app_assoc | now constructor].
  - intros H. apply in_app_or in H as [H | H].
    + destruct (IHa _ _ H) as (m & -> & Hm). exists m.
      split; [reflexivity | now apply lang_alt_l].
    + destruct (IHb _ _ H) as (m & -> & Hm). exists m.
      split; [reflexivity | now apply lang_alt_r].
Qed.

Lemma has_digit_app (a b : jsstring) :
  has_digit (a ++ b) = has_digit a || has_digit b.
Proof. apply existsb_app. Qed.

Lemma lang_needs_digit (r : regex) (m : jsstring) :
  lang r m -> needs_digit r = true -> has_digit m = true.
Proof.
  induction 1 as [s | m Hne Hm | m Hm | r m _ _ | r | a b m1 m2 _ IH1 _ IH2
                  | a b m _ IH | a b m _ IH]; simpl; intros Hn;
    try discriminate; auto.
  - destruct m as [|c m]; [congruence|]. simpl in *.
    apply andb_true_iff in Hm as [-> _]. reflexivity.
  - rewrite has_digit_app. apply orb_true_iff in Hn as [Hn | Hn];
      [rewrite (IH1 Hn) | rewrite (IH2 Hn)]; auto using orb_true_r.
  - apply andb_true_iff in Hn as [Hn _]. auto.
  - apply andb_true_iff in Hn as [_ Hn]. auto.
Qed.

(** What [match_here] returns: the input is the match followed by the
    rest, and the match is a text of the pattern. *)
Lemma match_here_sound (r : regex) (t m rest : jsstring) :
  match_here r t = Some (m, rest) -> t = m ++ rest /\ lang r m.
Proof.
  unfold match_here. destruct (ends r t) as [|rest' l] eqn:He; [discriminate|].
  intros [= <- <-].
  destruct (ends_sound r t rest') as (m & -> & Hm); [rewrite He; now left|].
  rewrite length_app, Nat.add_sub, firstn_app, Nat.sub_diag, firstn_all.
  simpl. rewrite app_nil_r. auto.
Qed.

(** What [find_match] returns: the input is cut in three, the middle one a
    text of the pattern; and where it finds nothing no position matches. *)
Lemma find_match_sound (r : regex) (t b m rest : jsstring) :
  find_match r t = Some (b, m, rest) -> t = b ++ m ++ rest /\ lang r m.
Proof.
  revert b; induction t as [|c t IH]; intros b; simpl.
  - destruct (match_here r []) as [[m' rest']|] eqn:Hm; [|discriminate].
    intros [= <- <- <-]. now apply match_here_sound in Hm.
  - destruct (match_here r (c :: t)) as [[m' rest']|] eqn:Hm.
    + intros [= <- <- <-]. now apply match_here_sound in Hm.
    + destruct (find_match r t) as [[[b' m'] rest']|]; [|discriminate].
      intros [= <- <- <-]. destruct (IH _ eq_refl) as [-> Hl]. auto.
Qed.

Lemma find_match_before (r : regex) (t b m rest : jsstring) :
  matches_at_digits r ->
  find_match r t = Some (b, m, rest) -> has_digit b = false.
Proof.
  intros Hr. revert b; induction t as [|c t IH]; intros b; simpl.
  - destruct (match_here r []) as [[m' rest']|]; [|discriminate].
    now intros [= <- <- <-].
  - destruct (match_here r (c :: t)) as [[m' rest']|] eqn:Hm.
    + now intros [= <- <- <-].
    + destruct (find_match r t) as [[[b' m'] rest']|]; [|discriminate].
      intros [= <- <- <-]. simpl. rewrite (IH _ eq_refl), orb_false_r.
      destruct (is_digit c) eqn:Hc; [|reflexivity].
      unfold match_here in Hm. specialize (Hr c t Hc).
      destruct (ends r (c :: t)); [congruence | discriminate].
Qed.

Lemma find_match_nowhere (r : regex) (t : jsstring) :
  matches_at_digits r -> find_match r t = None -> has_digit t = false.
Proof.
  intros Hr. induction t as [|c t IH]; simpl; [reflexivity|].
  destruct (match_here r (c :: t)) as [[m' rest']|] eqn:Hm; [discriminate|].
  destruct (find_match r t) as [[[b' m'] rest']|]; [discriminate|].
  intros _. rewrite (IH eq_refl), orb_false_r.
  destruct (is_digit c) eqn:Hc; [|reflexivity].
  unfold match_here in Hm. specialize (Hr c t Hc).
  destruct (ends r (c :: t)); [congruence | discriminate].
Qed.

(** A digit-free text holds no match. *)
Lemma find_match_digit_free (r : regex) (t : jsstring) :
  needs_digit r = true -> has_digit t = false -> find_match r t = None.
Proof.
  intros Hn Ht. destruct (find_match r t) as [[[b m] rest]|] eqn:Hf; [|reflexivity].
  destruct (find_match_sound _ _ _ _ _ Hf) as [-> Hl].
  apply lang_needs_digit in Hl; [|exact Hn].
  rewrite !has_digit_app, Hl, orb_true_r in Ht. discriminate.
Qed.

(** After a match of a pattern that needs a digit, less text is left. *)
Lemma find_match_shorter (r : regex) (t b m rest : jsstring) :
  needs_digit r = true ->
  find_match r t = Some (b, m, rest) -> (length rest < length t)%nat.
Proof.
  intros Hn Hf. destruct (find_match_sound _ _ _ _ _ Hf) as [-> Hl].
  apply lang_needs_digit in Hl; [|exact Hn].
  rewrite !length_app. destruct m; [discriminate|]. simpl. lia.
Qed.

End RegexFacts.

(** ** The findings display: [highlightNumbers] *)

Module HighlightFacts.
Import Js Regex Findings JsFacts RegexFacts.

Lemma metric_needs_digit : needs_digit metric = true.
Proof. reflexivity. Qed.

Lemma digits0_nonempty (t : jsstring) : digits0 t <> [].
Proof.
  destruct t as [|c t]; simpl; [discriminate|].
  destruct (is_digit c); [|discriminate].
  intros H. apply app_eq_nil in H as [_ H]. discriminate.
Qed.

Lemma flat_map_nonempty {A B : Type} (f : A -> list B) (l : list A) :
  l <> [] -> (forall a, f a <> []) -> flat_map f l <> [].
Proof.
  destruct l as [|a l]; [congruence|]. intros _ Hf. simpl.
  intros H. apply app_eq_nil in H as [H _]. now apply (Hf a).
Qed.

(** The last alternative, a bare number, matches at every digit. *)
Lemma number_at_digit (c : code_unit) (t : jsstring) :
  is_digit c = true -> ends number (c :: t) <> [].
Proof.
  intros Hc. unfold number.
  change (ends (Seq Digits1 (Seq (Opt (Lit (lit "."))) Digits0)) (c :: t))
    with (flat_map (ends (Seq (Opt (Lit (lit "."))) Digits0))
                   (ends Digits1 (c :: t))).
  apply flat_map_nonempty.
  - simpl. rewrite Hc. apply digits0_nonempty.
  - intros x.
    change (ends (Seq (Opt (Lit (lit "."))) Digits0) x)
      with (flat_map digits0 (ends (Lit (lit ".")) x ++ [x])).
    apply flat_map_nonempty; [|apply digits0_nonempty].
    intros H. apply app_eq_nil in H as [_ H]. discriminate.
Qed.

Lemma metric_matches_at_digits : matches_at_digits metric.
Proof.
  intros c t Hc H. unfold metric in H.
  change (ends (Alt ?a ?b) ?x) with (ends a x ++ ends b x) in H.
  apply app_eq_nil in H as [_ H].
  change (ends (Alt ?a ?b) ?x) with (ends a x ++ ends b x) in H.
  apply app_eq_nil in H as [_ H].
  change (ends (Alt ?a ?b) ?x) with (ends a x ++ ends b x) in H.
  apply app_eq_nil in H as [_ H].
  now apply (number_at_digit c t Hc).
Qed.

Lemma even_index (j : nat) : Nat.eqb ((2 * j) mod 2) 1 = false.
Proof. now rewrite Nat.mul_comm, Nat.Div0.mod_mul. Qed.

Lemma odd_index (j : nat) : Nat.eqb ((S (2 * j)) mod 2) 1 = true.
Proof.
  replace (S (2 * j)) with (1 + j * 2)%nat by lia.
  now rewrite Nat.Div0.mod_add.
Qed.

(** The callback of [parts.map], run with the array of [match] over the
    array of [split], gives the nodes of the leftmost matches: the counter
    [matchIndex] always points at the match that stands at the odd index. *)
Lemma render_parts_nodes (r : regex) (fuel : nat) (t : jsstring) (j : nat)
    (ms0 : list jsstring) :
  render_parts (ms0 ++ matches_fuel fuel r t) (2 * j) (length ms0)
               (split_re_fuel fuel r t)
  = Some (nodes_fuel fuel r t (2 * j)).
Proof.
  revert t j ms0; induction fuel as [|fuel IH]; intros t j ms0.
  - simpl split_re_fuel. simpl nodes_fuel. unfold render_parts.
    now rewrite even_index.
  - simpl split_re_fuel. simpl nodes_fuel. simpl matches_fuel.
    destruct (find_match r t) as [[[b m] rest]|].
    + unfold render_parts; fold render_parts.
      rewrite even_index, odd_index.
      rewrite nth_error_app2, Nat.sub_diag by lia. simpl nth_error.
      replace (ms0 ++ m :: matches_fuel fuel r rest)
        with ((ms0 ++ [m]) ++ matches_fuel fuel r rest)
        by now rewrite <- app_assoc.
      replace (S (length ms0)) with (length (ms0 ++ [m]))
        by (rewrite length_app; simpl; lia).
      replace (S (S (2 * j))) with (2 * S j)%nat by lia.
      rewrite IH.
      replace (2 * S j)%nat with (S (S (2 * j))) by lia.
      reflexivity.
    + unfold render_parts. now rewrite even_index.
Qed.

(** The rendered fragments, put together in order, are the text. *)
Lemma nodes_text (r : regex) (fuel : nat) (t : jsstring) (i : nat) :
  concat (map node_text (nodes_fuel fuel r t i)) = t.
Proof.
  revert t i; induction fuel as [|fuel IH]; intros t i; simpl.
  - apply app_nil_r.
  - destruct (find_match r t) as [[[b m] rest]|] eqn:Hf; simpl.
    + destruct (find_match_sound _ _ _ _ _ Hf) as [-> _].
      rewrite IH. now destruct (has_digit m).
    + apply app_nil_r.
Qed.

(** The spans are the matches, in order. *)
Lemma nodes_spans (r : regex) (fuel : nat) (t : jsstring) (i : nat) :
  needs_digit r = true ->
  spans (nodes_fuel fuel r t i) = matches_fuel fuel r t.
Proof.
  intros Hn. revert t i; induction fuel as [|fuel IH]; intros t i; simpl.
  - reflexivity.
  - destruct (find_match r t) as [[[b m] rest]|] eqn:Hf; [|reflexivity].
    destruct (find_match_sound _ _ _ _ _ Hf) as [_ Hl].
    rewrite (lang_needs_digit _ _ Hl Hn).
    unfold spans in *. simpl. now rewrite IH.
Qed.

(** With enough rounds every span holds a text of the pattern and no digit
    is left in plain text. *)
Lemma nodes_ok (r : regex) (fuel : nat) (t : jsstring) (i : nat) :
  needs_digit r = true -> matches_at_digits r ->
  (length t < fuel)%nat ->
  Forall (node_ok r) (nodes_fuel fuel r t i).
Proof.
  intros Hn Hd. revert t i; induction fuel as [|fuel IH]; intros t i Hlen; [lia|].
  simpl. destruct (find_match r t) as [[[b m] rest]|] eqn:Hf.
  - destruct (find_match_sound _ _ _ _ _ Hf) as [_ Hl].
    pose proof (find_match_shorter _ _ _ _ _ Hn Hf) as Hs.
    rewrite (lang_needs_digit _ _ Hl Hn).
    constructor; [exact (find_match_before _ _ _ _ _ Hd Hf)|].
    constructor; [exact Hl|]. apply IH. lia.
  - constructor; [exact (find_match_nowhere _ _ Hd Hf) | constructor].
Qed.

(** The sentence of the hard-coded analysis, as it is rendered. *)
Example highlightNumbers_sample :
  highlightNumbers (lit "decreased by 13.1% (550 mL), from 0.85 to 0.58")
  = Nodes [ Text (lit "decreased by "); Span 1 (lit "13.1%");
            Text (lit " ("); Span 3 (lit "550 mL");
            Text (lit "), "); Span 5 (lit "from 0.85 to 0.58");
            Text [] ].
Proof. vm_compute. reflexivity. Qed.

End HighlightFacts.

(** ** The findings display: what [highlightNumbers] highlights *)

Module LeftmostFacts.
Import Js Regex Findings Leftmost JsFacts RegexFacts HighlightFacts.

(** *** The matcher finds every text of the pattern *)

Lemma digits0_self (t : jsstring) : In t (digits0 t).
Proof.
  destruct t as [|c t]; simpl; [now left|].
  destruct (is_digit c); [apply in_or_app; right|]; now left.
Qed.

Lemma digits0_complete (m rest : jsstring) :
  forallb is_digit m = true -> In rest (digits0 (m ++ rest)).
Proof.
  induction m as [|c m IH]; simpl; intros Hm; [apply digits0_self|].
  apply andb_true_iff in Hm as [Hc Hm]. rewrite Hc.
  apply in_or_app. left. now apply IH.
Qed.

Lemma ends_complete (r : regex) (m : jsstring) :
  lang r m -> forall rest, In rest (ends r (m ++ rest)).
Proof.
  induction 1 as [s | m Hne Hm | m Hm | r m _ IH | r | a b m1 m2 _ IH1 _ IH2
                  | a b m _ IH | a b m _ IH]; intros rest; cbn [ends].
  - rewrite is_prefix_app, skipn_length_app. now left.
  - destruct m as [|c m]; [congruence|]. cbn in Hm |- *.
    apply andb_true_iff in Hm as [Hc Hm]. rewrite Hc.
    now apply digits0_complete.
  - now apply digits0_complete.
  - apply in_or_app. left. apply IH.
  - apply in_or_app. right. now left.
  - apply in_flat_map. exists (m2 ++ rest). split.
    + rewrite <- app_assoc. apply IH1.
    + apply IH2.
  - apply in_or_app. left. apply IH.
  - apply in_or_app. right. apply IH.
Qed.

Lemma ends_nil_none (r : regex) (t : jsstring) :
  ends r t = [] -> none_begins r t.
Proof.
  intros He m [Hl [rest ->]].
  pose proof (ends_complete r m Hl rest) as Hin. now rewrite He in Hin.
Qed.

Lemma ends_begins (r : regex) (t rest : jsstring) :
  In rest (ends r t) ->
  begins r t (firstn (length t - length rest) t)
  /\ t = firstn (length t - length rest) t ++ rest.
Proof.
  intros Hin. destruct (ends_sound r t rest Hin) as (m & -> & Hl).
  rewrite length_app, Nat.add_sub, firstn_app, Nat.sub_diag, firstn_all.
  cbn [firstn]. rewrite app_nil_r. split; [|reflexivity].
  split; [exact Hl | now exists rest].
Qed.


(** *** The longest number at the start of a text *)

Lemma dropWhile_app_all (p : code_unit -> bool) (d x : jsstring) :
  forallb p d = true -> dropWhile p (d ++ x) = dropWhile p x.
Proof.
  induction d as [|c d IH]; simpl; intros Hd; [reflexivity|].
  apply andb_true_iff in Hd as [Hc Hd]. rewrite Hc. now apply IH.
Qed.

Lemma dropWhile_length (p : code_unit -> bool) (x : jsstring) :
  length (dropWhile p x) <= length x.
Proof.
  induction x as [|c x IH]; simpl; [lia|]. destruct (p c); simpl; lia.
Qed.

Lemma digits0_hd (t : jsstring) :
  exists l, digits0 t = dropWhile is_digit t :: l.
Proof.
  induction t as [|c t [l IH]]; simpl; [now exists []|].
  destruct (is_digit c); [|now exists []].
  rewrite IH. now exists (l ++ [c :: t]).
Qed.

Lemma flat_map_hd {A B : Type} (f : A -> list B) (l : list A) (y : B)
    (ys : list B) :
  flat_map f l = y :: ys -> exists x ys', In x l /\ f x = y :: ys'.
Proof.
  induction l as [|a l IH]; simpl; [discriminate|].
  destruct (f a) as [|z zs] eqn:Hf; simpl.
  - intros H. destruct (IH H) as (x & ys' & Hin & Hx). exists x, ys'. auto.
  - intros [= <- _]. exists a, zs. auto.
Qed.

(** The first way the matcher finds a number takes every digit, the point
    if one follows, and every digit after it. *)
Lemma number_hd (t rest : jsstring) (l : list jsstring) :
  ends number t = rest :: l ->
  exists c t',
    t = c :: t' /\ is_digit c = true
    /\ rest = dropWhile is_digit
                match dropWhile is_digit t' with
                | d :: x => if (46 =? d)%N then x else d :: x
                | [] => []
                end.
Proof.
  unfold number.
  change (ends (Seq Digits1 (Seq (Opt (Lit (lit "."))) Digits0)) t)
    with (flat_map (ends (Seq (Opt (Lit (lit "."))) Digits0)) (ends Digits1 t)).
  destruct t as [|c t']; [discriminate|].
  cbn [ends]. destruct (is_digit c) eqn:Hc; [|discriminate].
  intros H. exists c, t'. split; [reflexivity|]. split; [exact Hc|].
  destruct (digits0_hd t') as [l0 Hd]. rewrite Hd in H.
  cbn [flat_map] in H.
  set (x0 := dropWhile is_digit t') in *.
  destruct x0 as [|d x].
  - cbn in H. now injection H as <- _.
  - change (is_prefix (lit ".") (d :: x)) with ((46 =? d)%N && true) in H.
    rewrite andb_true_r in H.
    destruct (46 =? d)%N.
    + cbn [app flat_map skipn length lit] in H.
      change (skipn (length (lit ".")) (d :: x)) with x in H.
      cbn [app flat_map] in H.
      destruct (digits0_hd x) as [l1 H1]. rewrite H1 in H.
      now injection H as <- _.
    + cbn [app flat_map] in H.
      destruct (digits0_hd (d :: x)) as [l1 H1]. rewrite H1 in H.
      now injection H as <- _.
Qed.

Lemma lit_inv (s m : jsstring) : lang (Lit s) m -> m = s.
Proof. now inversion 1. Qed.

Lemma seq_inv (a b : regex) (m : jsstring) :
  lang (Seq a b) m -> exists m1 m2, m = m1 ++ m2 /\ lang a m1 /\ lang b m2.
Proof. inversion 1; subst. eauto. Qed.

Lemma number_shape (m : jsstring) :
  lang number m ->
  exists c d1 o d2,
    m = (c :: d1) ++ o ++ d2
    /\ is_digit c = true /\ forallb is_digit d1 = true
    /\ (o = [] \/ o = [46%N])
    /\ forallb is_digit d2 = true.
Proof.
  unfold number. intros H.
  apply seq_inv in H as (m1 & m2 & -> & H1 & H2).
  apply seq_inv in H2 as (o & d2 & -> & Ho & H2).
  inversion H1 as [ | ? Hne Hd | | | | | | ]; subst.
  inversion H2 as [ | | ? Hd2 | | | | | ]; subst.
  destruct m1 as [|c d1]; [congruence|].
  cbn in Hd. apply andb_true_iff in Hd as [Hc Hd1].
  exists c, d1, o, d2. repeat split; auto.
  inversion Ho as [ | | | ? ? Hl | | | | ]; subst; [|now left].
  apply lit_inv in Hl. subst. right. reflexivity.
Qed.

Lemma number_units (m : jsstring) :
  lang number m -> forallb number_unit m = true.
Proof.
  intros H. destruct (number_shape m H) as (c & d1 & o & d2 & -> & Hc & H1 & Ho & H2).
  assert (Hd : forall d, forallb is_digit d = true -> forallb number_unit d = true).
  { intros d Hd. rewrite forallb_forall in *. intros u Hu.
    unfold number_unit. now rewrite (Hd u Hu). }
  cbn [app forallb]. rewrite !forallb_app. unfold number_unit at 1. rewrite Hc.
  rewrite (Hd _ H1), (Hd _ H2). destruct Ho as [-> | ->]; reflexivity.
Qed.

Lemma number_longest (t rest : jsstring) (l : list jsstring) :
  ends number t = rest :: l ->
  forall m', begins number t m' -> length m' + length rest <= length t.
Proof.
  intros He m' [Hl [r' Ht]].
  destruct (number_hd _ _ _ He) as (c & t' & -> & Hc & ->).
  destruct (number_shape m' Hl) as (c' & d1 & o & d2 & -> & _ & H1 & Ho & H2).
  cbn [app] in Ht. injection Ht as <- ->.
  rewrite <- !app_assoc. rewrite (dropWhile_app_all _ _ _ H1).
  cbn [length]. rewrite !length_app.
  destruct Ho as [-> | ->].
  - cbn [app]. rewrite (dropWhile_app_all _ _ _ H2).
    pose proof (dropWhile_length is_digit r') as Hr.
    destruct (dropWhile is_digit r') as [|d x]; cbn [length] in *.
    + cbn. lia.
    + destruct (46 =? d)%N.
      * pose proof (dropWhile_length is_digit x). lia.
      * pose proof (dropWhile_length is_digit (d :: x)). cbn [length] in *. lia.
  - cbn [app dropWhile]. change (is_digit 46%N) with false. cbn iota.
    change (46 =? 46)%N with true. cbn iota.
    rewrite (dropWhile_app_all _ _ _ H2).
    pose proof (dropWhile_length is_digit r'). cbn [length]. lia.
Qed.

(** *** A number up to a unit that no number holds *)

Lemma split_at_first (n n' : jsstring) (a a' : code_unit) (x x' : jsstring) :
  forallb number_unit n = true -> forallb number_unit n' = true ->
  number_unit a = false -> number_unit a' = false ->
  n ++ a :: x = n' ++ a' :: x' -> n = n' /\ x = x'.
Proof.
  revert n'. induction n as [|c n IH]; intros [|c' n'] Hn Hn' Ha Ha'; cbn.
  - now intros [= _ ->].
  - intros [= -> _]. cbn in Hn'. now rewrite Ha in Hn'.
  - intros [= -> _]. cbn in Hn. now rewrite Ha' in Hn.
  - intros [= -> H]. cbn in Hn, Hn'.
    apply andb_true_iff in Hn as [_ Hn]. apply andb_true_iff in Hn' as [_ Hn'].
    destruct (IH n' Hn Hn' Ha Ha' H) as [-> ->]. auto.
Qed.

Lemma suffixed_longest (a : code_unit) (s t rest : jsstring)
    (l : list jsstring) :
  number_unit a = false ->
  ends (Seq number (Lit (a :: s))) t = rest :: l ->
  forall m', begins (Seq number (Lit (a :: s))) t m' ->
             length m' + length rest <= length t.
Proof.
  intros Ha He m' [Hl [r' Ht]].
  destruct (ends_sound (Seq number (Lit (a :: s))) t rest) as (m & Hm & Hlm);
    [rewrite He; now left|].
  apply seq_inv in Hlm as (n & s1 & -> & Hn & Hs1). apply lit_inv in Hs1. subst s1.
  apply seq_inv in Hl as (n' & s2 & -> & Hn' & Hs2). apply lit_inv in Hs2. subst s2.
  rewrite Hm in Ht. rewrite <- !app_assoc in Ht. cbn [app] in Ht.
  destruct (split_at_first _ _ _ _ _ _ (number_units _ Hn) (number_units _ Hn')
              Ha Ha Ht) as [-> _].
  rewrite Hm, !length_app. lia.
Qed.

Lemma range_longest (t rest : jsstring) (l : list jsstring) :
  ends range t = rest :: l ->
  forall m', begins range t m' -> length m' + length rest <= length t.
Proof.
  unfold range. intros He m' [Hl [r' Ht]].
  change (ends (Seq (Lit (lit "from ")) ?b) t)
    with (flat_map (ends b) (ends (Lit (lit "from ")) t)) in He.
  apply flat_map_hd in He as (x & l1 & Hx & He).
  apply ends_sound in Hx as (f & Hf & Hlf). apply lit_inv in Hlf. subst f.
  change (ends (Seq number ?b) x) with (flat_map (ends b) (ends number x)) in He.
  apply flat_map_hd in He as (x1 & l2 & Hx1 & He).
  apply ends_sound in Hx1 as (n1 & Hn1 & Hln1).
  change (ends (Seq (Lit (lit " to ")) number) x1)
    with (flat_map (ends number) (ends (Lit (lit " to ")) x1)) in He.
  apply flat_map_hd in He as (x2 & l3 & Hx2 & He).
  apply ends_sound in Hx2 as (g & Hg & Hlg). apply lit_inv in Hlg. subst g.
  apply seq_inv in Hl as (f & m1 & -> & Hlf & Hl). apply lit_inv in Hlf. subst f.
  apply seq_inv in Hl as (n1' & m2 & -> & Hln1' & Hl).
  apply seq_inv in Hl as (g & n2' & -> & Hlg & Hln2'). apply lit_inv in Hlg. subst g.
  rewrite Hf, Hn1, Hg in Ht. rewrite <- !app_assoc in Ht.
  apply app_inv_head in Ht.
  change (lit " to ") with (32%N :: lit "to ") in Ht. cbn [app] in Ht.
  destruct (split_at_first n1 n1' 32%N 32%N _ _ (number_units _ Hln1)
              (number_units _ Hln1') eq_refl eq_refl Ht) as [-> Hrest].
  apply app_inv_head in Hrest.
  assert (Hb : begins number x2 n2') by (split; [exact Hln2' | now exists r']).
  pose proof (number_longest _ _ _ He n2' Hb) as Hlen.
  rewrite Hf, Hn1, Hg, Hrest. rewrite Hrest in Hlen.
  rewrite !length_app in *. lia.
Qed.


(** *** The match at a position *)

Lemma kind_first_longest (before : list regex) (k : regex) (after : list regex)
    (t rest : jsstring) (l : list jsstring) :
  kinds = before ++ k :: after ->
  Forall (fun r => ends r t = []) before ->
  ends k t = rest :: l ->
  (forall m', begins k t m' -> length m' + length rest <= length t) ->
  t = firstn (length t - length rest) t ++ rest
  /\ first_longest t (firstn (length t - length rest) t).
Proof.
  intros Hk Hb He Hlong.
  destruct (ends_begins k t rest) as [Hbeg Ht]; [rewrite He; now left|].
  split; [exact Ht|].
  exists before, k, after. split; [exact Hk|]. split.
  - eapply Forall_impl; [|exact Hb]. intros r Hr. now apply ends_nil_none.
  - split; [exact Hbeg|]. intros m' Hm'. specialize (Hlong m' Hm').
    apply (f_equal (@length code_unit)) in Ht. rewrite length_app in Ht. lia.
Qed.

Lemma metric_match (t m rest : jsstring) :
  match_here metric t = Some (m, rest) -> t = m ++ rest /\ first_longest t m.
Proof.
  unfold match_here.
  change (ends metric t)
    with (ends percentage t ++ ends millilitres t ++ ends range t
          ++ ends number t).
  destruct (ends percentage t) as [|r1 l1] eqn:E1.
  - destruct (ends millilitres t) as [|r2 l2] eqn:E2.
    + destruct (ends range t) as [|r3 l3] eqn:E3.
      * destruct (ends number t) as [|r4 l4] eqn:E4; [discriminate|].
        cbn [app]. intros [= <- <-].
        apply (kind_first_longest [percentage; millilitres; range] number []
                 t r4 l4 eq_refl); [repeat constructor; assumption | exact E4 |].
        intros m' Hm'. exact (number_longest _ _ _ E4 m' Hm').
      * cbn [app]. intros [= <- <-].
        apply (kind_first_longest [percentage; millilitres] range [number]
                 t r3 l3 eq_refl); [repeat constructor; assumption | exact E3 |].
        intros m' Hm'. exact (range_longest _ _ _ E3 m' Hm').
    + cbn [app]. intros [= <- <-].
      apply (kind_first_longest [percentage] millilitres [range; number]
               t r2 l2 eq_refl); [repeat constructor; assumption | exact E2 |].
      intros m' Hm'.
      exact (suffixed_longest 32%N (lit "mL") _ _ _ eq_refl E2 m' Hm').
  - cbn [app]. intros [= <- <-].
    apply (kind_first_longest [] percentage [millilitres; range; number]
             t r1 l1 eq_refl); [constructor | exact E1 |].
    intros m' Hm'.
    exact (suffixed_longest 37%N [] _ _ _ eq_refl E1 m' Hm').
Qed.

Lemma match_here_none (r : regex) (t : jsstring) :
  match_here r t = None -> none_begins r t.
Proof.
  unfold match_here. intros H. apply ends_nil_none.
  now destruct (ends r t).
Qed.

(** The leftmost match: no match begins before it, and it is the first
    and longest where it begins. *)
Lemma find_match_scan (t b m rest : jsstring) :
  find_match metric t = Some (b, m, rest) ->
  t = b ++ m ++ rest
  /\ unmatched b (m ++ rest)
  /\ first_longest (m ++ rest) m.
Proof.
  revert b. induction t as [|c t IH]; intros b; cbn [find_match].
  - destruct (match_here metric []) as [[m' rest']|] eqn:Hm; [|discriminate].
    intros [= <- <- <-]. destruct (metric_match _ _ _ Hm) as [Ht Hfl].
    split; [exact Ht|]. split; [|now rewrite <- Ht].
    intros b1 b2 Hb. now destruct b1, b2.
  - destruct (match_here metric (c :: t)) as [[m' rest']|] eqn:Hm.
    + intros [= <- <- <-]. destruct (metric_match _ _ _ Hm) as [Ht Hfl].
      split; [exact Ht|]. split; [|now rewrite <- Ht].
      intros b1 b2 Hb. now destruct b1, b2.
    + destruct (find_match metric t) as [[[b' m'] rest']|]; [|discriminate].
      intros [= <- <- <-]. destruct (IH _ eq_refl) as (Ht & Hu & Hfl).
      split; [now rewrite Ht|]. split; [|exact Hfl].
      intros b1 b2 Hb Hne. destruct b1 as [|c1 b1]; cbn [app] in Hb.
      * subst b2. cbn [app]. rewrite <- Ht. now apply match_here_none.
      * injection Hb as _ Hb. now apply (Hu b1 b2).
Qed.

Lemma find_match_none_unmatched (t : jsstring) :
  find_match metric t = None -> unmatched t [].
Proof.
  induction t as [|c t IH]; cbn [find_match].
  - intros _ b1 b2 Hb. now destruct b1, b2.
  - destruct (match_here metric (c :: t)) as [[m' rest']|] eqn:Hm; [discriminate|].
    destruct (find_match metric t) as [[[b' m'] rest']|]; [discriminate|].
    intros _ b1 b2 Hb Hne. destruct b1 as [|c1 b1]; cbn [app] in Hb.
    + subst b2. rewrite app_nil_r. now apply match_here_none.
    + injection Hb as _ Hb. now apply (IH eq_refl b1 b2).
Qed.

(** The nodes read off the leftmost matches are the fragments of the
    scan. *)
Lemma nodes_scanned (fuel : nat) (t : jsstring) (i : nat) :
  length t < fuel -> scanned i t (nodes_fuel fuel metric t i).
Proof.
  revert t i. induction fuel as [|fuel IH]; intros t i Hlen; [lia|].
  cbn [nodes_fuel].
  destruct (find_match metric t) as [[[b m] rest]|] eqn:Hf.
  - destruct (find_match_scan _ _ _ _ Hf) as (Ht & Hu & Hfl).
    destruct (find_match_sound _ _ _ _ _ Hf) as [_ Hl].
    pose proof (find_match_shorter _ _ _ _ _ metric_needs_digit Hf) as Hs.
    rewrite (lang_needs_digit _ _ Hl metric_needs_digit).
    apply (scanned_match i t b m rest); auto. apply IH. lia.
  - apply scanned_end. now apply find_match_none_unmatched.
Qed.

(** *** The scan has one outcome *)

Lemma kinds_split (before : list regex) (k : regex) (after : list regex) :
  kinds = before ++ k :: after ->
  (before = [] /\ k = percentage)
  \/ (before = [percentage] /\ k = millilitres)
  \/ (before = [percentage; millilitres] /\ k = range)
  \/ (before = [percentage; millilitres; range] /\ k = number).
Proof.
  unfold kinds. intros H.
  destruct before as [|x1 before]; cbn [app] in H.
  { injection H as <- _. auto. }
  injection H as <- H.
  destruct before as [|x2 before]; cbn [app] in H.
  { injection H as <- _. auto. }
  injection H as <- H.
  destruct before as [|x3 before]; cbn [app] in H.
  { injection H as <- _. auto. }
  injection H as <- H.
  destruct before as [|x4 before]; cbn [app] in H.
  { injection H as <- _. auto 6. }
  injection H as _ H. now destruct before.
Qed.

Lemma kind_metric (k : regex) (m : jsstring) :
  In k kinds -> lang k m -> lang metric m.
Proof.
  unfold kinds, metric. intros [<- | [<- | [<- | [<- | []]]]] H.
  - now apply lang_alt_l.
  - now apply lang_alt_r, lang_alt_l.
  - now apply lang_alt_r, lang_alt_r, lang_alt_l.
  - now apply lang_alt_r, lang_alt_r, lang_alt_r.
Qed.

Lemma first_longest_begins (t m : jsstring) :
  first_longest t m -> begins metric t m /\ m <> [].
Proof.
  intros (before & k & after & Hk & _ & [Hl Hp] & _).
  assert (Hm : lang metric m).
  { apply (kind_metric k); [|exact Hl]. rewrite Hk. apply in_elt. }
  split; [now split|].
  intros ->. now apply lang_needs_digit in Hm.
Qed.

Lemma same_length_prefix {A : Type} (m m' r r' : list A) :
  m ++ r = m' ++ r' -> length m = length m' -> m = m' /\ r = r'.
Proof.
  revert m'. induction m as [|a m IH]; intros [|a' m']; cbn;
    try discriminate; [auto|].
  intros [= -> H] [= Hlen]. destruct (IH m' H Hlen) as [-> ->]. auto.
Qed.

Lemma first_longest_unique (t m m' : jsstring) :
  first_longest t m -> first_longest t m' -> m = m'.
Proof.
  intros (b1 & k1 & a1 & Hk1 & Hn1 & Hb1 & Hl1)
         (b2 & k2 & a2 & Hk2 & Hn2 & Hb2 & Hl2).
  assert (Hk : k1 = k2).
  { destruct (kinds_split _ _ _ Hk1) as [[-> ->]|[[-> ->]|[[-> ->]|[-> ->]]]];
    destruct (kinds_split _ _ _ Hk2) as [[-> ->]|[[-> ->]|[[-> ->]|[-> ->]]]];
    try reflexivity; exfalso;
    repeat match goal with
           | H : Forall _ (_ :: _) |- _ => inversion H; clear H; subst
           end;
    match goal with
    | Hn : none_begins ?k t, Hb : begins ?k t _ |- _ => exact (Hn _ Hb)
    end. }
  subst k2.
  pose proof (Hl1 _ Hb2). pose proof (Hl2 _ Hb1).
  destruct Hb1 as [_ [r1 Ht1]]. destruct Hb2 as [_ [r2 Ht2]].
  rewrite Ht1 in Ht2. apply same_length_prefix in Ht2; [tauto | lia].
Qed.

Lemma scanned_unique (i : nat) (t : jsstring) (ns : list Node) :
  scanned i t ns -> forall ns', scanned i t ns' -> ns' = ns.
Proof.
  induction 1 as [i t Hu | i t b m rest ns Ht Hu Hfl Hs IH]; intros ns' H';
    inversion H' as [i' t' Hu' | i' t' b' m' rest' ns2 Ht' Hu' Hfl' Hs']; subst.
  - reflexivity.
  - exfalso. destruct (first_longest_begins _ _ Hfl') as [Hb Hne].
    assert (Hne2 : m' ++ rest' <> []) by now destruct m'.
    pose proof (Hu b' (m' ++ rest') eq_refl Hne2) as Hnb.
    rewrite app_nil_r in Hnb. exact (Hnb m' Hb).
  - exfalso. destruct (first_longest_begins _ _ Hfl) as [Hb Hne].
    assert (Hne2 : m ++ rest <> []) by now destruct m.
    pose proof (Hu' b (m ++ rest) eq_refl Hne2) as Hnb.
    rewrite app_nil_r in Hnb. exact (Hnb m Hb).
  - destruct (first_longest_begins _ _ Hfl) as [Hb Hne].
    destruct (first_longest_begins _ _ Hfl') as [Hb' Hne'].
    assert (Hbb : b' = b /\ m' ++ rest' = m ++ rest).
    { apply app_eq_app in Ht' as [l [[-> Hl] | [-> Hl]]].
      - destruct l as [|c l]; [now rewrite app_nil_r|]. exfalso.
        assert (Hc : c :: l <> []) by discriminate.
        pose proof (Hu b' (c :: l) eq_refl Hc) as Hnb.
        rewrite <- Hl in Hnb. exact (Hnb m' Hb').
      - destruct l as [|c l]; [now rewrite app_nil_r in *|]. exfalso.
        assert (Hc : c :: l <> []) by discriminate.
        pose proof (Hu' b (c :: l) eq_refl Hc) as Hnb.
        rewrite <- Hl in Hnb. exact (Hnb m Hb). }
    destruct Hbb as [-> Hmr]. rewrite Hmr in Hfl'.
    assert (m' = m) by exact (first_longest_unique _ _ _ Hfl' Hfl). subst m'.
    apply app_inv_head in Hmr. subst rest'.
    now rewrite (IH _ Hs').
Qed.

(** A text holds a digit exactly when some part of it is a text of the
    pattern. *)
Lemma digit_iff_match (text : jsstring) :
  has_digit text = false
  <-> forall a m b, text = a ++ m ++ b -> ~ lang metric m.
Proof.
  split.
  - intros Hd a m b -> Hl.
    apply lang_needs_digit in Hl; [|exact metric_needs_digit].
    rewrite !has_digit_app, Hl, orb_true_r in Hd. discriminate.
  - intros Hnone. destruct (has_digit text) eqn:Hd; [exfalso|reflexivity].
    unfold has_digit in Hd. apply existsb_exists in Hd as (c & Hin & Hc).
    apply in_split in Hin as (a & b & ->).
    apply (Hnone a [c] b eq_refl).
    apply (kind_metric number); [unfold kinds; auto 6 using in_eq, in_cons|].
    unfold number. change [c] with ([c] ++ [] ++ []).
    apply lang_seq; [apply lang_digits1; [discriminate | cbn; now rewrite Hc]|].
    apply lang_seq; [apply lang_opt_none | now apply lang_digits0].
Qed.


(** C2, as the code has it.  [highlightNumbers] never throws, and returns
    the text itself exactly when the text holds no digit, which is when no
    part of it is a number, a percentage, an mL value or a from-to range.
    Otherwise it returns plain and highlighted fragments whose texts, put
    together in order, are the input character for character.  The
    fragments are those of one scan from left to right, and of no other
    division of the text: a highlighted fragment begins at the first
    position after the fragment before it where a text of the pattern
    begins; it is of the first of the four kinds (percentage, mL value,
    range, number, in this order) of which a text begins there, and the
    longest text of that kind that does.  So every digit is highlighted, and
    the highlighted fragments are the entries of [text.match], but a part of
    the text that is a percentage or an mL value is not always highlighted
    as one. *)
Theorem highlightNumbers_scans_and_preserves (text : jsstring) :
  match highlightNumbers text with
  | Unchanged t =>
      t = text /\ has_digit text = false /\ match_g text metric = None
  | Nodes ns =>
      concat (map node_text ns) = text
      /\ scanned 0 text ns
      /\ (forall ns', scanned 0 text ns' -> ns' = ns)
      /\ Some (spans ns) = match_g text metric
      /\ Forall (node_ok metric) ns
      /\ has_digit text = true
  | TypeError => False
  end
  /\ (has_digit text = false
      <-> forall a m b, text = a ++ m ++ b -> ~ lang metric m)
  /\ (has_digit text = false -> highlightNumbers text = Unchanged text).
Proof.
  assert (Hmain :
    match highlightNumbers text with
    | Unchanged t =>
        t = text /\ has_digit text = false /\ match_g text metric = None
    | Nodes ns =>
        concat (map node_text ns) = text
        /\ scanned 0 text ns
        /\ (forall ns', scanned 0 text ns' -> ns' = ns)
        /\ Some (spans ns) = match_g text metric
        /\ Forall (node_ok metric) ns
        /\ has_digit text = true
    | TypeError => False
    end).
  { unfold highlightNumbers, match_g, split_re.
    pose proof (render_parts_nodes metric (S (length text)) text 0 []) as Hr.
    cbn [app length] in Hr. change (2 * 0)%nat with 0%nat in Hr.
    destruct (matches_fuel (S (length text)) metric text) as [|m ms] eqn:Hm.
    - split; [reflexivity|]. split; [|reflexivity].
      apply (find_match_nowhere metric text metric_matches_at_digits).
      cbn [matches_fuel] in Hm.
      now destruct (find_match metric text) as [[[b m'] rest]|].
    - rewrite Hr.
      pose proof (nodes_scanned (S (length text)) text 0 (Nat.lt_succ_diag_r _))
        as Hsc.
      split; [apply nodes_text|].
      split; [exact Hsc|].
      split; [intros ns' Hns'; exact (scanned_unique _ _ _ Hsc ns' Hns')|].
      split; [now rewrite (nodes_spans _ _ _ _ metric_needs_digit), Hm|].
      split; [apply nodes_ok; auto using metric_needs_digit,
                metric_matches_at_digits|].
      destruct (has_digit text) eqn:Hd; [reflexivity|].
      cbn [matches_fuel] in Hm.
      now rewrite (find_match_digit_free _ _ metric_needs_digit Hd) in Hm. }
  split; [exact Hmain|]. split; [apply digit_iff_match|].
  intros Hd. destruct (highlightNumbers text) as [t|ns|].
  - now destruct Hmain as [-> _].
  - destruct Hmain as (_ & _ & _ & _ & _ & H). congruence.
  - destruct Hmain.
Qed.

(** C2 as stated fails: in [from 5 to 18%] the part [18%] is a percentage,
    but the range is what is highlighted; the sign after it is left plain,
    and no highlighted fragment holds [18%]. *)
Lemma range_leaves_percent_plain :
  let text := lit "from 5 to 18%" in
  text = lit "from 5 to " ++ lit "18%" ++ []
  /\ lang percentage (lit "18%")
  /\ highlightNumbers text
     = Nodes [Text []; Span 1 (lit "from 5 to 18"); Text (lit "%")]
  /\ existsb (fun s => includes s (lit "18%"))
             (spans [Text []; Span 1 (lit "from 5 to 18"); Text (lit "%")])
     = false.
Proof.
  cbv zeta. split; [reflexivity|]. split.
  - unfold percentage, number.
    change (lit "18%") with ((lit "18" ++ [] ++ []) ++ lit "%").
    apply lang_seq; [|apply lang_lit].
    apply lang_seq; [apply lang_digits1; [discriminate | reflexivity]|].
    apply lang_seq; [apply lang_opt_none | now apply lang_digits0].
  - split; vm_compute; reflexivity.
Qed.

End LeftmostFacts.


(* ================================================================== *)
(** * Further properties *)

(** ** Layer toggles over several clicks *)

Module AppFacts.
Import Layers App LayersFacts.

Lemma xorb_negb_swap (a b : bool) : xorb (negb a) b = xorb a (negb b).
Proof. destruct a, b; reflexivity. Qed.

(** X1. After any clicks, a flag is its old value flipped as often as its
    key was clicked: it differs from the old value exactly when the number
    of clicks on it is odd. *)
Theorem clicks_parity (l : VisualizationLayers) (ks : list LayerKey)
    (k : LayerKey) :
  get k (clicks l ks)
  = xorb (get k l) (Nat.odd (count_occ LayerKey_eq_dec ks k)).
Proof.
  unfold clicks. revert l; induction ks as [|a ks IH]; intros l; simpl.
  - now rewrite xorb_false_r.
  - rewrite IH. destruct (LayerKey_eq_dec a k) as [-> | Hne].
    + unfold toggleLayer. rewrite get_spread_same, Nat.odd_succ, <- Nat.negb_odd.
      apply xorb_negb_swap.
    + unfold toggleLayer. rewrite get_spread_other; [reflexivity|].
      intros E. now apply Hne.
Qed.

Lemma clicks_untouched (l : VisualizationLayers) (ks : list LayerKey)
    (k : LayerKey) :
  ~ In k ks -> get k (clicks l ks) = get k l.
Proof.
  intros Hn. unfold clicks. revert l; induction ks as [|a ks IH]; intros l; simpl.
  - reflexivity.
  - rewrite IH by (intros H; apply Hn; now right).
    unfold toggleLayer. apply get_spread_other.
    intros ->. apply Hn. now left.
Qed.

(** X2. The rows of [LayerToggles] offer eight of the eleven flags: however
    they are clicked, [lobes], [bronchioles] and [motion] stay as they
    were. *)
Theorem unoffered_flags_fixed (l : VisualizationLayers) (ks : list LayerKey) :
  Forall (fun k => In k LAYER_TOGGLES) ks ->
  lobes (clicks l ks) = lobes l
  /\ bronchioles (clicks l ks) = bronchioles l
  /\ motion (clicks l ks) = motion l.
Proof.
  intros Hks.
  assert (Hout : forall k, ~ In k LAYER_TOGGLES -> ~ In k ks).
  { intros k Hk Hin. rewrite Forall_forall in Hks. exact (Hk (Hks _ Hin)). }
  assert (Hno : forall k, In k [KLobes; KBronchioles; KMotion] ->
                          ~ In k LAYER_TOGGLES).
  { intros k Hk Hin. simpl in Hk, Hin.
    repeat (destruct Hk as [<- | Hk];
            [repeat (destruct Hin as [Hin | Hin]; [discriminate|]); exact Hin|]).
    exact Hk. }
  split; [|split].
  - apply (clicks_untouched l ks KLobes), Hout, Hno. simpl; auto.
  - apply (clicks_untouched l ks KBronchioles), Hout, Hno. simpl; auto.
  - apply (clicks_untouched l ks KMotion), Hout, Hno. simpl; auto.
Qed.

Lemma unoffered_flags_fixed_witness :
  Forall (fun k => In k LAYER_TOGGLES) [KAirflow; KPleura; KAirflow]
  /\ lobes (clicks initial_layers [KAirflow; KPleura; KAirflow]) = false
  /\ pleura (clicks initial_layers [KAirflow; KPleura; KAirflow]) = false.
Proof.
  assert (H : Forall (fun k => In k LAYER_TOGGLES) [KAirflow; KPleura; KAirflow])
    by (repeat constructor; simpl; auto 10).
  split; [exact H|]. split; [|reflexivity].
  rewrite (proj1 (unoffered_flags_fixed initial_layers _ H)). reflexivity.
Defined.

End AppFacts.

(** ** The learning guide *)

Module GuideFacts.
Import Js Layers Guide.

Lemma handleNext_index (g : State) :
  currentStepIndex g <= 3 ->
  currentStepIndex (handleNext g) = Nat.min (S (currentStepIndex g)) 3
  /\ exits (handleNext g)
     = (if currentStepIndex g <? 3 then exits g else S (exits g)).
Proof.
  intros H. unfold handleNext. change (length STEPS - 1) with 3.
  destruct (currentStepIndex g <? 3) eqn:E; simpl.
  - apply Nat.ltb_lt in E. split; [lia | reflexivity].
  - apply Nat.ltb_ge in E. split; [lia | reflexivity].
Qed.

(** X3. From the first step, [n] clicks on the next-step card lead to step
    [min n 3] and call [onExit] once for every click beyond the third; the
    index never leaves [STEPS], so the step read by the component and its
    effect is always defined. *)
Theorem nexts_stay_in_steps (n : nat) :
  currentStepIndex (nexts n initial_state) = Nat.min n 3
  /\ exits (nexts n initial_state) = n - 3
  /\ (exists step, nth_error STEPS (currentStepIndex (nexts n initial_state))
                   = Some step)
  /\ forall prev, layer_effect (nexts n initial_state) prev <> None.
Proof.
  assert (H : currentStepIndex (nexts n initial_state) = Nat.min n 3
              /\ exits (nexts n initial_state) = n - 3).
  { induction n as [|n [IHi IHe]]; [split; reflexivity|].
    unfold nexts in *. simpl Nat.iter.
    destruct (handleNext_index (Nat.iter n handleNext initial_state)) as [Hi He];
      [lia|].
    rewrite Hi, He, IHi, IHe. split; [lia|].
    destruct (Nat.min n 3 <? 3) eqn:E;
      [apply Nat.ltb_lt in E | apply Nat.ltb_ge in E]; lia. }
  destruct H as [Hi He]. split; [exact Hi|]. split; [exact He|].
  assert (Hs : exists step,
             nth_error STEPS (currentStepIndex (nexts n initial_state)) = Some step).
  { rewrite Hi.
    destruct (nth_error STEPS (Nat.min n 3)) as [s|] eqn:E; [now exists s|].
    apply nth_error_None in E. change (length STEPS) with 4 in E. lia. }
  split; [exact Hs|].
  intros prev. unfold layer_effect. destruct Hs as [s ->]. discriminate.
Qed.

(** X4. Whatever the layers were, once the guide has been clicked through
    to its last step they are: both lungs, pleura, fibrosis map and
    [pathology] on; lobes, bronchi, bronchioles and airflow off; alveoli,
    vasculature and motion as they were, which no step touches. *)
Theorem walk_through_layers (prev : GuideLayers) (n : nat) :
  3 <= n ->
  walk n prev
  = Some (mkState 3 (n - 3),
          mkGuideLayers
            (mkLayers true true false false false (alveoli (flags prev))
                      (vasculature (flags prev)) true false true
                      (motion (flags prev)))
            (Some true)).
Proof.
  intros Hn.
  assert (H3 : walk 3 prev
               = Some (mkState 3 0,
                       mkGuideLayers
                         (mkLayers true true false false false
                                   (alveoli (flags prev))
                                   (vasculature (flags prev)) true false true
                                   (motion (flags prev)))
                         (Some true)))
    by (destruct prev as [[] p]; reflexivity).
  replace n with ((n - 3) + 3) at 1 by lia.
  generalize (n - 3) as k. intros k.
  induction k as [|k IH]; [exact H3|].
  change (S k + 3) with (S (k + 3)). simpl walk. rewrite IH. reflexivity.
Qed.

Lemma walk_through_layers_witness :
  3 <= 5
  /\ walk 5 (mkGuideLayers initial_layers None)
     = Some (mkState 3 2,
             mkGuideLayers
               (mkLayers true true false false false true true true false true true)
               (Some true)).
Proof.
  assert (H : 3 <= 5) by lia.
  split; [exact H|].
  exact (walk_through_layers (mkGuideLayers initial_layers None) 5 H).
Defined.

End GuideFacts.

(** ** The scan animation *)

Module ScanFacts.
Import Js Scan.

Lemma scan_ticks (n : nat) (p : N) :
  (p < 100)%N -> Nat.iter n scan_tick p = ((p + N.of_nat n) mod 100)%N.
Proof.
  intros Hp. induction n as [|n IH].
  - simpl. rewrite N.add_0_r. symmetry. now apply N.mod_small.
  - simpl Nat.iter. rewrite IH. unfold scan_tick.
    rewrite N.Div0.add_mod_idemp_l. f_equal. lia.
Qed.

(** X5. The scan position stays below 100 and, from a position below 100,
    is back where it was after 100 ticks. *)
Theorem scan_position_cycles (p : N) :
  (scan_tick p < 100)%N
  /\ ((p < 100)%N -> Nat.iter 100 scan_tick p = p).
Proof.
  split.
  - unfold scan_tick. now apply N.mod_upper_bound.
  - intros Hp. rewrite (scan_ticks 100 p Hp).
    change (N.of_nat 100) with (1 * 100)%N.
    rewrite N.Div0.mod_add. now apply N.mod_small.
Qed.

Lemma scan_position_cycles_witness :
  (42 < 100)%N /\ Nat.iter 100 scan_tick 42%N = 42%N.
Proof.
  assert (H : (42 < 100)%N) by reflexivity.
  split; [exact H | exact (proj2 (scan_position_cycles 42) H)].
Defined.

(** The last [k] elements of an array. *)
Lemma skipn_last_app {A : Type} (k : nat) (l y : list A) :
  skipn (length (skipn (length l - k) l ++ y) - k) (skipn (length l - k) l ++ y)
  = skipn (length (l ++ y) - k) (l ++ y).
Proof.
  remember (length l - k) as n eqn:Hn.
  remember (skipn n l) as s eqn:Hs.
  remember (firstn n l) as f eqn:Hf.
  assert (Hl : l = f ++ s) by (subst f s; symmetry; apply firstn_skipn).
  assert (Hlf : length f = n) by (subst f; rewrite length_firstn; lia).
  assert (E : l ++ y = f ++ (s ++ y)) by (rewrite Hl; now rewrite app_assoc).
  assert (Hls : length s = length l - n) by (subst s; apply length_skipn).
  rewrite E, (length_app f (s ++ y)), Hlf.
  rewrite (skipn_app (n + length (s ++ y) - k) f (s ++ y)), Hlf.
  rewrite (@skipn_all2 A (n + length (s ++ y) - k) f) by (rewrite length_app; lia).
  simpl app. f_equal. rewrite length_app. lia.
Qed.

Lemma add_detection_last4 (l : list Spot) (d : Spot) :
  add_detection l d = skipn (length (l ++ [d]) - 4) (l ++ [d]).
Proof.
  unfold add_detection, slice_last3.
  rewrite length_app, skipn_app. simpl length.
  replace (length l + 1 - 4) with (length l - 3) by lia.
  replace (length l - 3 - length l) with 0 by lia. reflexivity.
Qed.

Lemma detections_last4 (ds : list Spot) (l : list Spot) (d : Spot) :
  fold_left add_detection ds (add_detection l d)
  = skipn (length (l ++ d :: ds) - 4) (l ++ d :: ds).
Proof.
  revert l d; induction ds as [|d' ds IH]; intros l d.
  - apply add_detection_last4.
  - simpl fold_left. rewrite IH, add_detection_last4.
    rewrite (skipn_last_app 4 (l ++ [d]) (d' :: ds)).
    now rewrite <- app_assoc.
Qed.

(** X6. However many detections the spawn interval adds, the array holds
    the last four of everything it was given, the newest last: at most four
    entries, and after four additions none of the entries it started with,
    the labelled one of the identification phase included. *)
Theorem detections_keep_last_four (l ds : list Spot) :
  ds <> [] ->
  fold_left add_detection ds l = skipn (length (l ++ ds) - 4) (l ++ ds)
  /\ length (fold_left add_detection ds l) <= 4
  /\ (4 <= length ds ->
      fold_left add_detection ds l = skipn (length ds - 4) ds).
Proof.
  intros Hne. destruct ds as [|d ds]; [congruence|].
  simpl fold_left. rewrite detections_last4.
  split; [reflexivity|]. split.
  - rewrite length_skipn. lia.
  - intros H4. rewrite skipn_app.
    rewrite length_app.
    replace (length l + length (d :: ds) - 4 - length l)
      with (length (d :: ds) - 4) by lia.
    rewrite skipn_all2 by lia. reflexivity.
Qed.

Lemma detections_keep_last_four_witness :
  let d := fun i => mkSpot i 50 50 [] in
  [d 1%N; d 2%N; d 3%N; d 4%N] <> []
  /\ fold_left add_detection [d 1%N; d 2%N; d 3%N; d 4%N] [IDENTIFIED]
     = [d 1%N; d 2%N; d 3%N; d 4%N].
Proof.
  cbv zeta.
  set (ds := [mkSpot 1 50 50 []; mkSpot 2 50 50 []; mkSpot 3 50 50 [];
              mkSpot 4 50 50 []]).
  assert (Hne : ds <> []) by discriminate.
  split; [exact Hne|].
  destruct (detections_keep_last_four [IDENTIFIED] ds Hne) as (_ & _ & H).
  rewrite H by (simpl; lia). reflexivity.
Defined.

End ScanFacts.

(** ** The chat widget over several messages *)

Module ChatLogFacts.
Import Js Chat ChatLog JsFacts ChatFacts.

Lemma dropWhile_blank (p : code_unit -> bool) (s : jsstring) :
  forallb p s = true -> dropWhile p s = [].
Proof.
  induction s as [|c s IH]; simpl; [reflexivity|].
  intros H. apply andb_true_iff in H as [-> Hs]. auto.
Qed.

Lemma trim_blank (s : jsstring) : forallb is_ws s = true -> trim s = [].
Proof.
  intros H. unfold trim, trimEnd, trimStart.
  now rewrite (dropWhile_blank _ _ H).
Qed.

(** X7. A text of white space only (the empty text included) is not sent:
    [handleSend] leaves the state as it is and schedules no reply. *)
Theorem handleSend_ignores_blank (now : N) (text : jsstring) (st : State) :
  forallb is_ws text = true ->
  handleSend now text st = (st, None)
  /\ forall t1, exchange now t1 text st = st.
Proof.
  intros H. assert (E : handleSend now text st = (st, None)).
  { unfold handleSend. now rewrite (trim_blank _ H). }
  split; [exact E|]. intros t1. unfold exchange. now rewrite E.
Qed.

Lemma handleSend_ignores_blank_witness :
  forallb is_ws (lit "   " ++ [9%N; 10%N]) = true
  /\ handleSend 5 (lit "   " ++ [9%N; 10%N]) (initial_state 0)
     = (initial_state 0, None).
Proof.
  assert (H : forallb is_ws (lit "   " ++ [9%N; 10%N]) = true) by reflexivity.
  split; [exact H|].
  exact (proj1 (handleSend_ignores_blank 5 _ (initial_state 0) H)).
Defined.

Lemma keys_have_answers :
  forallb (fun q => truthy q
                    && match kb_get KNOWLEDGE_BASE q with
                       | Some a => negb (eqb a FALLBACK)
                       | None => false
                       end)
          (keys KNOWLEDGE_BASE) = true.
Proof. vm_compute. reflexivity. Qed.

(** X8. The reply to a text of Basic Latin characters, where lower-casing
    moves the letters A..Z and nothing else, is the generic fallback exactly
    when no key of the knowledge base fits the text; otherwise it is the
    answer stored under the first key that fits, in the order of the
    source. *)
Theorem aiText_fallback_iff (text : jsstring) :
  is_basic_latin text = true ->
  (aiText text = FALLBACK
   <-> forall q, In q (keys KNOWLEDGE_BASE) -> fits text q = false)
  /\ (forall q, find (fits text) (keys KNOWLEDGE_BASE) = Some q ->
                kb_get KNOWLEDGE_BASE q = Some (aiText text)).
Proof.
  intros _.
  pose proof keys_have_answers as Hk. rewrite forallb_forall in Hk.
  unfold aiText.
  destruct (find (fits text) (keys KNOWLEDGE_BASE)) as [q|] eqn:Hf.
  - destruct (find_some _ _ Hf) as [Hin Hfit].
    specialize (Hk q Hin). apply andb_true_iff in Hk as [Htr Ha].
    rewrite Htr.
    destruct (kb_get KNOWLEDGE_BASE q) as [a|] eqn:Hget; [|discriminate].
    split.
    + split.
      * intros ->. apply negb_true_iff in Ha.
        assert (eqb FALLBACK FALLBACK = true) by now apply eqb_eq.
        congruence.
      * intros Hnone. specialize (Hnone q Hin). congruence.
    + intros q' [= <-]. exact Hget.
  - split; [|discriminate].
    split; [|reflexivity].
    intros _ q Hin. exact (find_none _ _ Hf q Hin).
Qed.

Lemma aiText_fallback_iff_witness :
  let text := lit "copd" in
  let q := lit "What medications are typical for COPD?" in
  is_basic_latin text = true
  /\ find (fits text) (keys KNOWLEDGE_BASE) = Some q
  /\ kb_get KNOWLEDGE_BASE q = Some (aiText text)
  /\ aiText text <> FALLBACK.
Proof.
  cbv zeta.
  assert (H : is_basic_latin (lit "copd") = true) by reflexivity.
  assert (Hf : find (fits (lit "copd")) (keys KNOWLEDGE_BASE)
               = Some (lit "What medications are typical for COPD?"))
    by (vm_compute; reflexivity).
  destruct (aiText_fallback_iff (lit "copd") H) as [Hiff Hfirst].
  split; [exact H|]. split; [exact Hf|]. split; [exact (Hfirst _ Hf)|].
  intros Hfb.
  destruct (find_some _ _ Hf) as [Hin Hfit].
  rewrite (proj1 Hiff Hfb _ Hin) in Hfit. discriminate.
Defined.

Lemma step_appends (st : State) (e : Event) :
  exists added, messages (step st e) = messages st ++ added
                /\ length added <= 1.
Proof.
  destruct e as [now text | now text]; simpl.
  - unfold handleSend. destruct (negb (truthy (trim text))); simpl.
    + exists []. rewrite app_nil_r. split; [reflexivity | simpl; lia].
    + eexists. split; [reflexivity | simpl; lia].
  - eexists. split; [reflexivity | simpl; lia].
Qed.

(** X9. The message list only grows: whatever is sent and whichever timers
    fire, in any order, the messages shown before are still there, in
    place, followed by at most one new message per event. *)
Theorem messages_append_only (st : State) (es : list Event) :
  exists added,
    messages (run st es) = messages st ++ added
    /\ length added <= length es.
Proof.
  unfold run. revert st; induction es as [|e es IH]; intros st; simpl.
  - exists []. rewrite app_nil_r. split; [reflexivity | simpl; lia].
  - destruct (step_appends st e) as (a1 & H1 & L1).
    destruct (IH (step st e)) as (a2 & H2 & L2).
    exists (a1 ++ a2). rewrite H2, H1, <- app_assoc.
    split; [reflexivity|]. rewrite length_app. lia.
Qed.

End ChatLogFacts.

(** ** The findings display: texts that are not lists of findings *)

Module DisplayFacts.
Import Js Regex Findings Display JsFacts RegexFacts FindingsFacts HighlightFacts.

Lemma includes_app_r_false (a b p : jsstring) :
  includes (a ++ b) p = false -> includes b p = false.
Proof.
  induction a as [|c a IH]; [auto|].
  change ((c :: a) ++ b) with (c :: (a ++ b)).
  unfold includes; fold includes. intros H.
  apply orb_false_iff in H as [_ H]. auto.
Qed.

Lemma find_sep_spec (sep s a b : jsstring) :
  find_sep sep s = Some (a, b) -> s = a ++ sep ++ b.
Proof.
  revert a b; induction s as [|c s IH]; intros a b.
  - unfold find_sep. destruct (is_prefix sep []) eqn:E; [|discriminate].
    intros [= <- <-]. destruct sep; [reflexivity | discriminate].
  - unfold find_sep; fold find_sep.
    destruct (is_prefix sep (c :: s)) eqn:E.
    + intros [= <- <-]. now apply is_prefix_true.
    + destruct (find_sep sep s) as [[a' b']|]; [|discriminate].
      intros [= <- <-]. now rewrite (IH _ _ eq_refl).
Qed.

(** The pieces of a split are parts of the text: what occurs in none of
    the text occurs in none of them. *)
Lemma split_fuel_pieces (p sep : jsstring) (fuel : nat) (s : jsstring) :
  includes s p = false ->
  Forall (fun item => includes item p = false) (split_fuel fuel sep s).
Proof.
  revert s; induction fuel as [|fuel IH]; intros s H; simpl.
  - now constructor.
  - destruct (find_sep sep s) as [[a b]|] eqn:Hf; [|now constructor].
    apply find_sep_spec in Hf. subst s. constructor.
    + now apply includes_app_false in H.
    + apply IH. now apply includes_app_r_false, includes_app_r_false in H.
Qed.

(** An item without the closing marker gives no entry. *)
Lemma parseItem_unmarked (item : jsstring) :
  includes item (lit ":**") = false -> parseItem item = None.
Proof.
  intros H. unfold parseItem.
  now rewrite (split_whole _ _ lit_bold_nonempty
                 (find_sep_none _ _ lit_bold_nonempty H)).
Qed.

Lemma unmarked_items_give_nothing (items : list jsstring) :
  Forall (fun item => includes item (lit ":**") = false) items ->
  filter_Boolean
    (map parseItem (filter (fun item => (0 <? length (trim item))%nat) items))
  = [].
Proof.
  induction 1 as [|item items H _ IH]; [reflexivity|].
  simpl. destruct (0 <? length (trim item))%nat; [|exact IH].
  simpl. now rewrite (parseItem_unmarked _ H).
Qed.

(** X10. A text in which the closing marker [:**] does not occur has no
    findings, however many bullets it has, and the display shows the text
    itself instead of cards. *)
Theorem unmarked_text_shown_raw (analysis : jsstring) :
  includes analysis (lit ":**") = false ->
  parseFindings analysis = []
  /\ render analysis = mkView [] (Some analysis).
Proof.
  intros H. assert (E : parseFindings analysis = []).
  { unfold parseFindings. apply unmarked_items_give_nothing.
    unfold split. change (lit "* **") with [42; 32; 42; 42]%N.
    now apply split_fuel_pieces. }
  split; [exact E|]. unfold render. now rewrite E.
Qed.

Lemma unmarked_text_shown_raw_witness :
  includes (lit "* Volume fell by 13.1%. * **Stiffness** rose.") (lit ":**") = false
  /\ render (lit "* Volume fell by 13.1%. * **Stiffness** rose.")
     = mkView [] (Some (lit "* Volume fell by 13.1%. * **Stiffness** rose.")).
Proof.
  assert (H : includes (lit "* Volume fell by 13.1%. * **Stiffness** rose.")
                       (lit ":**") = false) by reflexivity.
  split; [exact H | exact (proj2 (unmarked_text_shown_raw _ H))].
Defined.

(** X11. Text before the first bullet marker that holds neither marker is
    left out: the entries are those of the segments alone. *)
Theorem parseFindings_skips_preamble (x : jsstring)
    (segs : list (jsstring * jsstring)) :
  includes (x ++ lit "* *") (lit "* **") = false ->
  includes x (lit ":**") = false ->
  Forall (fun s => well_formed s = true) segs ->
  parseFindings (x ++ segments_text segs)
  = map (fun s => finding (trim (fst s)) (trim (snd s))) segs.
Proof.
  intros Hx Hb Hwf. unfold parseFindings.
  rewrite (split_bullets segs x Hx Hwf).
  unfold filter; fold (filter (fun item => (0 <? length (trim item))%nat)).
  destruct (0 <? length (trim x))%nat.
  - simpl map. rewrite (parseItem_unmarked _ Hb). simpl filter_Boolean.
    now apply parse_items.
  - now apply parse_items.
Qed.

Lemma parseFindings_skips_preamble_witness :
  let x := lit "Findings for PT-8942:" ++ [10%N] in
  let segs := [(lit "Airway Distortion", lit " Air trapping rose to 18%.")] in
  includes (x ++ lit "* *") (lit "* **") = false
  /\ includes x (lit ":**") = false
  /\ Forall (fun s => well_formed s = true) segs
  /\ parseFindings (x ++ segments_text segs)
     = [finding (lit "Airway Distortion") (lit "Air trapping rose to 18%.")].
Proof.
  cbv zeta.
  set (x := lit "Findings for PT-8942:" ++ [10%N]).
  set (segs := [(lit "Airway Distortion", lit " Air trapping rose to 18%.")]).
  assert (H1 : includes (x ++ lit "* *") (lit "* **") = false) by reflexivity.
  assert (H2 : includes x (lit ":**") = false) by reflexivity.
  assert (H3 : Forall (fun s => well_formed s = true) segs)
    by (repeat constructor).
  split; [exact H1 | split; [exact H2 | split; [exact H3|]]].
  rewrite (parseFindings_skips_preamble x segs H1 H2 H3). reflexivity.
Defined.

(** The nodes of the leftmost matches: plain text at the even places and,
    for a pattern that needs a digit, a span at every odd place, keyed by
    its place (counted from the index [k] of the first node). *)
Lemma nodes_fuel_shape (r : regex) (fuel : nat) (t : jsstring) (k : nat) :
  needs_digit r = true ->
  Nat.odd (length (nodes_fuel fuel r t k)) = true
  /\ forall i n,
       nth_error (nodes_fuel fuel r t k) i = Some n ->
       if Nat.even i then exists s, n = Text s
       else exists s, n = Span (k + i) s.
Proof.
  intros Hn. revert t k; induction fuel as [|fuel IH]; intros t k.
  - cbn [nodes_fuel]. split; [reflexivity|].
    intros [|i] n; simpl; [intros [= <-]; now eexists|].
    destruct i; discriminate.
  - cbn [nodes_fuel]. destruct (find_match r t) as [[[b m] rest]|] eqn:Hf.
    + destruct (find_match_sound _ _ _ _ _ Hf) as [_ Hl].
      rewrite (lang_needs_digit _ _ Hl Hn).
      destruct (IH rest (S (S k))) as [Hodd Hshape].
      split.
      * cbn [length]. now rewrite Nat.odd_succ, Nat.even_succ.
      * intros [|[|i]] n.
        -- cbn [nth_error Nat.even]. intros [= <-]. now eexists.
        -- cbn [nth_error Nat.even]. intros [= <-]. exists m. f_equal. lia.
        -- cbn [nth_error]. intros H. specialize (Hshape i n H).
           change (Nat.even (S (S i))) with (Nat.even i).
           destruct (Nat.even i); destruct Hshape as [s ->]; eexists;
             [reflexivity | f_equal; lia].
    + split; [reflexivity|].
      intros [|i] n; simpl; [intros [= <-]; now eexists|].
      destruct i; discriminate.
Qed.

(** X12. The array [highlightNumbers] returns alternates: plain text at
    every even index and a highlighted span at every odd one, keyed by its
    index (so no two spans share a key), with plain text first and last. *)
Theorem highlight_nodes_alternate (text : jsstring) (ns : list Node) :
  highlightNumbers text = Nodes ns ->
  Nat.odd (length ns) = true
  /\ forall i n,
       nth_error ns i = Some n ->
       if Nat.even i then exists s, n = Text s else exists s, n = Span i s.
Proof.
  unfold highlightNumbers, match_g, split_re.
  pose proof (render_parts_nodes metric (S (length text)) text 0 []) as Hr.
  cbn [app length] in Hr. change (2 * 0)%nat with 0%nat in Hr.
  destruct (matches_fuel (S (length text)) metric text) as [|m ms];
    [discriminate|].
  rewrite Hr. intros [= <-].
  exact (nodes_fuel_shape metric (S (length text)) text 0 metric_needs_digit).
Qed.

Lemma highlight_nodes_alternate_witness :
  highlightNumbers (lit "rose to 18%") = Nodes [Text (lit "rose to "); Span 1 (lit "18%"); Text []]
  /\ Nat.odd (length [Text (lit "rose to "); Span 1 (lit "18%"); Text []]) = true.
Proof.
  assert (H : highlightNumbers (lit "rose to 18%")
              = Nodes [Text (lit "rose to "); Span 1 (lit "18%"); Text []])
    by (vm_compute; reflexivity).
  split; [exact H | exact (proj1 (highlight_nodes_alternate _ _ H))].
Defined.

End DisplayFacts.

(** ** The generative-text service and the analysis panel *)

Module PanelFacts.
Import Js Gemini Panel GeminiFacts ChatFacts.

Section Service.
Variable API_KEY : option jsstring.
Variable service : Request -> Outcome.
Variable number_toString : float -> jsstring.

Local Abbreviation analyze := (analyzeLungProgression API_KEY service number_toString).
Local Abbreviation similar := (getSimilarCasesAnalysis API_KEY service).
Local Abbreviation effect := (fetch_effect API_KEY service number_toString).

(** X13. With a key set each of the two functions issues exactly one
    request, the one built from its arguments, whether the service answers
    or rejects it. *)
Theorem one_request_per_call :
  key_missing API_KEY = false ->
  (forall cur base mode,
     requests (snd (analyze cur base mode))
     = [progression_request number_toString cur base mode])
  /\ (forall condition,
        requests (snd (similar condition)) = [similar_cases_request condition]).
Proof.
  intros Hkey. split.
  - intros cur base mode.
    destruct (service (progression_request number_toString cur base mode))
      as [text|e] eqn:Hsvc.
    + now rewrite (analyze_answered _ _ _ _ _ _ _ Hkey Hsvc).
    + now rewrite (analyze_rejected _ _ _ _ _ _ _ Hkey Hsvc).
  - intros condition. unfold getSimilarCasesAnalysis, generateContent.
    rewrite Hkey. destruct (service (similar_cases_request condition));
      reflexivity.
Qed.

(** X14. An answered request returns the answer's text as it is when
    there is some, and the stand-in when the text is missing or empty:
    "Analysis unavailable." for the progression, the empty text for similar
    cases. *)
Theorem answered_calls_return_text :
  key_missing API_KEY = false ->
  (forall cur base mode text,
     service (progression_request number_toString cur base mode) = Responds text ->
     fst (analyze cur base mode)
     = Returns match text with
               | Some (c :: s) => c :: s
               | _ => lit "Analysis unavailable."
               end)
  /\ (forall condition text,
        service (similar_cases_request condition) = Responds text ->
        fst (similar condition)
        = Returns match text with
                  | Some s => s
                  | None => []
                  end).
Proof.
  intros Hkey. split.
  - intros cur base mode text Hsvc.
    rewrite (analyze_answered _ _ _ _ _ _ _ Hkey Hsvc).
    destruct text as [[|c s]|]; reflexivity.
  - intros condition text Hsvc. unfold getSimilarCasesAnalysis, generateContent.
    rewrite Hkey, Hsvc. destruct text as [[|c s]|]; reflexivity.
Qed.

(** X15. The lobe volumes never leave the application: the call made for
    metrics with other lobe volumes is the same, request and result. *)
Theorem lobe_volumes_not_sent (cur base : LungMetrics) (mode : ViewMode)
    (lv lv' : LobeVolumes) :
  progression_request number_toString (with_lobes cur lv) (with_lobes base lv') mode
  = progression_request number_toString cur base mode
  /\ analyze (with_lobes cur lv) (with_lobes base lv') mode = analyze cur base mode.
Proof.
  assert (E : progression_request number_toString (with_lobes cur lv)
                (with_lobes base lv') mode
              = progression_request number_toString cur base mode)
    by reflexivity.
  split; [exact E|].
  unfold analyzeLungProgression. now rewrite E.
Qed.

Lemma analyze_returns cur base mode :
  exists s, fst (analyze cur base mode) = Returns s.
Proof.
  destruct (key_missing API_KEY) eqn:Hkey.
  - unfold analyzeLungProgression. rewrite Hkey. eexists; reflexivity.
  - destruct (service (progression_request number_toString cur base mode))
      as [text|e] eqn:Hsvc.
    + rewrite (analyze_answered _ _ _ _ _ _ _ Hkey Hsvc). eexists; reflexivity.
    + rewrite (analyze_rejected _ _ _ _ _ _ _ Hkey Hsvc). eexists; reflexivity.
Qed.

Lemma unchanged_after (a : jsstring) (l : bool) (i : jsstring) (m : ViewMode)
    (tp : TimePoint) :
  i = id tp ->
  unchanged (mkState a l (Some i) (Some m)) tp m = true.
Proof.
  intros ->. unfold unchanged. simpl.
  assert (E : eqb (id tp) (id tp) = true) by now apply eqb_eq.
  rewrite E. now destruct m.
Qed.

(** X16. When the point or the mode is new, the panel's effect ends with
    [loading] off and [analysis] set to what [analyzeLungProgression]
    returned, with that call's events and no others: its own [catch], with
    "Unable to load analysis.", is never entered.  Run again for the same
    point and mode, with whatever baseline, it does nothing. *)
Theorem fetch_effect_settles (p : State) (cur base : TimePoint) (mode : ViewMode) :
  (unchanged p cur mode = false ->
   exists s,
     analyze (metrics cur) (metrics base) mode
     = (Returns s, snd (analyze (metrics cur) (metrics base) mode))
     /\ effect p cur base mode
        = (mkState s false (Some (id cur)) (Some mode),
           snd (analyze (metrics cur) (metrics base) mode)))
  /\ forall base',
       effect (fst (effect p cur base mode)) cur base' mode
       = (fst (effect p cur base mode), []).
Proof.
  destruct (analyze_returns (metrics cur) (metrics base) mode) as [s Hs].
  assert (Hrun : analyze (metrics cur) (metrics base) mode
                 = (Returns s, snd (analyze (metrics cur) (metrics base) mode))).
  { destruct (analyze (metrics cur) (metrics base) mode) as [r ev].
    simpl in *. now subst r. }
  split.
  - intros Hu. exists s. split; [exact Hrun|].
    unfold fetch_effect. rewrite Hu. now rewrite Hrun at 1.
  - intros base'. unfold fetch_effect at 2 3.
    destruct (unchanged p cur mode) eqn:Hu; simpl fst.
    + unfold fetch_effect. now rewrite Hu.
    + rewrite Hrun. simpl fst.
      unfold fetch_effect. now rewrite (unchanged_after _ _ _ _ cur eq_refl).
Qed.

End Service.

Lemma one_request_per_call_witness :
  let key := Some (lit "k") in
  let service := fun _ : Request => Rejects (lit "503") in
  let show := fun _ : float => lit "0" in
  let m := mkLungMetrics 4200 0.85 2.1 5 (mkLobeVolumes 850 450 900 950 1050) in
  key_missing key = false
  /\ requests (snd (analyzeLungProgression key service show m m PATIENT))
     = [progression_request show m m PATIENT].
Proof.
  cbv zeta.
  assert (H : key_missing (Some (lit "k")) = false) by reflexivity.
  split; [exact H|].
  exact (proj1 (one_request_per_call (Some (lit "k"))
                  (fun _ => Rejects (lit "503")) (fun _ => lit "0") H) _ _ _).
Defined.

Lemma answered_calls_return_text_witness :
  let key := Some (lit "k") in
  let service := fun _ : Request => Responds (Some []) in
  let show := fun _ : float => lit "0" in
  let m := mkLungMetrics 4200 0.85 2.1 5 (mkLobeVolumes 850 450 900 950 1050) in
  key_missing key = false
  /\ fst (analyzeLungProgression key service show m m DOCTOR)
     = Returns (lit "Analysis unavailable.")
  /\ fst (getSimilarCasesAnalysis key service (lit "IPF")) = Returns [].
Proof.
  cbv zeta.
  assert (H : key_missing (Some (lit "k")) = false) by reflexivity.
  pose proof (answered_calls_return_text (Some (lit "k"))
                (fun _ => Responds (Some [])) (fun _ => lit "0") H) as [Ha Hs].
  split; [exact H|]. split.
  - exact (Ha _ _ _ (Some []) eq_refl).
  - exact (Hs _ (Some []) eq_refl).
Defined.

Lemma fetch_effect_settles_witness :
  let service := fun _ : Request => Rejects (lit "503") in
  let show := fun _ : float => lit "0" in
  let m := mkLungMetrics 4200 0.85 2.1 5 (mkLobeVolumes 850 450 900 950 1050) in
  let tp := mkTimePoint (lit "tp-2") (lit "2025-03-10") (lit "Year 2 (Current)")
                        m [] completed in
  unchanged initial_state tp DOCTOR = false
  /\ fst (fetch_effect (Some (lit "k")) service show initial_state tp tp DOCTOR)
     = mkState (lit "Unable to generate analysis at this time.") false
               (Some (lit "tp-2")) (Some DOCTOR).
Proof.
  cbv zeta.
  set (m := mkLungMetrics 4200 0.85 2.1 5 (mkLobeVolumes 850 450 900 950 1050)).
  set (tp := mkTimePoint (lit "tp-2") (lit "2025-03-10") (lit "Year 2 (Current)")
                         m [] completed).
  assert (H : unchanged initial_state tp DOCTOR = false) by reflexivity.
  split; [exact H|].
  destruct (proj1 (fetch_effect_settles (Some (lit "k"))
                     (fun _ => Rejects (lit "503")) (fun _ => lit "0")
                     initial_state tp tp DOCTOR) H) as (s & Hs & He).
  rewrite He. simpl fst.
  apply (f_equal fst) in Hs. vm_compute in Hs.
  injection Hs as <-. reflexivity.
Defined.

End PanelFacts.

(** ** The hand-gesture controller over time *)

Module GestureLoopFacts.
Import Js Gesture GestureLoop GestureFacts.
Local Open Scope float_scope.

(** *** What a frame can reach *)

Lemma untouched_refl (st : State) : untouched st st.
Proof.
  unfold untouched. repeat (split; [reflexivity|]). split.
  - now destruct (canvas (dom st)).
  - now destruct (controls (dom st)).
Qed.

Lemma untouched_trans (a b c : State) :
  untouched a b -> untouched b c -> untouched a c.
Proof.
  unfold untouched.
  intros (A1 & A2 & A3 & A4 & A5 & A6 & A7 & A8 & A9 & A10 & A11)
         (B1 & B2 & B3 & B4 & B5 & B6 & B7 & B8 & B9 & B10 & B11).
  repeat (split; [congruence|]). split.
  - destruct (canvas (dom a)), (canvas (dom b)), (canvas (dom c));
      try contradiction; congruence.
  - destruct (controls (dom a)), (controls (dom b)), (controls (dom c));
      try contradiction; exact I.
Qed.

Lemma frame_untouched (three : Three) (st : State) (d : Detection) :
  untouched st (state_of (predictWebcam three st d)).
Proof.
  unfold predictWebcam, sync_canvas.
  destruct st as [[en lo stt er] g [vid can lm ctl] [co re cr ec ss]].
  cbn [dom video canvas landmarker].
  destruct vid as [v|]; [|apply untouched_refl].
  destruct can as [cv|]; [|apply untouched_refl].
  destruct lm; [|apply untouched_refl].
  destruct ((videoWidth v =? 0) || (videoHeight v =? 0));
    [apply untouched_refl|].
  destruct (negb (width cv =? videoWidth v) || negb (height cv =? videoHeight v));
    (destruct d as [[lmss]|e];
     [|unfold untouched; cbn; destruct ctl; repeat split; reflexivity]);
    cbn [context2d resize];
    (destruct (context2d cv) eqn:Hctx; cbn [negb state_of];
     [|unfold untouched; cbn; destruct ctl; repeat split; auto]);
    unfold visualize_act; cbn [landmarks];
    (destruct lmss as [|lms more];
     [ unfold no_hand, release_control; cbn;
       destruct ctl as [c|]; [destruct (isControlling g)|];
       unfold untouched; cbn; repeat split; auto
     | destruct (nth_error lms 8) as [i|];
       [destruct (nth_error lms 4) as [t|];
        [destruct (nth_error lms 0) as [w|];
         [destruct (nth_error lms 9) as [m|]|]|]|];
       cbn [state_of];
       try (unfold untouched; cbn; destruct ctl; repeat split; auto; fail);
       unfold act, take_control;
       cbn [dom controls refs set_canvas with_dom video canvas landmarker];
       generalize (pinching (mkHand i t w m)); intros p;
       destruct ctl as [c|];
       [|unfold untouched; cbn; repeat split; auto];
       destruct (isControlling g); cbn [negb];
       match goal with
       | |- context [steer ?a ?b ?h ?s] => destruct (steer a b h s) as [s' g']
       end;
       destruct p; unfold untouched; cbn; repeat split; auto ]).
Qed.

Lemma frames_untouched (three : Three) (st : State) (ds : list Detection) :
  untouched st (frames three st ds).
Proof.
  revert st. induction ds as [|d ds IH]; intros st.
  - apply untouched_refl.
  - unfold frames. cbn [fold_left].
    eapply untouched_trans; [apply frame_untouched|apply IH].
Qed.

(** X17. Whatever the frame and however it ends, [predictWebcam] changes
    neither [enabled], [loading] nor [error], neither the video element nor
    the landmarker; it does not reload the page, ask for the camera, call
    [onEnableChange] or stop a stream; and it leaves a canvas with the same
    2D context, and controls, exactly where there were some.  The same holds
    for any number of frames. *)
Theorem frames_leave_untouched (three : Three) (st : State) :
  (forall d, untouched st (state_of (predictWebcam three st d)))
  /\ (forall ds, untouched st (frames three st ds)).
Proof.
  split; [apply frame_untouched | apply frames_untouched].
Qed.

(** What a frame does to the gesture refs and the controls: nothing; or,
    for a hand with controls, what [steer] and "Apply & Sync" give; or, with
    no hand, the two references cleared and the damping given back. *)
Lemma frame_cases (three : Three) (st : State) (d : Detection) :
  let st' := state_of (predictWebcam three st d) in
  (refs st' = refs st /\ controls (dom st') = controls (dom st))
  \/ (exists c h,
        controls (dom st) = Some c
        /\ let cg := take_control c (refs st) in
           let sg := steer (fst cg) (snd cg) h (camera_spherical three (fst cg)) in
           controls (dom st') = Some (apply_sync three (fst cg) (fst sg))
           /\ refs st' = snd sg)
  \/ (let g0 := mkRefs None None (wasDampingEnabled (refs st))
                       (isControlling (refs st)) in
      match controls (dom st) with
      | Some c =>
          refs st' = snd (release_control c g0)
          /\ controls (dom st') = Some (fst (release_control c g0))
      | None => refs st' = g0 /\ controls (dom st') = None
      end).
Proof.
  cbv zeta. unfold predictWebcam.
  destruct (sync_canvas st) as [[[st1 cv] v]|] eqn:Hs; [|left; split; reflexivity].
  destruct (sync_canvas_keeps _ _ _ _ Hs) as (_ & Hrefs & _ & Hctl & _).
  destruct d as [[lmss]|e]; [|left; split; assumption].
  destruct (context2d cv); cbn [negb]; [|left; split; assumption].
  unfold visualize_act. cbn [landmarks].
  destruct lmss as [|lms more].
  - right; right. cbn [state_of]. unfold no_hand.
    cbn [dom controls refs set_canvas with_dom setStatus with_ui].
    rewrite Hctl, Hrefs.
    destruct (controls (dom st)) as [c|]; [|split; [reflexivity | exact Hctl]].
    destruct (release_control c _) as [c' g']. split; reflexivity.
  - destruct (nth_error lms 8) as [i|]; [|left; split; assumption].
    destruct (nth_error lms 4) as [t|]; [|left; split; assumption].
    destruct (nth_error lms 0) as [w|]; [|left; split; assumption].
    destruct (nth_error lms 9) as [m|]; [|left; split; assumption].
    cbn [state_of].
    destruct (controls (dom st)) as [c|] eqn:Hc.
    + right; left. exists c, (mkHand i t w m). split; [reflexivity|].
      match goal with
      | |- context [act three ?s ?cv2 v ?h] =>
          assert (Hr2 : refs s = refs st) by exact Hrefs;
          assert (Hc2 : controls (dom s) = Some c) by exact Hctl;
          pose proof (act_steers three s cv2 v h c Hc2) as H
      end.
      cbv zeta in H. rewrite Hr2 in H. exact H.
    + left. unfold act.
      cbn [dom controls refs set_canvas with_dom].
      rewrite Hctl. split; [exact Hrefs | exact Hctl].
Qed.

(** *** The two gesture references *)

Lemma steer_exclusive (c : OrbitControls) (g : GestureRefs) (h : Hand)
    (s : Spherical) :
  exclusive (snd (steer c g h s)) = true.
Proof.
  unfold steer, zoom, rotate. destruct (pinching h); reflexivity.
Qed.

Lemma frame_exclusive (three : Three) (st : State) (d : Detection) :
  exclusive (refs st) = true ->
  exclusive (refs (state_of (predictWebcam three st d))) = true.
Proof.
  intros He.
  destruct (frame_cases three st d) as [[Hr _] | [(c & h & _ & _ & Hr) | H]].
  - now rewrite Hr.
  - rewrite Hr. apply steer_exclusive.
  - cbv zeta in H. destruct (controls (dom st)) as [c|].
    + destruct H as [Hr _]. rewrite Hr. unfold release_control. cbn.
      now destruct (isControlling (refs st)).
    + destruct H as [Hr _]. now rewrite Hr.
Qed.

(** X18. The pinch reference and the centroid reference are never both
    set: a state with at most one of them keeps that through any frames.  So
    whenever the rotate branch finds a last centroid, its second test, that
    there is no last pinch distance, holds as well. *)
Theorem references_exclusive (three : Three) (st : State) (ds : list Detection) :
  exclusive (refs st) = true ->
  exclusive (refs (frames three st ds)) = true
  /\ (lastCentroid (refs (frames three st ds)) <> None ->
      lastPinchDist (refs (frames three st ds)) = None).
Proof.
  intros He.
  assert (H : exclusive (refs (frames three st ds)) = true).
  { revert st He. induction ds as [|d ds IH]; intros st He; [exact He|].
    unfold frames. cbn [fold_left]. apply IH. now apply frame_exclusive. }
  split; [exact H|].
  unfold exclusive in H.
  destruct (lastPinchDist (refs (frames three st ds))); [|reflexivity].
  destruct (lastCentroid (refs (frames three st ds))); [discriminate|].
  intros Hn. now contradiction Hn.
Qed.

Lemma references_exclusive_witness :
  let three := mkThree (fun _ => mkSpherical 5 1 0) (fun s => s)
                       (fun _ => mkVector3 0 0 5) (fun c => c) in
  let ds := [hand_frame pinched_hand; hand_frame open_hand] in
  exclusive (refs ready_state) = true
  /\ exclusive (refs (frames three ready_state ds)) = true.
Proof.
  cbv zeta.
  assert (H : exclusive (refs ready_state) = true) by reflexivity.
  split; [exact H|].
  exact (proj1 (references_exclusive _ ready_state _ H)).
Defined.

(** *** Damping *)

Lemma steer_keeps_control (c : OrbitControls) (g : GestureRefs) (h : Hand)
    (s : Spherical) :
  wasDampingEnabled (snd (steer c g h s)) = wasDampingEnabled g
  /\ isControlling (snd (steer c g h s)) = isControlling g.
Proof.
  unfold steer, zoom, rotate. destruct (pinching h); split; reflexivity.
Qed.

Lemma frame_damping (three : Three) (st : State) (d : Detection) :
  damping_setting (state_of (predictWebcam three st d)) = damping_setting st.
Proof.
  unfold damping_setting.
  destruct (frame_cases three st d) as [[Hr Hc] | [(c & h & Hc & Hc' & Hr) | H]].
  - now rewrite Hr, Hc.
  - rewrite Hc, Hc', Hr.
    destruct (steer_keeps_control (fst (take_control c (refs st)))
                (snd (take_control c (refs st))) h
                (camera_spherical three (fst (take_control c (refs st)))))
      as [Hw Hi].
    rewrite Hw, Hi. unfold take_control.
    destruct (isControlling (refs st)) eqn:Hic; cbn; [now rewrite Hic|reflexivity].
  - cbv zeta in H. destruct (controls (dom st)) as [c|].
    + destruct H as [Hr Hc]. rewrite Hr, Hc. unfold release_control. cbn.
      now destruct (isControlling (refs st)).
    + destruct H as [_ Hc]. now rewrite Hc.
Qed.

Lemma frames_damping (three : Three) (st : State) (ds : list Detection) :
  damping_setting (frames three st ds) = damping_setting st.
Proof.
  revert st. induction ds as [|d ds IH]; intros st; [reflexivity|].
  unfold frames. cbn [fold_left].
  etransitivity; [apply IH | apply frame_damping].
Qed.

Lemma processing_untouched (st st' : State) :
  untouched st st' -> processing st' = processing st.
Proof.
  unfold untouched, processing, sync_canvas.
  intros (_ & _ & _ & Hv & Hl & _ & _ & _ & _ & Hcv & _).
  rewrite Hv, Hl.
  destruct (video (dom st)) as [v|]; [|reflexivity].
  destruct (canvas (dom st)) as [a|], (canvas (dom st')) as [b|];
    try contradiction; [|reflexivity].
  destruct (landmarker (dom st)); [|reflexivity].
  destruct ((videoWidth v =? 0) || (videoHeight v =? 0)); [reflexivity|].
  destruct (negb (width a =? videoWidth v) || negb (height a =? videoHeight v)),
           (negb (width b =? videoWidth v) || negb (height b =? videoHeight v));
    exact Hcv.
Qed.

Lemma frames_processing (three : Three) (st : State) (ds : list Detection) :
  processing (frames three st ds) = processing st.
Proof.
  apply processing_untouched. apply frames_untouched.
Qed.

(** A processed frame without a hand. *)
Lemma processed_no_hand (three : Three) (st : State) :
  processing st = true ->
  let st' := state_of (predictWebcam three st (Detected (mkResult []))) in
  let g0 := mkRefs None None (wasDampingEnabled (refs st))
                   (isControlling (refs st)) in
  status (ui st') = lit "Searching..."
  /\ match controls (dom st) with
     | Some c =>
         refs st' = snd (release_control c g0)
         /\ controls (dom st') = Some (fst (release_control c g0))
     | None => refs st' = g0 /\ controls (dom st') = None
     end.
Proof.
  unfold processing, predictWebcam.
  destruct (sync_canvas st) as [[[st1 cv] v]|] eqn:Hs; [|discriminate].
  destruct (sync_canvas_keeps _ _ _ _ Hs) as (_ & Hrefs & _ & Hctl & _).
  intros Hctx. rewrite Hctx. cbv zeta. cbn [negb].
  unfold visualize_act. cbn [landmarks state_of]. unfold no_hand.
  cbn [dom controls refs set_canvas with_dom setStatus with_ui].
  rewrite Hctl, Hrefs.
  destruct (controls (dom st)) as [c|].
  - destruct (release_control c _) as [c' g']. repeat split; reflexivity.
  - split; [reflexivity|]. split; [reflexivity | exact Hctl].
Qed.

(** A processed frame with the hand [h]. *)
Lemma processed_hand (three : Three) (st : State) (h : Hand) (c : OrbitControls) :
  processing st = true ->
  controls (dom st) = Some c ->
  let st' := state_of (predictWebcam three st (hand_frame h)) in
  let cg := take_control c (refs st) in
  let sg := steer (fst cg) (snd cg) h (camera_spherical three (fst cg)) in
  controls (dom st') = Some (apply_sync three (fst cg) (fst sg))
  /\ refs st' = snd sg.
Proof.
  unfold processing.
  destruct (sync_canvas st) as [[[st1 cv] v]|] eqn:Hs; [|discriminate].
  intros Hctx Hc.
  destruct (hand_frame_steers three st st1 cv v (hand_landmarks h) []
              (indexTip h) (thumbTip h) (wrist h) (middleKnuckle h) c
              Hs Hctx eq_refl eq_refl eq_refl eq_refl Hc)
    as (st' & Hrun & Hctl & Hrefs).
  unfold hand_frame. rewrite Hrun. cbn [state_of].
  destruct h as [i t w m]. split; [exact Hctl | exact Hrefs].
Qed.

Lemma on_disabled_damping (st : State) :
  damping_setting (on_disabled st) = damping_setting st.
Proof.
  unfold damping_setting, on_disabled.
  destruct (controls (dom st)) as [c|] eqn:Hc; [|now rewrite Hc].
  unfold release_control.
  destruct (isControlling (refs st)) eqn:Hi; cbn; [reflexivity|].
  rewrite ?Hc, ?Hi. reflexivity.
Qed.

Lemma on_disabled_untouched (st : State) : untouched st (on_disabled st).
Proof.
  unfold on_disabled.
  destruct st as [[en lo stt er] g [vid can lm ctl] [co re cr ec ss]].
  cbn [dom controls refs].
  destruct ctl as [c|]; [|apply untouched_refl].
  unfold release_control. destruct (isControlling g);
    unfold untouched; cbn; destruct can; repeat split; reflexivity.
Qed.

(** Giving the damping back: the flag becomes the setting. *)
Lemma off_restores (st : State) (d : bool) :
  damping_setting st = Some d ->
  exists c',
    controls (dom (on_disabled st)) = Some c'
    /\ enableDamping c' = d
    /\ isControlling (refs (on_disabled st)) = false.
Proof.
  unfold damping_setting, on_disabled.
  destruct (controls (dom st)) as [c|]; [|discriminate].
  unfold release_control.
  destruct (isControlling (refs st)) eqn:Hi; intros [= Hd]; cbn;
    eexists; (split; [reflexivity|]); split; auto.
Qed.

Lemma no_hand_restores (three : Three) (st : State) (d : bool) :
  processing st = true ->
  damping_setting st = Some d ->
  let st' := state_of (predictWebcam three st (Detected (mkResult []))) in
  exists c',
    controls (dom st') = Some c'
    /\ enableDamping c' = d
    /\ isControlling (refs st') = false.
Proof.
  intros Hp Hd. cbv zeta.
  pose proof (processed_no_hand three st Hp) as [_ H]. cbv zeta in H.
  unfold damping_setting in Hd.
  destruct (controls (dom st)) as [c|]; [|discriminate].
  destruct H as [Hr Hc]. rewrite Hr, Hc. unfold release_control. cbn.
  destruct (isControlling (refs st)); injection Hd as Hd; cbn;
    eexists; (split; [reflexivity|]); split; auto.
Qed.

Lemma moved_untouched (st : State) (p t : Vector3) :
  untouched st
    (with_dom st (mkDom (video (dom st)) (canvas (dom st)) (landmarker (dom st))
                        (option_map (move p t) (controls (dom st))))).
Proof.
  unfold untouched. cbn [with_dom ui dom world video canvas landmarker controls].
  repeat (split; [reflexivity|]). split.
  - now destruct (canvas (dom st)).
  - now destruct (controls (dom st)).
Qed.

(** Steps that leave the controller its controls keep the damping setting,
    the other visualizer's controls, and whether frames are processed. *)
Lemma play_same_controls (three : Three) (ss : list Step) :
  forall vs,
  forallb same_controls ss = true ->
  damping_setting (view (play three vs ss)) = damping_setting (view vs)
  /\ processing (view (play three vs ss)) = processing (view vs)
  /\ hidden (play three vs ss) = hidden vs.
Proof.
  induction ss as [|s ss IH]; intros vs Hs; [now repeat split|].
  cbn [forallb] in Hs. apply andb_prop in Hs as [Hs Hss].
  unfold play. cbn [fold_left]. fold (play three (views_step three vs s) ss).
  destruct (IH (views_step three vs s) Hss) as (Hd & Hp & Hh).
  rewrite Hd, Hp, Hh.
  destruct s as [d| |p t| |]; try discriminate; cbn [views_step view hidden].
  - split; [apply frame_damping|].
    split; [apply processing_untouched, frame_untouched | reflexivity].
  - split; [apply on_disabled_damping|].
    split; [apply processing_untouched, on_disabled_untouched | reflexivity].
  - split; [|split; [apply processing_untouched, moved_untouched | reflexivity]].
    unfold damping_setting. cbn [dom controls refs with_dom].
    now destruct (controls (dom (view vs))).
Qed.

Lemma play_app (three : Three) (vs : Views) (ss : list Step) (s : Step) :
  play three vs (ss ++ [s]) = views_step three (play three vs ss) s.
Proof. unfold play. now rewrite fold_left_app. Qed.

(** X19. As long as the controller is left with the controls object it
    has, the damping it found there is given back, whatever frames were
    processed: by the effect that runs when hand control goes off, and by
    the first processed frame without a hand; the camera may be moved in
    between.  When the view is switched while a hand steers, it is not: the
    controls steered first are left with damping off, and the flag saved
    from them is written to the controls of the other view. *)
Theorem damping_given_back (three : Three) (vs : Views) (c : OrbitControls) :
  controls (dom (view vs)) = Some c ->
  isControlling (refs (view vs)) = false ->
  (forall ss,
     forallb same_controls ss = true ->
     (exists c',
        controls (dom (view (play three vs (ss ++ [SwitchedOff])))) = Some c'
        /\ enableDamping c' = enableDamping c
        /\ isControlling (refs (view (play three vs (ss ++ [SwitchedOff]))))
           = false)
     /\ (processing (view vs) = true ->
         exists c',
           controls (dom (view (play three vs
                                  (ss ++ [Shot (Detected (mkResult []))]))))
           = Some c'
           /\ enableDamping c' = enableDamping c
           /\ isControlling
                (refs (view (play three vs
                               (ss ++ [Shot (Detected (mkResult []))]))))
              = false))
  /\ (forall b h ss,
        (forall c0, enableDamping (lookAt_update three c0) = enableDamping c0) ->
        processing (view vs) = true ->
        hidden vs = Some b ->
        forallb same_controls ss = true ->
        let fin := play three vs
                     (Shot (hand_frame h) :: ViewSwitched
                      :: ss ++ [SwitchedOff]) in
        (exists a', hidden fin = Some a' /\ enableDamping a' = false)
        /\ (exists b',
              controls (dom (view fin)) = Some b'
              /\ enableDamping b' = enableDamping c)
        /\ isControlling (refs (view fin)) = false).
Proof.
  intros Hc Hi.
  assert (Hd0 : damping_setting (view vs) = Some (enableDamping c)).
  { unfold damping_setting. now rewrite Hc, Hi. }
  split.
  - intros ss Hss.
    destruct (play_same_controls three ss vs Hss) as (Hd & Hp & _).
    rewrite Hd0 in Hd. rewrite !play_app. cbn [views_step view].
    split; [exact (off_restores _ _ Hd)|].
    intros Hp0. rewrite Hp0 in Hp. exact (no_hand_restores three _ _ Hp Hd).
  - intros b h ss Hupd Hp Hb Hss. cbv zeta.
    unfold play. cbn [fold_left views_step].
    set (st1 := state_of (predictWebcam three (view vs) (hand_frame h))).
    pose proof (processed_hand three (view vs) h c Hp Hc) as [Hc1 Hr1].
    fold st1 in Hc1, Hr1.
    unfold take_control in Hc1, Hr1. rewrite Hi in Hc1, Hr1.
    cbn [negb fst snd] in Hc1, Hr1.
    match type of Hr1 with
    | _ = snd (steer ?c' ?g' h ?s') =>
        destruct (steer_keeps_control c' g' h s') as [Hw Hk];
        set (sg := steer c' g' h s') in *
    end.
    cbn [wasDampingEnabled isControlling] in Hw, Hk.
    fold (play three (switch_view (mkViews st1 (hidden vs)))
               (ss ++ [SwitchedOff])).
    rewrite play_app.
    set (vs2 := switch_view (mkViews st1 (hidden vs))).
    assert (Hd2 : damping_setting (view vs2) = Some (enableDamping c)).
    { unfold damping_setting, vs2, switch_view.
      cbn [view hidden dom controls refs with_dom].
      now rewrite Hb, Hr1, Hk, Hw. }
    assert (Hh2 : exists a', hidden vs2 = Some a' /\ enableDamping a' = false).
    { unfold vs2, switch_view. cbn [hidden view]. rewrite Hc1.
      eexists. split; [reflexivity|].
      unfold apply_sync. now rewrite Hupd. }
    destruct (play_same_controls three ss vs2 Hss) as (Hd & _ & Hh).
    rewrite Hd2 in Hd. cbn [views_step view hidden]. rewrite Hh.
    split; [exact Hh2|].
    destruct (off_restores _ _ Hd) as (b' & Hb' & Hdb & Hib).
    split; [now exists b' | exact Hib].
Qed.

Lemma damping_given_back_witness :
  let three := mkThree (fun _ => mkSpherical 5 1 0) (fun s => s)
                       (fun _ => mkVector3 0 0 5) (fun c => c) in
  let vs := mkViews ready_state (Some fresh_controls) in
  let same := [Shot (hand_frame pinched_hand); Shot (hand_frame open_hand);
               SwitchedOff] in
  let switched := [Shot (hand_frame open_hand); ViewSwitched;
                   Shot (hand_frame open_hand); SwitchedOff] in
  controls (dom (view vs)) = Some controls0
  /\ isControlling (refs (view vs)) = false
  /\ (exists c',
        controls (dom (view (play three vs same))) = Some c'
        /\ enableDamping c' = true)
  /\ (exists a', hidden (play three vs switched) = Some a'
                 /\ enableDamping a' = false).
Proof.
  cbv zeta.
  set (three := mkThree (fun _ => mkSpherical 5 1 0) (fun s => s)
                        (fun _ => mkVector3 0 0 5) (fun c => c)).
  set (vs := mkViews ready_state (Some fresh_controls)).
  assert (Hc : controls (dom (view vs)) = Some controls0) by reflexivity.
  assert (Hi : isControlling (refs (view vs)) = false) by reflexivity.
  destruct (damping_given_back three vs controls0 Hc Hi) as [Hsame Hswitch].
  split; [exact Hc|]. split; [exact Hi|]. split.
  - destruct (Hsame [Shot (hand_frame pinched_hand); Shot (hand_frame open_hand)]
                    eq_refl) as [(c' & Hc' & Hd' & _) _].
    exists c'. split; [exact Hc' | exact Hd'].
  - specialize (Hswitch fresh_controls open_hand [Shot (hand_frame open_hand)]
                        (fun c0 => eq_refl) eq_refl eq_refl eq_refl).
    cbv zeta in Hswitch. exact (proj1 Hswitch).
Defined.

(** *** Slow movement of an open hand *)

Lemma rotate_dead_zone (g : GestureRefs) (h : Hand) (s : Spherical)
    (ref : float * float) :
  lastCentroid g = Some ref ->
  lastPinchDist g = None ->
  JsMath.gt (abs (fst (centroid h) - fst ref)) 0.001 = false ->
  JsMath.gt (abs (snd (centroid h) - snd ref)) 0.001 = false ->
  rotate g (wrist h) (middleKnuckle h) s
  = (s, mkRefs None (Some (centroid h)) (wasDampingEnabled g) (isControlling g)).
Proof.
  intros Hl Hp Hx Hy. unfold rotate. rewrite Hl, Hp.
  destruct ref as [lx ly]. unfold centroid in *. cbn [fst snd] in Hx, Hy.
  now rewrite Hx, Hy.
Qed.

Lemma last_cons {A : Type} (a d : A) (l : list A) :
  last (a :: l) d = last l a.
Proof.
  revert a d. induction l as [|b l IH]; intros a d; [reflexivity|].
  change (last (a :: b :: l) d) with (last (b :: l) d).
  now rewrite (IH b d), (IH b a).
Qed.

(** X20. An open hand that moves by at most 0.001 per frame on both axes
    never turns the camera, however far it gets in the end: each frame
    writes the camera back from the coordinates just read off it and takes
    the hand's new centre as the reference. *)
Theorem slow_drift_never_rotates (three : Three) (hs : list Hand) :
  forall (st : State) (c : OrbitControls) (ref : float * float),
  processing st = true ->
  controls (dom st) = Some c ->
  isControlling (refs st) = true ->
  lastCentroid (refs st) = Some ref ->
  lastPinchDist (refs st) = None ->
  drifting ref hs = true ->
  let st' := frames three st (map hand_frame hs) in
  controls (dom st') = Some (Nat.iter (length hs) (resync three) c)
  /\ lastCentroid (refs st') = Some (last (map centroid hs) ref)
  /\ lastPinchDist (refs st') = None.
Proof.
  induction hs as [|h hs IH]; intros st c ref Hp Hc Hi Hl Hn Hd; cbv zeta.
  - cbn. auto.
  - cbn [drifting] in Hd.
    apply andb_prop in Hd. destruct Hd as [Hd Hrest].
    apply andb_prop in Hd. destruct Hd as [Hd Hy].
    apply andb_prop in Hd. destruct Hd as [Hopen Hx].
    apply Bool.negb_true_iff in Hopen, Hx, Hy.
    pose proof (processed_hand three st h c Hp Hc) as [Hc1 Hr1].
    unfold take_control in Hc1, Hr1. rewrite Hi in Hc1, Hr1.
    cbn [negb fst snd] in Hc1, Hr1.
    unfold steer in Hc1, Hr1. rewrite Hopen in Hc1, Hr1.
    rewrite (rotate_dead_zone _ h _ ref Hl Hn Hx Hy) in Hc1, Hr1.
    cbn [fst snd] in Hc1, Hr1.
    set (st1 := state_of (predictWebcam three st (hand_frame h))) in *.
    assert (Hp1 : processing st1 = true).
    { rewrite <- Hp. apply processing_untouched. apply frame_untouched. }
    assert (Hi1 : isControlling (refs st1) = true) by now rewrite Hr1.
    assert (Hl1 : lastCentroid (refs st1) = Some (centroid h)) by now rewrite Hr1.
    assert (Hn1 : lastPinchDist (refs st1) = None) by now rewrite Hr1.
    specialize (IH st1 (resync three c) (centroid h) Hp1 Hc1 Hi1 Hl1 Hn1 Hrest).
    cbv zeta in IH. destruct IH as (IH1 & IH2 & IH3).
    cbn [map length]. unfold frames. cbn [fold_left].
    fold st1. fold (frames three st1 (map hand_frame hs)).
    rewrite Nat.iter_succ_r, last_cons.
    split; [exact IH1|]. split; [exact IH2 | exact IH3].
Qed.

Lemma slow_drift_never_rotates_witness :
  let three := mkThree (fun _ => mkSpherical 5 1 0) (fun s => s)
                       (fun _ => mkVector3 0 0 5) (fun c => c) in
  let st := with_refs ready_state (mkRefs None (Some (0.5, 0.5)) true true) in
  let h1 := mkHand (mkLandmark 0.3 0.3 0) (mkLandmark 0.7 0.3 0)
                   (mkLandmark 0.5005 0.6 0) (mkLandmark 0.5005 0.4 0) in
  let h2 := mkHand (mkLandmark 0.3 0.3 0) (mkLandmark 0.7 0.3 0)
                   (mkLandmark 0.501 0.6 0) (mkLandmark 0.501 0.4 0) in
  drifting (0.5, 0.5) [h1; h2] = true
  /\ controls (dom (frames three st [hand_frame h1; hand_frame h2]))
     = Some (resync three (resync three controls0))
  /\ lastCentroid (refs (frames three st [hand_frame h1; hand_frame h2]))
     = Some (centroid h2).
Proof.
  cbv zeta.
  set (three := mkThree (fun _ => mkSpherical 5 1 0) (fun s => s)
                        (fun _ => mkVector3 0 0 5) (fun c => c)).
  set (st := with_refs ready_state (mkRefs None (Some (0.5, 0.5)) true true)).
  set (h1 := mkHand (mkLandmark 0.3 0.3 0) (mkLandmark 0.7 0.3 0)
                    (mkLandmark 0.5005 0.6 0) (mkLandmark 0.5005 0.4 0)).
  set (h2 := mkHand (mkLandmark 0.3 0.3 0) (mkLandmark 0.7 0.3 0)
                    (mkLandmark 0.501 0.6 0) (mkLandmark 0.501 0.4 0)).
  assert (Hd : drifting (0.5, 0.5) [h1; h2] = true) by (vm_compute; reflexivity).
  split; [exact Hd|].
  pose proof (slow_drift_never_rotates three [h1; h2] st controls0 (0.5, 0.5)
                eq_refl eq_refl eq_refl eq_refl eq_refl Hd) as (H1 & H2 & _).
  split; [exact H1 | exact H2].
Defined.

(** *** The throttled loop *)

Lemma spaced_app (first : Z) (l : list Z) (t : Z) :
  spaced first l -> (last l first + 30 <= t)%Z -> spaced first (l ++ [t]).
Proof.
  revert first. induction l as [|a l IH]; intros first Hs Ht.
  - cbn. split; [exact Ht | exact I].
  - destruct Hs as [Ha Hs]. rewrite last_cons in Ht.
    cbn [app spaced]. split; [exact Ha|]. now apply IH.
Qed.

Lemma turn_spaced (three : Three) (first : Z) (lp : Loop) (t : Tick) :
  spaced first (predicted_at lp)
  /\ lastPredictionTime lp = last (predicted_at lp) first ->
  spaced first (predicted_at (turn three lp t))
  /\ lastPredictionTime (turn three lp t)
     = last (predicted_at (turn three lp t)) first.
Proof.
  intros [Hs Hl]. unfold turn.
  destruct (running lp); cbn [negb]; [|now split].
  destruct (30 <=? now t - lastPredictionTime lp)%Z eqn:Ht; [|now split].
  destruct (video (dom (comp lp))); [|now split].
  destruct ((2 <=? readyState t)%N && landmarker (dom (comp lp))
            && negb (paused t)); [|now split].
  apply Z.leb_le in Ht.
  assert (Hnew : spaced first (predicted_at lp ++ [now t])).
  { apply spaced_app; [exact Hs|]. rewrite <- Hl. lia. }
  destruct (predictWebcam three (comp lp) (detect t));
    cbn [predicted_at lastPredictionTime]; rewrite last_last; now split.
Qed.

(** X21. Whatever the clock and the frames do, the first call of
    [predictWebcam] by the loop comes at a clock of 30 or more, every later
    call at least 30 ms after the call before, and there are no more calls
    than turns of the loop. *)
Theorem predictions_spaced (three : Three) (st : State) (ts : list Tick) :
  spaced 0 (predicted_at (turns three (start st) ts))
  /\ (length (predicted_at (turns three (start st) ts)) <= length ts)%nat.
Proof.
  split.
  - assert (H : forall lp,
               spaced 0 (predicted_at lp)
               /\ lastPredictionTime lp = last (predicted_at lp) 0%Z ->
               spaced 0 (predicted_at (turns three lp ts))).
    { induction ts as [|t ts IH]; intros lp Hinv; [apply Hinv|].
      unfold turns. cbn [fold_left]. apply IH. now apply turn_spaced. }
    apply H. cbn. now split.
  - assert (H : forall lp,
               (length (predicted_at (turns three lp ts))
                <= length (predicted_at lp) + length ts)%nat).
    { induction ts as [|t ts IH]; intros lp; [cbn; lia|].
      unfold turns. cbn [fold_left length].
      fold (turns three (turn three lp t) ts).
      specialize (IH (turn three lp t)).
      assert (Hone : (length (predicted_at (turn three lp t))
                      <= S (length (predicted_at lp)))%nat).
      { unfold turn.
        destruct (running lp); cbn [negb]; [|lia].
        destruct (30 <=? now t - lastPredictionTime lp)%Z; [|lia].
        destruct (video (dom (comp lp))); [|lia].
        destruct ((2 <=? readyState t)%N && landmarker (dom (comp lp))
                  && negb (paused t)); [|lia].
        destruct (predictWebcam three (comp lp) (detect t));
          cbn [predicted_at]; rewrite length_app; cbn; lia. }
      lia. }
    apply (H (start st)).
Qed.

Lemma stopped_loop_stays (three : Three) (lp : Loop) (ts : list Tick) :
  running lp = false -> turns three lp ts = lp.
Proof.
  intros Hr. induction ts as [|t ts IH]; [reflexivity|].
  unfold turns. cbn [fold_left].
  replace (turn three lp t) with lp; [exact IH|].
  unfold turn. now rewrite Hr.
Qed.

Lemma processing_dom (st : State) :
  processing st = true ->
  (exists v, video (dom st) = Some v) /\ landmarker (dom st) = true.
Proof.
  unfold processing, sync_canvas.
  destruct (video (dom st)) as [v|]; [|discriminate].
  destruct (canvas (dom st)); [|discriminate].
  destruct (landmarker (dom st)); [|discriminate].
  intros _. split; [now exists v | reflexivity].
Qed.

Lemma short_hand_uncaught (three : Three) (st : State) (lms : list Landmark)
    (more : list (list Landmark)) :
  processing st = true ->
  (length lms < 10)%nat ->
  exists st',
    predictWebcam three st (Detected (mkResult (lms :: more))) = Uncaught st'.
Proof.
  unfold processing, predictWebcam.
  destruct (sync_canvas st) as [[[st1 cv] v]|]; [|discriminate].
  intros Hctx Hlen. rewrite Hctx. cbn [negb].
  unfold visualize_act. cbn [landmarks].
  assert (H9 : nth_error lms 9 = None) by (apply nth_error_None; lia).
  rewrite H9.
  destruct (nth_error lms 8), (nth_error lms 4), (nth_error lms 0);
    eexists; reflexivity.
Qed.

(** X22. A processed frame whose hand has fewer than ten landmarks ends
    [predictWebcam] with an uncaught error before the next animation frame
    is requested: the loop makes that one call and no other, whatever comes
    after, while [enabled] stays as it was. *)
Theorem short_hand_ends_loop (three : Three) (lp : Loop) (t : Tick)
    (lms : list Landmark) (more : list (list Landmark)) (ts : list Tick) :
  running lp = true ->
  (lastPredictionTime lp + 30 <= now t)%Z ->
  (2 <= readyState t)%N ->
  paused t = false ->
  processing (comp lp) = true ->
  detect t = Detected (mkResult (lms :: more)) ->
  (length lms < 10)%nat ->
  let lp' := turns three lp (t :: ts) in
  running lp' = false
  /\ predicted_at lp' = predicted_at lp ++ [now t]
  /\ enabled (ui (comp lp')) = enabled (ui (comp lp)).
Proof.
  intros Hr Ht Hrs Hpa Hp Hd Hlen. cbv zeta.
  destruct (processing_dom _ Hp) as [[v Hv] Hl].
  destruct (short_hand_uncaught three (comp lp) lms more Hp Hlen) as [st' Hrun].
  assert (Hturn : turn three lp t
                  = mkLoop st' (now t) false (predicted_at lp ++ [now t])).
  { unfold turn. rewrite Hr, Hv, Hl, Hpa, Hd, Hrun. cbn [negb].
    replace (30 <=? now t - lastPredictionTime lp)%Z with true
      by (symmetry; apply Z.leb_le; lia).
    replace (2 <=? readyState t)%N with true
      by (symmetry; apply N.leb_le; exact Hrs).
    reflexivity. }
  unfold turns. cbn [fold_left]. fold (turns three (turn three lp t) ts).
  rewrite Hturn, stopped_loop_stays by reflexivity.
  cbn [running predicted_at comp].
  split; [reflexivity|]. split; [reflexivity|].
  pose proof (frame_untouched three (comp lp)
                (Detected (mkResult (lms :: more)))) as Hu.
  rewrite Hrun in Hu. exact (proj1 Hu).
Qed.

Lemma short_hand_ends_loop_witness :
  let three := mkThree (fun _ => mkSpherical 5 1 0) (fun s => s)
                       (fun _ => mkVector3 0 0 5) (fun c => c) in
  let short := [mkLandmark 0.5 0.6 0; mkLandmark 0.5 0.5 0] in
  let t := mkTick 1000 4 false (Detected (mkResult [short])) in
  let later := mkTick 2000 4 false (hand_frame open_hand) in
  let lp' := turns three (start ready_state) [t; later] in
  running lp' = false /\ predicted_at lp' = [1000%Z].
Proof.
  cbv zeta.
  pose proof (short_hand_ends_loop
                (mkThree (fun _ => mkSpherical 5 1 0) (fun s => s)
                         (fun _ => mkVector3 0 0 5) (fun c => c))
                (start ready_state)
                (mkTick 1000 4 false
                   (Detected (mkResult [[mkLandmark 0.5 0.6 0;
                                         mkLandmark 0.5 0.5 0]])))
                [mkLandmark 0.5 0.6 0; mkLandmark 0.5 0.5 0] []
                [mkTick 2000 4 false (hand_frame open_hand)]
                eq_refl) as H.
  cbv zeta in H.
  destruct H as (H1 & H2 & _).
  - cbn. lia.
  - cbn. lia.
  - reflexivity.
  - reflexivity.
  - reflexivity.
  - cbn. lia.
  - split; [exact H1 | exact H2].
Defined.

(** *** Clicks, camera events and frames in any order *)

Lemma stopCamera_ui_world (st : State) :
  ui (stopCamera st) = mkUi false (loading (ui st)) (lit "Ready") (error (ui st))
  /\ enable_changes (world (stopCamera st)) = enable_changes (world st) ++ [false]
  /\ reloads (world (stopCamera st)) = reloads (world st)
  /\ camera_requests (world (stopCamera st)) = camera_requests (world st)
  /\ refs (stopCamera st) = refs st
  /\ controls (dom (stopCamera st)) = controls (dom st)
  /\ landmarker (dom (stopCamera st)) = landmarker (dom st).
Proof.
  unfold stopCamera.
  destruct st as [[en lo stt er] g [vid can lm ctl] [co re cr ec ss]].
  cbn [dom video canvas setEnabled onEnableChange setStatus with_ui with_world
       ui world].
  destruct vid as [v|]; [destruct (srcObject v)|];
    (destruct can as [c|]; [destruct (context2d c) eqn:Hctx|]);
    cbn; try rewrite Hctx; cbn; repeat split; reflexivity.
Qed.





Lemma perform_parent (three : Three) (st : State) (a : Action) :
  parent_enabled st = enabled (ui st) ->
  parent_enabled (perform three st a) = enabled (ui (perform three st a)).
Proof.
  unfold parent_enabled. intros Hp.
  destruct a as [cam|play|d|]; cbn [perform].
  - unfold toggleCamera.
    destruct (enabled (ui st)) eqn:Hen.
    + destruct (stopCamera_ui_world st) as (Hui & Hec & _).
      rewrite Hui, Hec. now rewrite last_last.
    + destruct (landmarker (dom st)); cbn [negb].
      * destruct cam as [stream|err].
        -- cbn [dom video request_camera setStatus setLoading with_ui with_world].
           destruct (video (dom st)); cbn; now rewrite Hp, Hen.
        -- cbn. now rewrite Hp, Hen.
      * destruct (error_set st); cbn; now rewrite Hp, Hen.
  - unfold onloadeddata.
    destruct (video (dom st)); [|exact Hp].
    destruct play; cbn; [exact Hp | now rewrite last_last].
  - destruct (frame_untouched three st d)
      as (H1 & _ & _ & _ & _ & _ & _ & H8 & _).
    now rewrite H1, H8.
  - unfold on_disabled.
    destruct (controls (dom st)) as [c|]; [|exact Hp].
    destruct (release_control c (refs st)). exact Hp.
Qed.

(** X24. The parent always knows whether hand control is on: if the last
    value it was given through [onEnableChange] (or [false] when there was
    none) is [enabled], that stays so through any clicks, camera events,
    frames and switch-offs. *)
Theorem parent_knows_enabled (three : Three) (st : State) (acts : list Action) :
  parent_enabled st = enabled (ui st) ->
  parent_enabled (session three st acts) = enabled (ui (session three st acts)).
Proof.
  revert st. induction acts as [|a acts IH]; intros st Hp; [exact Hp|].
  unfold session. cbn [fold_left]. apply IH. now apply perform_parent.
Qed.

Lemma parent_knows_enabled_witness :
  let three := mkThree (fun _ => mkSpherical 5 1 0) (fun s => s)
                       (fun _ => mkVector3 0 0 5) (fun c => c) in
  let acts := [Click (Granted 7); Loaded None; Frame (hand_frame open_hand)] in
  parent_enabled ready_state = enabled (ui ready_state)
  /\ parent_enabled (session three ready_state acts) = true.
Proof.
  cbv zeta.
  assert (Hp : parent_enabled ready_state = enabled (ui ready_state))
    by reflexivity.
  split; [exact Hp|].
  rewrite (parent_knows_enabled _ _ _ Hp). reflexivity.
Defined.

(** *** Start-up and the button *)

(** X25. After the landmarker's start-up the button is clickable either
    way.  When the model loaded, the status is "Ready", no error is shown and
    a click asks for the camera once without reloading the page; when it
    failed, the status is "AI Init Failed", the error "Could not load AI
    model." and a click reloads the page without asking for the camera. *)
Theorem init_then_click (st : State) (cam : CameraOutcome) :
  enabled (ui st) = false ->
  landmarker (dom st) = false ->
  (let st1 := init st true in
   button_disabled st1 = false
   /\ status (ui st1) = lit "Ready" /\ error (ui st1) = None
   /\ reloads (world (toggleCamera st1 cam)) = reloads (world st)
   /\ camera_requests (world (toggleCamera st1 cam))
      = S (camera_requests (world st)))
  /\ (let st1 := init st false in
      button_disabled st1 = false
      /\ status (ui st1) = lit "AI Init Failed"
      /\ error (ui st1) = Some (lit "Could not load AI model.")
      /\ toggleCamera st1 cam = reload st1
      /\ camera_requests (world (toggleCamera st1 cam))
         = camera_requests (world st)).
Proof.
  intros He Hl. cbv zeta.
  destruct st as [[en lo stt er] g [vid can lm ctl] [co re cr ec ss]].
  cbn in He, Hl. subst en lm. split.
  - unfold toggleCamera. cbn.
    repeat (split; [reflexivity|]).
    destruct cam; [destruct vid|]; split; reflexivity.
  - unfold toggleCamera. cbn. repeat split; reflexivity.
Qed.

Lemma init_then_click_witness :
  let st := mounted_state None None None in
  enabled (ui st) = false /\ landmarker (dom st) = false
  /\ reloads (world (toggleCamera (init st false) (Granted 7))) = 1%nat
  /\ camera_requests (world (toggleCamera (init st true) (Granted 7))) = 1%nat.
Proof.
  cbv zeta.
  pose proof (init_then_click (mounted_state None None None) (Granted 7)
                eq_refl eq_refl) as [Hok Hfail].
  cbv zeta in Hok, Hfail.
  split; [reflexivity|]. split; [reflexivity|]. split.
  - destruct Hfail as (_ & _ & _ & Hr & _). rewrite Hr. reflexivity.
  - destruct Hok as (_ & _ & _ & _ & Hc). exact Hc.
Defined.

(** X26. Turning hand control on and off again: with the landmarker
    loaded and a video element, a granted camera whose video plays turns
    control on with status "Searching..."; the next click turns it off with
    status "Ready", stops that stream and takes it off the video.  The parent
    was told [true] then [false], the camera was asked for once, and the
    clicks touched neither the error, the gesture refs nor the controls. *)
Theorem camera_on_then_off (st : State) (v : Video) (stream : N)
    (cam : CameraOutcome) :
  enabled (ui st) = false ->
  landmarker (dom st) = true ->
  video (dom st) = Some v ->
  let on := onloadeddata (toggleCamera st (Granted stream)) None in
  let off := toggleCamera on cam in
  (enabled (ui on) = true /\ loading (ui on) = false
   /\ status (ui on) = lit "Searching..."
   /\ video (dom on) = Some (mkVideo (videoWidth v) (videoHeight v) (Some stream)))
  /\ (enabled (ui off) = false /\ status (ui off) = lit "Ready"
      /\ video (dom off) = Some (mkVideo (videoWidth v) (videoHeight v) None)
      /\ stopped_streams (world off) = stopped_streams (world st) ++ [stream])
  /\ enable_changes (world off) = enable_changes (world st) ++ [true; false]
  /\ camera_requests (world off) = S (camera_requests (world st))
  /\ reloads (world off) = reloads (world st)
  /\ error (ui off) = error (ui st)
  /\ refs off = refs st
  /\ controls (dom off) = controls (dom st).
Proof.
  intros He Hl Hv. cbv zeta.
  destruct st as [[en lo stt er] g [vid can lm ctl] [co re cr ec ss]].
  cbn in He, Hl, Hv. subst en lm vid.
  unfold toggleCamera, onloadeddata, stopCamera. cbn.
  destruct can as [c|]; [destruct (context2d c) eqn:Hctx|]; cbn;
    try rewrite Hctx; cbn; rewrite <- app_assoc; repeat split; reflexivity.
Qed.

Lemma camera_on_then_off_witness :
  let off := toggleCamera
               (onloadeddata (toggleCamera ready_state (Granted 7)) None)
               (Granted 8) in
  enabled (ui ready_state) = false
  /\ landmarker (dom ready_state) = true
  /\ video (dom ready_state) = Some (mkVideo 640 480 None)
  /\ stopped_streams (world off) = [7%N]
  /\ enable_changes (world off) = [true; false].
Proof.
  cbv zeta.
  pose proof (camera_on_then_off ready_state (mkVideo 640 480 None) 7 (Granted 8)
                eq_refl eq_refl eq_refl) as H.
  cbv zeta in H. destruct H as (_ & (_ & _ & _ & Hs) & Hec & _).
  split; [reflexivity|]. split; [reflexivity|]. split; [reflexivity|].
  split; [exact Hs | exact Hec].
Defined.
End GestureLoopFacts.
